(** * TimelyAds: scheduling, single-flight playback, session ducking, mic passthrough

    A shallow embedding of the core of [timelads.py] (class [TimelyAdsApp]):
    the scheduler tick, [play_media_async] and its worker, the pycaw ducking
    helpers [duck_all_sessions] / [restore_all_sessions] with their deferred
    ramp stages, and the per-block callback of the microphone passthrough.

    Conventions of the embedding.
    - Python [int] is [Z]; Python [float] (session volumes, gain, samples) is
      an exact rational [Q]: rounding of IEEE arithmetic is not modelled, and
      no statement below rests on a result being exact where binary64 would
      round it.  The arithmetic of one ramp stage is also given in binary64
      ([duck_value_double]), to show what rounding does to its last stage.
    - A Python [dict] is an insertion-ordered association list ([PyDict]).
    - [self.after(ms, f)] appends a defunctionalised closure ([timer]) to the
      application's timer queue; [run_next] is one turn of the Tk event loop.
    - The host (Windows audio sessions, file system, wall clock) is an
      explicit [Host] value; a call that raises is an [option] that is [None].
    - Dialogs, prints and mixer calls are recorded in the [trace] field.
    - A method body or a timer callback runs on the Tk main thread and is one
      step of the model.  [Thread.start()] returns once the new thread is
      running, and on CPython the thread has by then executed the first
      statement of [_playback_worker], [self._is_playing = True]: so
      [play_media_async] records the thread it starts with the flag set.
      The rest of the worker is not interleaved with the main thread:
      [_playback_worker] is the run of one worker to its last statement.
    - An enumeration of the audio sessions makes new session objects: the
      [id(s)] that keys a session without a pid belongs to that enumeration
      only.  A [Host] value is the host at one enumeration; statements that
      span two enumerations assume nothing about such ids. *)

From Stdlib Require Import Floats.
From Stdlib Require Import ZArith QArith List String Bool Lia Lqa.
Import ListNotations.
Local Set Warnings "-inexact-float".
Local Open Scope Z_scope.

(* ================================================================== *)
(** * Part I. Definitions                                               *)
(* ================================================================== *)

(** ** Python dictionaries: insertion order, unique keys *)

Module PyDict.
Section Dict.
Context {K V : Type} (eqb : K -> K -> bool).

(** [d.get(k)] *)
Fixpoint get (k : K) (d : list (K * V)) : option V :=
  match d with
  | [] => None
  | (k', v) :: r => if eqb k k' then Some v else get k r
  end.

(** [k in d] *)
Definition mem (k : K) (d : list (K * V)) : bool :=
  match get k d with Some _ => true | None => false end.

(** [d[k] = v]: overwrite in place, or append a new key at the end *)
Fixpoint set (k : K) (v : V) (d : list (K * V)) : list (K * V) :=
  match d with
  | [] => [(k, v)]
  | (k', v') :: r => if eqb k k' then (k', v) :: r else (k', v') :: set k v r
  end.

(** [d.get(k, dflt)] *)
Definition get_default (k : K) (dflt : V) (d : list (K * V)) : V :=
  match get k d with Some v => v | None => dflt end.

(** [not d] *)
Definition is_empty (d : list (K * V)) : bool :=
  match d with [] => true | _ :: _ => false end.
End Dict.
End PyDict.

(** Dictionaries keyed by session key (an [int]) and by playlist name. *)
Definition zdict (V : Type) := list (Z * V).
Definition sdict (V : Type) := list (string * V).

(** ** Data model *)

(** An entry of a playlist's ["files"]: a JSON object, every key optional. *)
Record media := mkMedia {
  m_path : option string;
  m_times : option (list string);
  m_repeats : option Z
}.

(** A playlist: a JSON object, every key optional. *)
Record playlist := mkPlaylist {
  pl_files : option (list media);
  pl_time : option string;
  pl_repeats : option Z;
  pl_active : option bool
}.

(** A volume interface ([ISimpleAudioVolume] pointer) is a handle of the host. *)
Definition handle := Z.

(** One tuple [(pid, s, vol_iface)] of [_get_all_audio_sessions]; of the
    session object [s] only [id(s)] is ever used.  The object is made by
    the enumeration that returns it, so [s_id] is the session's id in this
    enumeration, not a property of the session. *)
Record session := mkSession {
  s_pid : option Z;
  s_id : Z;
  s_vol : option handle
}.

(** What the program observes of its host. *)
Record Host := mkHost {
  GetAllSessions : option (list session);  (* None: the enumeration raises *)
  MasterVolume : handle -> option Q;       (* None: Get/SetMasterVolume raise *)
  getpid : Z;                              (* os.getpid() *)
  strftime_HM : string;                    (* datetime.now().strftime("%H:%M") *)
  path_exists : string -> bool             (* os.path.exists *)
}.

(** Closures handed to [self.after]. *)
Inductive timer :=
| DuckStep (i : Z) (target : Q) (steps step_ms : Z) (to_duck : list (Z * handle))
| RestoreStep (i : Z) (steps step_ms : Z) (vol_map : zdict handle)
| RestoreCall (steps step_ms : Z)
| ScheduleTick.

(** Observable effects other than session volumes. *)
Inductive event :=
| ShowInfo (title msg : string)
| ShowWarning (title msg : string)
| ShowError (title msg : string)
| PyPrint (msg : string)
| SavePlaylists
| MixerLoad (path : option string)
| MixerPlay
| Sleep80.

(** The fields of [TimelyAdsApp] the core reads and writes, the module flag
    [PYCAW_OK], and the bookkeeping of the embedding: the Tk timer queue with
    its clock, the worker threads started, the trace of effects. *)
Record App := mkApp {
  PYCAW_OK : bool;
  playlists : sdict playlist;
  current_playlist : option string;
  _is_playing : bool;
  _playback_lock : bool;                       (* true: the lock is held *)
  _playback_thread : option (option string * Z);
  _saved_sessions : zdict Q;
  _duck_active : bool;
  _mic_gain : Q;
  now_ms : Z;
  after_queue : list (Z * timer);               (* (due time, callback) *)
  threads : list (option string * Z);          (* workers started: (path, repeats) *)
  trace : list event
}.

Definition set_playlists (p : sdict playlist) (a : App) : App :=
  mkApp (PYCAW_OK a) p (current_playlist a) (_is_playing a) (_playback_lock a)
        (_playback_thread a) (_saved_sessions a) (_duck_active a) (_mic_gain a)
        (now_ms a) (after_queue a) (threads a) (trace a).

Definition set_is_playing (b : bool) (a : App) : App :=
  mkApp (PYCAW_OK a) (playlists a) (current_playlist a) b (_playback_lock a)
        (_playback_thread a) (_saved_sessions a) (_duck_active a) (_mic_gain a)
        (now_ms a) (after_queue a) (threads a) (trace a).

Definition set_playback_lock (b : bool) (a : App) : App :=
  mkApp (PYCAW_OK a) (playlists a) (current_playlist a) (_is_playing a) b
        (_playback_thread a) (_saved_sessions a) (_duck_active a) (_mic_gain a)
        (now_ms a) (after_queue a) (threads a) (trace a).

(** [th = threading.Thread(...); th.start(); self._playback_thread = th].
    When [start()] returns the worker has run its first statement,
    [self._is_playing = True]. *)
Definition start_thread (path : option string) (repeats : Z) (a : App) : App :=
  mkApp (PYCAW_OK a) (playlists a) (current_playlist a) true (_playback_lock a)
        (Some (path, repeats)) (_saved_sessions a) (_duck_active a) (_mic_gain a)
        (now_ms a) (after_queue a) (threads a ++ [(path, repeats)]) (trace a).

Definition set_saved_sessions (d : zdict Q) (a : App) : App :=
  mkApp (PYCAW_OK a) (playlists a) (current_playlist a) (_is_playing a) (_playback_lock a)
        (_playback_thread a) d (_duck_active a) (_mic_gain a)
        (now_ms a) (after_queue a) (threads a) (trace a).

Definition set_duck_active (b : bool) (a : App) : App :=
  mkApp (PYCAW_OK a) (playlists a) (current_playlist a) (_is_playing a) (_playback_lock a)
        (_playback_thread a) (_saved_sessions a) b (_mic_gain a)
        (now_ms a) (after_queue a) (threads a) (trace a).

Definition set_mic_gain (g : Q) (a : App) : App :=
  mkApp (PYCAW_OK a) (playlists a) (current_playlist a) (_is_playing a) (_playback_lock a)
        (_playback_thread a) (_saved_sessions a) (_duck_active a) g
        (now_ms a) (after_queue a) (threads a) (trace a).

Definition set_timers (now : Z) (q : list (Z * timer)) (a : App) : App :=
  mkApp (PYCAW_OK a) (playlists a) (current_playlist a) (_is_playing a) (_playback_lock a)
        (_playback_thread a) (_saved_sessions a) (_duck_active a) (_mic_gain a)
        now q (threads a) (trace a).

(** Append effects to the trace; nothing else changes. *)
Definition emit (evs : list event) (a : App) : App :=
  mkApp (PYCAW_OK a) (playlists a) (current_playlist a) (_is_playing a) (_playback_lock a)
        (_playback_thread a) (_saved_sessions a) (_duck_active a) (_mic_gain a)
        (now_ms a) (after_queue a) (threads a) (trace a ++ evs).

(** [self.after(ms, f)] *)
Definition after (ms : Z) (f : timer) (a : App) : App :=
  set_timers (now_ms a) (after_queue a ++ [(now_ms a + ms, f)]) a.

(** ** Host volume calls *)

(** [vol.GetMasterVolume()] *)
Definition GetMasterVolume (h : Host) (vol : handle) : option Q :=
  MasterVolume h vol.

(** [vol.SetMasterVolume(v, None)]: [None] when the call raises, in which
    case the host is unchanged. *)
Definition SetMasterVolume (vol : handle) (v : Q) (h : Host) : option Host :=
  match MasterVolume h vol with
  | None => None
  | Some _ =>
      Some (mkHost (GetAllSessions h)
                   (fun x => if x =? vol then Some v else MasterVolume h x)
                   (getpid h) (strftime_HM h) (path_exists h))
  end.

(** [try: vol.SetMasterVolume(v, None) / except Exception: pass] *)
Definition try_SetMasterVolume (vol : handle) (v : Q) (h : Host) : Host :=
  match SetMasterVolume vol v h with Some h' => h' | None => h end.

(** Python's two-argument [min] and [max] on floats. *)
Definition py_min (a b : Q) : Q := if Qle_bool a b then a else b.
Definition py_max (a b : Q) : Q := if Qle_bool b a then a else b.

(** [max(0.0, min(1.0, new))] *)
Definition clamp01 (new : Q) : Q := py_max 0 (py_min 1 new).

(** ** pycaw duck helpers *)

(** [_get_all_audio_sessions]: the tuples of the host's sessions; the empty
    list when pycaw is missing or the enumeration raises. *)
Definition _get_all_audio_sessions (h : Host) (a : App) : list session :=
  if negb (PYCAW_OK a) then []
  else match GetAllSessions h with
       | Some sessions => sessions
       | None => []
       end.

(** [key = pid if pid is not None else id(s)] *)
Definition session_key (s : session) : Z :=
  match s_pid s with Some pid => pid | None => s_id s end.

(** [pid in exclude_pids or pid == os.getpid()] *)
Definition excluded (h : Host) (exclude_pids : list Z) (s : session) : bool :=
  match s_pid s with
  | Some pid => existsb (Z.eqb pid) exclude_pids || (pid =? getpid h)
  | None => false
  end.

(** The capture loop of [duck_all_sessions] over [sessions], from the
    current [_saved_sessions] and [to_duck]. *)
Fixpoint capture (h : Host) (exclude_pids : list Z) (sessions : list session)
         (saved : zdict Q) (to_duck : list (Z * handle))
  : zdict Q * list (Z * handle) :=
  match sessions with
  | [] => (saved, to_duck)
  | s :: rest =>
      match s_vol s with
      | None => capture h exclude_pids rest saved to_duck
      | Some vol =>
          if excluded h exclude_pids s then capture h exclude_pids rest saved to_duck
          else
            let key := session_key s in
            let orig := match GetMasterVolume h vol with
                        | Some v => v
                        | None => 1%Q
                        end in
            let saved' := if PyDict.mem Z.eqb key saved then saved
                          else PyDict.set Z.eqb key orig saved in
            capture h exclude_pids rest saved' (to_duck ++ [(key, vol)])
      end
  end.

(** [duck_all_sessions(target, exclude_pids, steps, step_ms)] *)
Definition duck_all_sessions (target : Q) (exclude_pids : option (list Z))
           (steps step_ms : Z) (h : Host) (a : App) : bool * App :=
  if negb (PYCAW_OK a) then (false, emit [PyPrint "pycaw not available"] a)
  else
    let exclude_pids := match exclude_pids with Some e => e | None => [] end in
    let sessions := _get_all_audio_sessions h a in
    let a := if negb (_duck_active a) then set_saved_sessions [] a else a in
    let '(saved, to_duck) := capture h exclude_pids sessions (_saved_sessions a) [] in
    let a := set_saved_sessions saved a in
    match to_duck with
    | [] => (true, set_duck_active true a)
    | _ :: _ => (true, after 0 (DuckStep 1 target steps step_ms to_duck) a)
    end.

(** The value one stage of the duck ramp writes for a session whose
    baseline is [orig]: [orig + (target - orig) * t], clamped. *)
Definition duck_value (target orig t : Q) : Q :=
  clamp01 (orig + (target - orig) * t)%Q.


(** The closure [step(i)] of [duck_all_sessions].  With [steps = 0] the
    division raises and Tk drops the callback: nothing is written. *)
Definition duck_step (i : Z) (target : Q) (steps step_ms : Z)
           (to_duck : list (Z * handle)) (h : Host) (a : App) : Host * App :=
  if steps =? 0 then (h, a)
  else
    let t := (inject_Z i / inject_Z steps)%Q in
    let h' := fold_left
                (fun h '(key, vol) =>
                   let orig := PyDict.get_default Z.eqb key 1%Q (_saved_sessions a) in
                   try_SetMasterVolume vol (duck_value target orig t) h)
                to_duck h in
    if i <? steps
    then (h', after step_ms (DuckStep (i + 1) target steps step_ms to_duck) a)
    else (h', set_duck_active true a).

(** The loop of [restore_all_sessions] that builds [vol_map]. *)
Fixpoint build_vol_map (sessions : list session) (vol_map : zdict handle)
  : zdict handle :=
  match sessions with
  | [] => vol_map
  | s :: rest =>
      match s_vol s with
      | None => build_vol_map rest vol_map
      | Some vol => build_vol_map rest (PyDict.set Z.eqb (session_key s) vol vol_map)
      end
  end.

(** [restore_all_sessions(steps, step_ms)] *)
Definition restore_all_sessions (steps step_ms : Z) (h : Host) (a : App)
  : bool * App :=
  if negb (PYCAW_OK a) then (false, a)
  else if PyDict.is_empty (_saved_sessions a) then (true, a)
  else
    let sessions := _get_all_audio_sessions h a in
    let vol_map := build_vol_map sessions [] in
    (true, after 0 (RestoreStep 1 steps step_ms vol_map) a).

(** One pass of the ramp loop of restore's [step(i)] over the saved items. *)
Definition restore_ramp_pass (t : Q) (vol_map : zdict handle)
           (items : list (Z * Q)) (h : Host) : Host :=
  fold_left
    (fun h '(key, orig) =>
       match PyDict.get Z.eqb key vol_map with
       | None => h
       | Some voliface =>
           let cur := match GetMasterVolume h voliface with
                      | Some c => c
                      | None => orig
                      end in
           let new := (cur + (orig - cur) * t)%Q in
           try_SetMasterVolume voliface (clamp01 new) h
       end)
    items h.

(** The last loop of restore's [step(i)]: force every baseline. *)
Definition restore_force_pass (vol_map : zdict handle)
           (items : list (Z * Q)) (h : Host) : Host :=
  fold_left
    (fun h '(key, orig) =>
       match PyDict.get Z.eqb key vol_map with
       | None => h
       | Some voliface => try_SetMasterVolume voliface orig h
       end)
    items h.

(** The closure [step(i)] of [restore_all_sessions]. *)
Definition restore_step (i steps step_ms : Z) (vol_map : zdict handle)
           (h : Host) (a : App) : Host * App :=
  if steps =? 0 then (h, a)
  else
    let t := (inject_Z i / inject_Z steps)%Q in
    let h1 := restore_ramp_pass t vol_map (_saved_sessions a) h in
    if i <? steps
    then (h1, after step_ms (RestoreStep (i + 1) steps step_ms vol_map) a)
    else
      let h2 := restore_force_pass vol_map (_saved_sessions a) h1 in
      (h2, set_duck_active false (set_saved_sessions [] a)).

(** ** Playback worker *)

(** What the pygame mixer does with one [play()]: the file plays and
    [get_busy()] is true for [polls] polls; or [play()] raises; or
    [get_busy()] raises after [polls] polls; or [get_busy()] stays true for
    ever. *)
Inductive play_outcome :=
| Completes (polls : nat)
| PlayRaises
| BusyRaises (polls : nat)
| StaysBusy.

(** The mixer as the worker meets it: whether [mixer.music.load(path)]
    succeeds, and the outcome of the [k]-th [play()] after it. *)
Record Mixer := mkMixer {
  load_ok : option string -> bool;
  outcome : nat -> play_outcome
}.

(** [play_media_async(path, repeats)] *)
Definition play_media_async (path : option string) (repeats : Z) (a : App) : App :=
  if _is_playing a
  then emit [ShowInfo "Info" "Já está tocando outro arquivo. Aguarde."] a
  else start_thread path repeats a.

(** [for _ in range(n): mixer.music.play(); while mixer.music.get_busy():
    time.sleep(0.08)], from the [k]-th play on: the mixer effects, and
    whether the loop ended without raising.  [None]: a play stays busy and
    the polling loop, which has no exit of its own, never ends. *)
Fixpoint play_loop (mx : Mixer) (k n : nat) : option (list event * bool) :=
  match n with
  | O => Some ([], true)
  | S n' =>
      match outcome mx k with
      | Completes polls =>
          match play_loop mx (S k) n' with
          | Some (evs, ok) => Some (MixerPlay :: repeat Sleep80 polls ++ evs, ok)
          | None => None
          end
      | PlayRaises => Some ([], false)
      | BusyRaises polls => Some (MixerPlay :: repeat Sleep80 polls, false)
      | StaysBusy => None
      end
  end.

(** The body of the worker's [with self._playback_lock:] block. *)
Definition worker_body (mx : Mixer) (path : option string) (repeats : Z)
  : option (list event * bool) :=
  if load_ok mx path
  then match play_loop mx 0 (Z.to_nat repeats) with
       | Some (evs, ok) => Some (MixerLoad path :: evs, ok)
       | None => None
       end
  else Some ([], false).

(** [_playback_worker(path, repeats)], run to its end.  [None]: the worker
    does not come to its end: the lock is held by another thread and the
    worker waits for it, or a play never stops being busy. *)
Definition _playback_worker (mx : Mixer) (path : option string) (repeats : Z)
           (a : App) : option App :=
  let a := set_is_playing true a in
  if _playback_lock a then None
  else
    (* try: with self._playback_lock: ... *)
    let a := set_playback_lock true a in
    match worker_body mx path repeats with
    | None => None
    | Some (evs, ok) =>
        let a := set_playback_lock false (emit evs a) in
        (* except Exception as e: print("Playback error:", e) *)
        let a := if ok then a else emit [PyPrint "Playback error:"] a in
        (* finally: *)
        let a := set_is_playing false a in
        Some (after 150 (RestoreCall 10 150) a)
    end.

(** ** Manual play *)

(** The operator's side of [_play_selected_media]: the row selected in the
    table, the answer to the repeats dialog ([None]: cancelled), and the
    builtin [int] on strings ([None]: it raises). *)
Record UI := mkUI {
  selected_index : option nat;
  askstring : option string;
  py_int : string -> option Z
}.

(** [l[idx] = x] for an index in range *)
Fixpoint list_set {A : Type} (idx : nat) (x : A) (l : list A) : list A :=
  match l, idx with
  | [], _ => []
  | _ :: r, O => x :: r
  | y :: r, S i => y :: list_set i x r
  end.

(** [self.playlists[self.current_playlist]["files"][idx]]; [None] when a
    lookup raises. *)
Definition selected_media (idx : nat) (a : App) : option (string * playlist * list media * media) :=
  match current_playlist a with
  | None => None
  | Some name =>
      match PyDict.get String.eqb name (playlists a) with
      | None => None
      | Some pl =>
          match pl_files pl with
          | None => None
          | Some files =>
              match nth_error files idx with
              | None => None
              | Some m => Some (name, pl, files, m)
              end
          end
      end
  end.

(** [int(simpledialog.askstring(...) or "1")], 1 when [int] raises *)
Definition asked_repeats (ui : UI) : Z :=
  match askstring ui with
  | None => 1
  | Some s =>
      if String.eqb s "" then 1
      else match py_int ui s with Some r => r | None => 1 end
  end.

(** [max(lo, min(hi, r))] on integers *)
Definition clamp_int (lo hi r : Z) : Z := Z.max lo (Z.min hi r).

(** [_play_selected_media] *)
Definition _play_selected_media (ui : UI) (h : Host) (a : App) : App :=
  match selected_index ui with
  | None => emit [ShowWarning "Aviso" "Selecione um item para tocar."] a
  | Some idx =>
      match selected_media idx a with
      | None => a
      | Some (name, pl, files, m) =>
          let missing := match m_path m with
                         | None => true
                         | Some path => String.eqb path "" || negb (path_exists h path)
                         end in
          if missing then emit [ShowError "Erro" "Arquivo não encontrado."] a
          else
            let repeats := clamp_int 1 50 (asked_repeats ui) in
            let m' := mkMedia (m_path m) (m_times m) (Some repeats) in
            let pl' := mkPlaylist (Some (list_set idx m' files)) (pl_time pl)
                                  (pl_repeats pl) (pl_active pl) in
            let a := set_playlists (PyDict.set String.eqb name pl' (playlists a)) a in
            let a := emit [SavePlaylists] a in
            let a := snd (duck_all_sessions 0.06 (Some [getpid h]) 6 120 h a) in
            play_media_async (m_path m) repeats a
      end
  end.

(** ** Scheduler tick *)

(** [m.get("repeats", 1)] *)
Definition media_repeats (m : media) : Z :=
  match m_repeats m with Some r => r | None => 1 end.

(** [_play_playlist(playlist_name)]; the flag is false when a lookup raises. *)
Definition _play_playlist (h : Host) (playlist_name : string) (a : App) : App * bool :=
  match PyDict.get String.eqb playlist_name (playlists a) with
  | None => (a, false)
  | Some pl =>
      match pl_files pl with
      | None => (a, false)
      | Some files =>
          (fold_left
             (fun a m =>
                let a := snd (duck_all_sessions 0.06 (Some [getpid h]) 6 120 h a) in
                play_media_async (m_path m) (media_repeats m) a)
             files a, true)
      end
  end.

(** [for t in m.get("times", []): if t == now: self.play_media_async(...)] *)
Definition play_media_times (now : string) (m : media) (a : App) : App :=
  fold_left
    (fun a t => if String.eqb t now
                then play_media_async (m_path m) (media_repeats m) a
                else a)
    (match m_times m with Some ts => ts | None => [] end) a.

(** [pl.get("active", True)] *)
Definition playlist_active (pl : playlist) : bool :=
  match pl_active pl with Some b => b | None => true end.

(** [pl.get("time") == now] *)
Definition playlist_due (now : string) (pl : playlist) : bool :=
  match pl_time pl with Some t => String.eqb t now | None => false end.

(** The [for pl_name, pl in self.playlists.items()] loop of the tick; the
    flag is false when the loop was left by an exception. *)
Fixpoint tick_loop (h : Host) (now : string) (items : list (string * playlist))
         (a : App) : App * bool :=
  match items with
  | [] => (a, true)
  | (pl_name, pl) :: rest =>
      if negb (playlist_active pl)
      then tick_loop h now rest a
      else
        let '(a, ok) :=
          if playlist_due now pl then _play_playlist h pl_name a else (a, true) in
        if ok then
          let a := fold_left (fun a m => play_media_times now m a)
                             (match pl_files pl with Some fs => fs | None => [] end) a in
          tick_loop h now rest a
        else (a, false)
  end.

(** [_schedule_tick]: the loop, then [self.after(60000, self._schedule_tick)]
    unless the loop raised. *)
Definition _schedule_tick (h : Host) (a : App) : App :=
  let now := strftime_HM h in
  let '(a, ok) := tick_loop h now (playlists a) a in
  if ok then after 60000 ScheduleTick a else a.

(** ** The Tk event loop *)

Definition run_timer (f : timer) (h : Host) (a : App) : Host * App :=
  match f with
  | DuckStep i target steps step_ms to_duck =>
      duck_step i target steps step_ms to_duck h a
  | RestoreStep i steps step_ms vol_map =>
      restore_step i steps step_ms vol_map h a
  | RestoreCall steps step_ms => (h, snd (restore_all_sessions steps step_ms h a))
  | ScheduleTick => (h, _schedule_tick h a)
  end.

(** The timer due first, earliest registration first among equals. *)
Fixpoint pop_earliest (q : list (Z * timer)) : option ((Z * timer) * list (Z * timer)) :=
  match q with
  | [] => None
  | e :: r =>
      match pop_earliest r with
      | None => Some (e, [])
      | Some (e', r') =>
          if fst e <=? fst e' then Some (e, r) else Some (e', e :: r')
      end
  end.

(** One turn of the event loop: run the next timer at its due time. *)
Definition run_next (h : Host) (a : App) : Host * App :=
  match pop_earliest (after_queue a) with
  | None => (h, a)
  | Some ((due, f), rest) => run_timer f h (set_timers (Z.max (now_ms a) due) rest a)
  end.

Fixpoint run_turns (n : nat) (h : Host) (a : App) : Host * App :=
  match n with
  | O => (h, a)
  | S n' => let '(h', a') := run_next h a in run_turns n' h' a'
  end.

(** ** Mic passthrough *)

(** A two-dimensional numpy array of shape [(len rows, ncols)]. *)
Record ndarray := mkArray {
  ncols : nat;
  rows : list (list Q)
}.

(** numpy broadcasting of a length along one axis: equal, or stretched from 1 *)
Definition broadcast {A : Type} (n : nat) (dflt : A) (l : list A) : option (list A) :=
  if Nat.eqb (List.length l) n then Some l
  else if Nat.eqb (List.length l) 1 then Some (repeat (hd dflt l) n)
  else None.

(** [indata * gain] *)
Definition scale (gain : Q) (d : ndarray) : ndarray :=
  mkArray (ncols d) (map (map (fun x => (x * gain)%Q)) (rows d)).

(** [data[:, 0]] *)
Definition column0 (d : ndarray) : list Q := map (fun r => nth 0 r 0%Q) (rows d).

(** [outdata[:, j] = v]; [None] when numpy raises *)
Definition assign_column (j : nat) (v : list Q) (out : ndarray) : option ndarray :=
  if Nat.ltb j (ncols out)
  then match broadcast (List.length (rows out)) 0%Q v with
       | Some v' =>
           Some (mkArray (ncols out)
                         (map (fun '(r, x) => list_set j x r) (combine (rows out) v')))
       | None => None
       end
  else None.

(** [outdata[:] = data]; [None] when numpy raises *)
Definition assign_all (data out : ndarray) : option ndarray :=
  if Nat.eqb (ncols data) (ncols out) || Nat.eqb (ncols data) 1
  then match broadcast (List.length (rows out)) []
                       (map (fun r => repeat (hd 0%Q r) (ncols out)) (rows data)),
             broadcast (List.length (rows out)) [] (rows data) with
       | Some stretched, Some same =>
           Some (mkArray (ncols out)
                         (if Nat.eqb (ncols data) (ncols out) then same else stretched))
       | _, _ => None
       end
  else None.

(** [outdata.fill(0)] *)
Definition fill0 (out : ndarray) : ndarray :=
  mkArray (ncols out) (map (map (fun _ => 0%Q)) (rows out)).

(** The [try] block of the stream callback. *)
Definition callback_body (gain : Q) (indata outdata : ndarray) : option ndarray :=
  let data := scale gain indata in
  if Nat.eqb (ncols data) 1
  then match assign_column 0 (column0 data) outdata with
       | Some out => assign_column 1 (column0 data) out
       | None => None
       end
  else assign_all data outdata.

(** [callback(indata, outdata, frames, time_info, status)] of [_start_mic],
    reading [self._mic_gain]: the new contents of [outdata]. *)
Definition callback (a : App) (indata outdata : ndarray) : ndarray :=
  match callback_body (_mic_gain a) indata outdata with
  | Some out => out
  | None => fill0 outdata
  end.

(** [_on_mic_vol_change]: [v] is [float(self._mic_vol.get())], [None] when
    reading the slider raises. *)
Definition _on_mic_vol_change (v : option Q) (a : App) : App :=
  match v with
  | Some v => set_mic_gain (py_max 0 (v / 100)%Q) a
  | None => set_mic_gain 1%Q a
  end.

(** ** Notions used in the statements *)

(** A batch of volume writes, each guarded by its own [try]. *)
Definition apply_writes (ws : list (handle * Q)) (h : Host) : Host :=
  fold_left (fun h '(vol, v) => try_SetMasterVolume vol v h) ws h.

(** The writes of one duck stage. *)
Definition duck_writes (target t : Q) (saved : zdict Q) (to_duck : list (Z * handle))
  : list (handle * Q) :=
  map (fun '(key, vol) =>
         (vol, duck_value target (PyDict.get_default Z.eqb key 1%Q saved) t))
      to_duck.

(** The writes of restore's last loop: one per saved key that [vol_map] knows. *)
Definition forced_writes (vol_map : zdict handle) (items : list (Z * Q))
  : list (handle * Q) :=
  flat_map (fun '(key, orig) =>
              match PyDict.get Z.eqb key vol_map with
              | Some voliface => [(voliface, orig)]
              | None => []
              end)
           items.

(** Number of [mixer.music.play()] calls in a trace. *)
Definition count_plays (tr : list event) : nat :=
  List.length (filter (fun e => match e with MixerPlay => true | _ => false end) tr).

(** The mixer effects of [n] full plays in sequence, the [k]-th polled
    [polls k] times. *)
Definition sequential_plays (polls : nat -> nat) (n : nat) : list event :=
  flat_map (fun k => MixerPlay :: repeat Sleep80 (polls k)) (seq 0 n).

(** The dialog of a rejected [play_media_async]. *)
Definition busy_dialog : event :=
  ShowInfo "Info" "Já está tocando outro arquivo. Aguarde.".

(** The dialog of a manual play whose file is missing. *)
Definition not_found_dialog : event :=
  ShowError "Erro" "Arquivo não encontrado.".

(** ** The requests of a tick, as the design states them *)

(** One request: the item's path with the item's own repeats, 1 when the
    item has none. *)
Definition media_request (m : media) : option string * Z :=
  (m_path m, media_repeats m).

(** An item is requested once for every entry of its times equal to now. *)
Definition item_requests (now : string) (m : media) : list (option string * Z) :=
  map (fun _ => media_request m)
      (filter (fun t => String.eqb t now)
              (match m_times m with Some ts => ts | None => [] end)).

(** An inactive playlist requests nothing; an active one requests every
    item when its own time is now, and then every item whose times hold now. *)
Definition playlist_requests (now : string) (pl : playlist) : list (option string * Z) :=
  let files := match pl_files pl with Some fs => fs | None => [] end in
  if playlist_active pl
  then (if playlist_due now pl then map media_request files else [])
       ++ flat_map (item_requests now) files
  else [].

Definition tick_requests (now : string) (pls : sdict playlist) : list (option string * Z) :=
  flat_map (fun '(_, pl) => playlist_requests now pl) pls.

(** Number of info dialogs in a trace; the core shows none but the busy one. *)
Definition count_info (tr : list event) : nat :=
  List.length (filter (fun e => match e with ShowInfo _ _ => true | _ => false end) tr).


(** Every timer of [q] is due after [t]. *)
Definition due_after (t : Z) (q : list (Z * timer)) : Prop :=
  forall due f, In (due, f) q -> t < due.







(** ** Duck activity without restore *)





(** ** Reading a block *)

(** [d[i, j]], when in range *)
Definition sample (d : ndarray) (i j : nat) : option Q :=
  match nth_error (rows d) i with
  | Some r => nth_error r j
  | None => None
  end.

(** A mono block [(len xs, 1)] holding the samples [xs]. *)
Definition mono_block (xs : list Q) : ndarray :=
  mkArray 1 (map (fun x => [x]) xs).

(** ** Concrete configurations for the examples *)

(** A freshly started application: pycaw present, nothing playing, no
    duck episode, gain 1. *)
Definition app_idle : App :=
  mkApp true [] None false false None [] false 1%Q 0 [] [] [].

(** The same application while a worker is playing. *)
Definition app_playing : App := set_is_playing true app_idle.

(** A mixer that loads every file and plays each repetition for two polls. *)
Definition mixer_ok : Mixer := mkMixer (fun _ => true) (fun _ => Completes 2).


(** A host with one foreign session (pid 7, full volume), the program's own
    session (pid 999) and a session without a process (volume 1/2); no
    media file exists. *)
Definition host_demo : Host :=
  mkHost (Some [mkSession (Some 7) 100 (Some 1);
                mkSession (Some 999) 101 (Some 2);
                mkSession None 102 (Some 3)])
         (fun x => if x =? 1 then Some 1%Q
                   else if x =? 2 then Some 1%Q
                   else if x =? 3 then Some (1 # 2)
                   else None)
         999 "09:00" (fun _ => false).


(** A playlist due at 09:00 whose only file does not exist on [host_demo]. *)
Definition app_missing_file : App :=
  set_playlists
    [("FM"%string,
      mkPlaylist (Some [mkMedia (Some "missing.mp3"%string) (Some []) (Some 1)])
                 (Some "09:00"%string) (Some 1) (Some true))]
    app_idle.

(** The operator selects row 0 and accepts the repeats dialog unchanged. *)
Definition ui_row0 : UI := mkUI (Some 0%nat) None (fun _ => None).

(** [app_missing_file] with its playlist selected in the window. *)
Definition app_missing_selected : App :=
  mkApp true (playlists app_missing_file) (Some "FM"%string) false false None
        [] false 1%Q 0 [] [] [].


(** Two playlists: one due at 09:00 with two items, one inactive; the
    second item of the first also carries the time 09:00 itself. *)
Definition app_two_playlists : App :=
  set_playlists
    [("FM"%string,
      mkPlaylist (Some [mkMedia (Some "a.mp3"%string) (Some []) (Some 2);
                        mkMedia (Some "b.mp3"%string)
                                (Some ["14:30"%string; "09:00"%string]) (Some 5)])
                 (Some "09:00"%string) (Some 1) (Some true));
     ("Off"%string,
      mkPlaylist (Some [mkMedia (Some "c.mp3"%string) (Some ["09:00"%string]) (Some 1)])
                 (Some "09:00"%string) (Some 1) (Some false))]
    app_idle.

(** [app_idle] after [duck_all_sessions(0.06, {999}, 6, 120)] on
    [host_demo]: sessions 7 and 102 are tracked, stage 1 is queued. *)
Definition app_ducking : App :=
  snd (duck_all_sessions 0.06 (Some [999]) 6 120 host_demo app_idle).



(** A mono input block of three frames and a stereo output buffer holding
    stale samples. *)
Definition block_in : ndarray := mono_block [1 # 2; - (1 # 4); 0]%Q.
Definition block_out : ndarray :=
  mkArray 2 [[9 # 10; 9 # 10]; [9 # 10; 9 # 10]; [9 # 10; 9 # 10]]%Q.

(** An output buffer with a single channel: the second column write raises. *)
Definition block_out_mono : ndarray := mkArray 1 [[9 # 10]; [9 # 10]; [9 # 10]]%Q.

(** A host on which one process (pid 7) owns two sessions, at volumes 1
    and 4/5. *)
Definition host_twins : Host :=
  mkHost (Some [mkSession (Some 7) 100 (Some 1); mkSession (Some 7) 103 (Some 4)])
         (fun x => if x =? 1 then Some 1%Q
                   else if x =? 4 then Some (4 # 5)
                   else None)
         999 "09:00" (fun _ => false).

(** A host on which every session has a pid: two foreign ones (pid 7 at
    volume 1, pid 8 at volume 1/2) and the program's own. *)
Definition host_office : Host :=
  mkHost (Some [mkSession (Some 7) 100 (Some 1);
                mkSession (Some 999) 101 (Some 2);
                mkSession (Some 8) 102 (Some 3)])
         (fun x => if x =? 1 then Some 1%Q
                   else if x =? 2 then Some 1%Q
                   else if x =? 3 then Some (1 # 2)
                   else None)
         999 "09:00" (fun _ => false).

(** The idle application as the running program has it: the scheduler's
    next tick is queued, one minute ahead. *)
Definition app_armed : App := after 60000 ScheduleTick app_idle.

(** [app_armed] after a duck call on [host_office] and the six stages of its
    ramp, with the host they leave behind. *)
Definition host_office_ducked : Host :=
  fst (run_turns 6 host_office
         (snd (duck_all_sessions 0.06 (Some [999]) 6 120 host_office app_armed))).
Definition app_office_ducked : App :=
  snd (run_turns 6 host_office
         (snd (duck_all_sessions 0.06 (Some [999]) 6 120 host_office app_armed))).

(* ================================================================== *)
(** * Part I, continued. The rest of the ducking and playlist code      *)
(* ================================================================== *)

From Stdlib Require DecimalString DecimalNat Finite.

(** ** Notions for the ducking properties *)

(** [try: orig = vol.GetMasterVolume() / except Exception: orig = 1.0] *)
Definition read_volume (h : Host) (vol : handle) : Q :=
  match GetMasterVolume h vol with Some v => v | None => 1%Q end.

(** The sessions the capture loop does not skip, as (key, interface). *)
Definition duckable_pairs (h : Host) (exclude_pids : list Z) (sessions : list session)
  : list (Z * handle) :=
  flat_map (fun s => match s_vol s with
                     | Some vol => if excluded h exclude_pids s then []
                                   else [(session_key s, vol)]
                     | None => []
                     end)
           sessions.

(** The interfaces of the sessions that carry one, as (key, interface). *)
Definition volume_pairs (sessions : list session) : list (Z * handle) :=
  flat_map (fun s => match s_vol s with
                     | Some vol => [(session_key s, vol)]
                     | None => []
                     end)
           sessions.

(** [h'] differs from [h] at most in the volumes of the interfaces [H]:
    the same interfaces are alive, the same sessions are enumerated. *)
Definition agrees_off (H : list handle) (h h' : Host) : Prop :=
  (forall x, ~ In x H -> MasterVolume h' x = MasterVolume h x)
  /\ (forall x, MasterVolume h' x = None <-> MasterVolume h x = None)
  /\ GetAllSessions h' = GetAllSessions h
  /\ getpid h' = getpid h.

(** The value one stage of the restore ramp writes for a session that
    stands at [cur] and whose baseline is [orig]. *)
Definition restore_value (cur orig t : Q) : Q :=
  clamp01 (cur + (orig - cur) * t)%Q.

(** [host_demo] with both foreign sessions turned down to 1/4. *)
Definition host_quiet : Host :=
  mkHost (GetAllSessions host_demo)
         (fun x => if x =? 1 then Some (1 # 4)
                   else if x =? 2 then Some 1%Q
                   else if x =? 3 then Some (1 # 4)
                   else None)
         999 "09:00" (fun _ => false).

(** ** Notions for the playback and scheduler properties *)

(** [a'] is [a] after [n] requests were answered by the busy dialog: the
    same workers, playback flag and playlists. *)
Definition rejected (n : nat) (a a' : App) : Prop :=
  threads a' = threads a
  /\ _is_playing a' = _is_playing a
  /\ playlists a' = playlists a
  /\ count_info (trace a') = (count_info (trace a) + n)%nat.

(** The mixer effects of a repetition that raises. *)
Definition failure_events (o : play_outcome) : list event :=
  match o with
  | Completes _ => []
  | PlayRaises => []
  | BusyRaises polls => MixerPlay :: repeat Sleep80 polls
  | StaysBusy => []
  end.



(** A mixer whose third repetition fails while it is being polled. *)
Definition mixer_breaks_at_2 : Mixer :=
  mkMixer (fun _ => true)
          (fun k => if (k <? 2)%nat then Completes 2 else BusyRaises 1).

(** While a worker is playing [app_two_playlists]. *)
Definition app_two_playlists_playing : App := set_is_playing true app_two_playlists.


(** ** The rest of the window: microphone stream and edit lock *)

(** Calls on the sound device and the configuration file, and the clock
    label being set. *)
Inductive shell_event :=
| SaveConfig
| StreamStart (device : option (option Z * option Z))
| StreamStop
| StreamClose
| ClockLabel.

(** The module flag [SOUND_OK] and the fields of [TimelyAdsApp] that the
    microphone and the edit lock use; [_mic_stream] tells whether a stream
    object is held. *)
Record Shell := mkShell {
  SOUND_OK : bool;
  _mic_active : bool;
  _mic_stream : bool;
  _mic_input_device : option Z;
  _mic_output_device : option Z;
  _global_locked : bool;
  effects : list shell_event
}.



Definition set_global_locked (b : bool) (s : Shell) : Shell :=
  mkShell (SOUND_OK s) (_mic_active s) (_mic_stream s) (_mic_input_device s)
          (_mic_output_device s) b (effects s).

Definition shell_emit (evs : list shell_event) (s : Shell) : Shell :=
  mkShell (SOUND_OK s) (_mic_active s) (_mic_stream s) (_mic_input_device s)
          (_mic_output_device s) (_global_locked s) (effects s ++ evs).





(** The window before the microphone was ever switched on, edit lock set. *)
Definition shell_idle : Shell := mkShell true false false None None true [].


(** ** Playlist editing *)

Definition set_current_playlist (c : option string) (a : App) : App :=
  mkApp (PYCAW_OK a) (playlists a) c (_is_playing a) (_playback_lock a)
        (_playback_thread a) (_saved_sessions a) (_duck_active a) (_mic_gain a)
        (now_ms a) (after_queue a) (threads a) (trace a).

(** [d.pop(k, None)] on the dictionary that is left *)
Fixpoint dict_pop {V : Type} (k : string) (d : sdict V) : sdict V :=
  match d with
  | [] => []
  | (k', v) :: r => if String.eqb k k' then r else (k', v) :: dict_pop k r
  end.

(** [l.pop(idx)] on the list that is left, for an index in range *)
Fixpoint list_remove {A : Type} (idx : nat) (l : list A) : list A :=
  match l, idx with
  | [], _ => []
  | _ :: r, O => r
  | y :: r, S i => y :: list_remove i r
  end.

(** [_refresh_playlist_list]: of its effects on the window only the choice
    of [current_playlist] is kept. *)
Definition _refresh_playlist_list (a : App) : App :=
  match playlists a with
  | [] => set_current_playlist None a
  | (first, _) :: _ =>
      let known := match current_playlist a with
                   | Some c => PyDict.mem String.eqb c (playlists a)
                   | None => false
                   end in
      if known then a else set_current_playlist (Some first) a
  end.

(** [_refresh_media_table] changes the window only; false when the lookup
    [self.playlists[self.current_playlist]["files"]] raises. *)
Definition _refresh_media_table (a : App) : bool :=
  match current_playlist a with
  | None => true
  | Some c =>
      if String.eqb c "" then true
      else match PyDict.get String.eqb c (playlists a) with
           | Some pl => match pl_files pl with Some _ => true | None => false end
           | None => false
           end
  end.

(** [_on_select_playlist]: [sel] is the row selected in the list, if any. *)
Definition _on_select_playlist (sel : option nat) (a : App) : App :=
  match sel with
  | None => a
  | Some i =>
      match nth_error (map fst (playlists a)) i with
      | Some name => set_current_playlist (Some name) a
      | None => a
      end
  end.

(** The playlist [_create_playlist] stores. *)
Definition new_playlist : playlist :=
  mkPlaylist (Some []) (Some "00:00"%string) (Some 1) (Some true).

(** [_create_playlist]: [name] is the answer to the dialog. *)
Definition _create_playlist (name : option string) (a : App) : App :=
  match name with
  | None => a
  | Some name =>
      if String.eqb name "" then a
      else if PyDict.mem String.eqb name (playlists a)
      then emit [ShowWarning "Aviso" "Playlist já existe."] a
      else
        let a := set_playlists (PyDict.set String.eqb name new_playlist (playlists a)) a in
        let a := set_current_playlist (Some name) a in
        let a := _refresh_playlist_list a in
        if _refresh_media_table a then emit [SavePlaylists] a else a
  end.

(** The entry [_add_media] appends for a chosen file. *)
Definition new_media (p : string) : media := mkMedia (Some p) (Some []) (Some 1).

(** [_add_media]: [files] is the answer of the file dialog. *)
Definition _add_media (files : list string) (a : App) : App :=
  match current_playlist a with
  | None => emit [ShowWarning "Aviso" "Selecione uma playlist primeiro."] a
  | Some c =>
      if String.eqb c ""
      then emit [ShowWarning "Aviso" "Selecione uma playlist primeiro."] a
      else
        match files with
        | [] => a
        | _ :: _ =>
            match PyDict.get String.eqb c (playlists a) with
            | None => a
            | Some pl =>
                match pl_files pl with
                | None => a
                | Some fs =>
                    let pl' := mkPlaylist (Some (fs ++ map new_media files)) (pl_time pl)
                                          (pl_repeats pl) (pl_active pl) in
                    emit [SavePlaylists]
                         (set_playlists (PyDict.set String.eqb c pl' (playlists a)) a)
                end
            end
        end
  end.

(** [_toggle_current_playlist] *)
Definition _toggle_current_playlist (a : App) : App :=
  match current_playlist a with
  | None => emit [ShowWarning "Aviso" "Nenhuma playlist selecionada."] a
  | Some c =>
      if String.eqb c ""
      then emit [ShowWarning "Aviso" "Nenhuma playlist selecionada."] a
      else
        match PyDict.get String.eqb c (playlists a) with
        | None => a
        | Some pl =>
            let pl' := mkPlaylist (pl_files pl) (pl_time pl) (pl_repeats pl)
                                  (Some (negb (playlist_active pl))) in
            let a := set_playlists (PyDict.set String.eqb c pl' (playlists a)) a in
            emit [SavePlaylists] (_refresh_playlist_list a)
        end
  end.

(** [_rename_playlist]: [new] is the answer to the dialog.
    [self.playlists[new] = self.playlists.pop(self.current_playlist)] *)
Definition _rename_playlist (new : option string) (a : App) : App :=
  match current_playlist a with
  | None => emit [ShowWarning "Aviso" "Selecione uma playlist primeiro."] a
  | Some c =>
      if String.eqb c ""
      then emit [ShowWarning "Aviso" "Selecione uma playlist primeiro."] a
      else
        match new with
        | None => a
        | Some new =>
            if String.eqb new "" || String.eqb new c then a
            else
              match PyDict.get String.eqb c (playlists a) with
              | None => a
              | Some pl =>
                  let a := set_playlists
                             (PyDict.set String.eqb new pl (dict_pop c (playlists a))) a in
                  let a := set_current_playlist (Some new) a in
                  emit [SavePlaylists] (_refresh_playlist_list a)
              end
        end
  end.

(** [_delete_playlist]: [yes] is the answer to the confirmation. *)
Definition _delete_playlist (yes : bool) (a : App) : App :=
  match current_playlist a with
  | None => emit [ShowWarning "Aviso" "Selecione uma playlist primeiro."] a
  | Some c =>
      if String.eqb c ""
      then emit [ShowWarning "Aviso" "Selecione uma playlist primeiro."] a
      else if negb yes then a
      else
        let a := set_playlists (dict_pop c (playlists a)) a in
        let a := set_current_playlist None a in
        let a := _refresh_playlist_list a in
        if _refresh_media_table a then emit [SavePlaylists] a else a
  end.

(** ** The edit lock *)

Definition SCHEDULE_PIN : string := "4510".

(** The prompt the guarded actions start with: nothing is asked when the
    lock is open; a wrong or cancelled PIN shows the error and refuses; the
    right PIN opens the lock and saves the configuration. *)
Definition ask_pin (pin : option string) (title msg : string) (w : App * Shell)
  : bool * (App * Shell) :=
  let '(a, s) := w in
  if _global_locked s
  then
    let right := match pin with
                 | Some p => String.eqb p SCHEDULE_PIN
                 | None => false
                 end in
    if right then (true, (a, shell_emit [SaveConfig] (set_global_locked false s)))
    else (false, (emit [ShowError title msg] a, s))
  else (true, (a, s)).

(** [_toggle_global_lock] *)
Definition _toggle_global_lock (pin : option string) (w : App * Shell) : App * Shell :=
  let '(a, s) := w in
  if _global_locked s
  then
    let right := match pin with
                 | Some p => String.eqb p SCHEDULE_PIN
                 | None => false
                 end in
    if right
    then (emit [ShowInfo "Liberado" "Edição liberada para todos os anúncios."] a,
          shell_emit [SaveConfig] (set_global_locked false s))
    else (emit [ShowError "Senha incorreta" "PIN inválido."] a, s)
  else (emit [ShowInfo "Bloqueado" "Edição bloqueada novamente."] a,
        shell_emit [SaveConfig] (set_global_locked true s)).

(** [int(simpledialog.askstring(...) or "1")]; [None] when [int] raises *)
Definition asked_int (ui : UI) : option Z :=
  match askstring ui with
  | None => Some 1
  | Some s => if String.eqb s "" then Some 1 else py_int ui s
  end.

(** [media[...] = ...] on the entry [idx] of the current playlist, the
    playlist being stored back under its name. *)
Definition store_media (name : string) (pl : playlist) (files : list media)
           (idx : nat) (m' : media) (a : App) : App :=
  let pl' := mkPlaylist (Some (list_set idx m' files)) (pl_time pl)
                        (pl_repeats pl) (pl_active pl) in
  set_playlists (PyDict.set String.eqb name pl' (playlists a)) a.

(** [_ctx_set_repeat]: [pin] answers the PIN prompt, [ui] the rest. *)
Definition _ctx_set_repeat (pin : option string) (ui : UI) (w : App * Shell)
  : App * Shell :=
  match ask_pin pin "Senha" "PIN incorreto." w with
  | (false, w) => w
  | (true, (a, s)) =>
      match selected_index ui with
      | None => (a, s)
      | Some idx =>
          match selected_media idx a with
          | None => (a, s)
          | Some (name, pl, files, m) =>
              match asked_int ui with
              | None => (a, s)
              | Some new_r =>
                  let m' := mkMedia (m_path m) (m_times m)
                                    (Some (clamp_int 1 100 new_r)) in
                  (emit [SavePlaylists] (store_media name pl files idx m' a), s)
              end
          end
      end
  end.

(** [_ctx_remove_item]: [yes] is the answer to the confirmation. *)
Definition _ctx_remove_item (pin : option string) (ui : UI) (yes : bool)
           (w : App * Shell) : App * Shell :=
  match ask_pin pin "Senha" "PIN incorreto." w with
  | (false, w) => w
  | (true, (a, s)) =>
      match selected_index ui with
      | None => (a, s)
      | Some idx =>
          if negb yes then (a, s)
          else
            match selected_media idx a with
            | None => (a, s)
            | Some (name, pl, files, _) =>
                let pl' := mkPlaylist (Some (list_remove idx files)) (pl_time pl)
                                      (pl_repeats pl) (pl_active pl) in
                (emit [SavePlaylists]
                      (set_playlists (PyDict.set String.eqb name pl' (playlists a)) a), s)
            end
      end
  end.

(** ** Import *)

(** What [_import_playlist] reads of a loaded [playlist_config.json]:
    [data["metadata"]["playlist_name"]] and the keys of [data["playlist"]];
    every key optional. *)
Record export_file := mkExport {
  x_playlist_name : option string;
  x_files : option (list media);
  x_time : option string;
  x_repeats : option Z
}.

(** The disk as the import sees it, beside [os.path.exists] of the host. *)
Record Disk := mkDisk {
  path_join : string -> string -> string;    (* os.path.join *)
  json_load : string -> option export_file;  (* None: open or json.load raises *)
  timestamp : string                         (* strftime('%Y%m%d_%H%M%S') *)
}.

(** [str(i)] for a counter [i] *)
Definition py_str (i : nat) : string :=
  DecimalString.NilEmpty.string_of_uint (Nat.to_uint i).

(** [f"{base}_{i}"] *)
Definition numbered (base : string) (i : nat) : string :=
  (base ++ "_" ++ py_str i)%string.

(** [while name in self.playlists: name = f"{base}_{i}"; i += 1], each unit
    of [fuel] paying for one test of the loop condition. *)
Fixpoint import_name (fuel : nat) (base : string) (i : nat) (name : string)
         (d : sdict playlist) : option string :=
  match fuel with
  | O => None
  | S fuel' =>
      if PyDict.mem String.eqb name d
      then import_name fuel' base (S i) (numbered base i) d
      else Some name
  end.

(** The loop over the entries of the file: [None] when an entry has no
    ["path"] and [os.path.join] raises. *)
Fixpoint import_entries (dk : Disk) (h : Host) (folder : string) (entries : list media)
  : option (list media) :=
  match entries with
  | [] => Some []
  | entry :: rest =>
      match m_path entry with
      | None => None
      | Some fname =>
          let path := path_join dk folder fname in
          match import_entries dk h folder rest with
          | None => None
          | Some imported =>
              Some (if path_exists h path
                    then mkMedia (Some path)
                                 (Some (match m_times entry with Some ts => ts | None => [] end))
                                 (Some (media_repeats entry)) :: imported
                    else imported)
          end
      end
  end.

(** [_import_playlist]: [folder] is the answer of the directory dialog. *)
Definition _import_playlist (dk : Disk) (h : Host) (folder : option string) (a : App)
  : App :=
  match folder with
  | None => a
  | Some folder =>
      if String.eqb folder "" then a
      else
        let cfg_path := path_join dk folder "playlist_config.json" in
        if negb (path_exists h cfg_path)
        then emit [ShowError "Importar" "playlist_config.json não encontrado."] a
        else
          match json_load dk cfg_path with
          | None => emit [ShowError "Importar" "Erro lendo arquivo:"] a
          | Some data =>
              let base := match x_playlist_name data with
                          | Some n => n
                          | None => ("import_" ++ timestamp dk)%string
                          end in
              match import_name (S (S (List.length (playlists a)))) base 1 base
                                (playlists a) with
              | None => a
              | Some name =>
                  match import_entries dk h folder
                          (match x_files data with Some fs => fs | None => [] end) with
                  | None => a
                  | Some [] =>
                      emit [ShowWarning "Importar"
                                        "Nenhum arquivo válido encontrado para importar."] a
                  | Some (m :: imported) =>
                      let pl := mkPlaylist (Some (m :: imported))
                                  (Some (match x_time data with
                                         | Some t => t
                                         | None => "00:00"%string
                                         end))
                                  (Some (match x_repeats data with Some r => r | None => 1 end))
                                  (Some true) in
                      let a := set_playlists (PyDict.set String.eqb name pl (playlists a)) a in
                      let a := set_current_playlist (Some name) a in
                      let a := _refresh_playlist_list a in
                      if _refresh_media_table a then emit [SavePlaylists] a else a
                  end
              end
          end
  end.

(** ** Start-up *)

(** An item and a playlist as the playlists file stores them; older files
    carry a single ["time"] per item instead of ["times"]. *)
Record stored_media := mkStored {
  sm_path : option string;
  sm_time : option string;
  sm_times : option (list string);
  sm_repeats : option Z
}.

(** An entry of a stored ["files"] list: a dict or, as the [isinstance]
    tests of [_after_ui_setup] and [_refresh_media_table] allow for, a plain
    path string. *)
Inductive stored_item :=
| StoredDict (m : stored_media)
| StoredPath (path : string).

Record stored_playlist := mkStoredPlaylist {
  sp_files : option (list stored_item);
  sp_time : option string;
  sp_repeats : option Z;
  sp_active : option bool
}.

(** The migration of one dict item in [_after_ui_setup].  A ["time"] that
    stays beside an existing ["times"] is read by nothing afterwards. *)
Definition migrate_media (m : stored_media) : media :=
  mkMedia (sm_path m)
          (Some (match sm_times m with
                 | Some ts => ts
                 | None => match sm_time m with Some t => [t] | None => [] end
                 end))
          (Some (match sm_repeats m with Some r => r | None => 1 end)).

Definition holds_plain_path (p : stored_playlist) : bool :=
  existsb (fun it => match it with StoredPath _ => true | StoredDict _ => false end)
          (match sp_files p with Some fs => fs | None => [] end).

(** The dict items of a files list, migrated.  The migration leaves a plain
    path where it is; [media] has no such item, so this is the whole list
    only when the list holds no plain path. *)
Definition migrate_files (fs : list stored_item) : list media :=
  flat_map (fun it => match it with
                      | StoredDict m => [migrate_media m]
                      | StoredPath _ => []
                      end) fs.

Definition migrate_playlist (p : stored_playlist) : playlist :=
  mkPlaylist (option_map migrate_files (sp_files p)) (sp_time p) (sp_repeats p)
             (sp_active p).

(** The playlists created when the file holds none. *)
Definition demo_playlists : sdict playlist :=
  [("FM"%string, new_playlist); ("Dia a Dia"%string, new_playlist)].

(** How [_after_ui_setup] ends. *)
Inductive startup :=
| Started (w : App * Shell)
| StartupRaises           (* an exception leaves the constructor *)
| PlainPathKept.          (* it returns, with a plain path among the items of a
                             playlist: a state that [App] does not describe *)

(** [_after_ui_setup]: [loaded] is what [_load_playlists] reads.  The table
    refresh raises when the selected playlist has no ["files"]; the first
    tick raises at an active playlist that is due and has no ["files"], and
    at the first plain path of an active playlist, on which [m.get] is an
    [AttributeError]; the tick does not look at the items of an inactive
    playlist.  The clock's own timer only sets a label and re-arms itself;
    it is recorded as an effect and not queued. *)
Definition _after_ui_setup (loaded : sdict stored_playlist) (h : Host) (w : App * Shell)
  : startup :=
  let '(a, s) := w in
  let pls := map (fun '(name, p) => (name, migrate_playlist p)) loaded in
  let pls := match pls with [] => demo_playlists | _ :: _ => pls end in
  let a := _refresh_playlist_list (set_playlists pls a) in
  if negb (_refresh_media_table a) then StartupRaises
  else if existsb (fun '(_, p) => playlist_active (migrate_playlist p) && holds_plain_path p)
                  loaded
  then StartupRaises
  else if negb (snd (tick_loop h (strftime_HM h) (playlists a) a)) then StartupRaises
  else if existsb (fun '(_, p) => holds_plain_path p) loaded then PlainPathKept
  else Started (_schedule_tick h a, shell_emit [ClockLabel] s).

(** ** Schedule editor *)





(** ** Window actions *)

(** The actions of the window that touch the playlists or the selection. *)
Inductive action :=
| CreatePlaylist (name : option string)
| AddMedia (files : list string)
| TogglePlaylist
| RenamePlaylist (new : option string)
| DeletePlaylist (yes : bool)
| SelectPlaylist (sel : option nat)
| ImportPlaylist (dk : Disk) (h : Host) (folder : option string)
| PlaySelected (ui : UI) (h : Host)
| SetRepeat (pin : option string) (ui : UI)
| RemoveItem (pin : option string) (ui : UI) (yes : bool)
| ToggleLock (pin : option string)
| Tick (h : Host).

Definition run_action (act : action) (w : App * Shell) : App * Shell :=
  match act with
  | CreatePlaylist name => (_create_playlist name (fst w), snd w)
  | AddMedia files => (_add_media files (fst w), snd w)
  | TogglePlaylist => (_toggle_current_playlist (fst w), snd w)
  | RenamePlaylist new => (_rename_playlist new (fst w), snd w)
  | DeletePlaylist yes => (_delete_playlist yes (fst w), snd w)
  | SelectPlaylist sel => (_on_select_playlist sel (fst w), snd w)
  | ImportPlaylist dk h folder => (_import_playlist dk h folder (fst w), snd w)
  | PlaySelected ui h => (_play_selected_media ui h (fst w), snd w)
  | SetRepeat pin ui => _ctx_set_repeat pin ui w
  | RemoveItem pin ui yes => _ctx_remove_item pin ui yes w
  | ToggleLock pin => _toggle_global_lock pin w
  | Tick h => (_schedule_tick h (fst w), snd w)
  end.

Definition run_actions (acts : list action) (w : App * Shell) : App * Shell :=
  fold_left (fun w act => run_action act w) acts w.

(** The selection is consistent with the playlists: no playlist and no
    selection, or the selected name is a playlist. *)
Definition current_ok (a : App) : Prop :=
  match playlists a with
  | [] => current_playlist a = None
  | _ :: _ => exists c, current_playlist a = Some c
                        /\ PyDict.mem String.eqb c (playlists a) = true
  end.

(** Playlist names are distinct and the selection is consistent. *)
Definition well_formed (a : App) : Prop :=
  NoDup (map fst (playlists a)) /\ current_ok a.

(** [a'] has the playlist names and the selection of [a]. *)
Definition same_selection (a a' : App) : Prop :=
  map fst (playlists a') = map fst (playlists a)
  /\ current_playlist a' = current_playlist a.

(** ** Further configurations *)

(** [app_two_playlists] with its first playlist selected. *)
Definition app_fm_selected : App := set_current_playlist (Some "FM"%string) app_two_playlists.

(** The operator selects row 0 and types 250 in the repeats dialog. *)
Definition ui_types_250 : UI :=
  mkUI (Some 0%nat) (Some "250"%string)
       (fun s => if String.eqb s "250" then Some 250 else None).

(** An export of a playlist called FM with two files, of which only the
    first is on the disk. *)
Definition disk_demo : Disk :=
  mkDisk (fun a b => (a ++ "/" ++ b)%string)
         (fun _ => Some (mkExport (Some "FM"%string)
                                  (Some [mkMedia (Some "a.mp3"%string) (Some ["10:00"%string]) (Some 2);
                                         mkMedia (Some "gone.mp3"%string) None None])
                                  (Some "07:30"%string) None))
         "20240101_120000".

Definition host_with_export : Host :=
  mkHost (GetAllSessions host_demo) (MasterVolume host_demo) 999 "09:00"
         (fun p => String.eqb p "in/playlist_config.json" || String.eqb p "in/a.mp3").


(* ================================================================== *)
(** * Part II. Properties                                               *)
(* ================================================================== *)

(** ** Projections of the state updates *)

Ltac app_simpl :=
  cbn [PYCAW_OK playlists current_playlist _is_playing _playback_lock
       _playback_thread _saved_sessions _duck_active _mic_gain now_ms
       after_queue threads trace
       set_playlists set_is_playing set_playback_lock start_thread
       set_saved_sessions set_duck_active set_mic_gain set_timers emit after] in *.

(** ** Single-flight playback *)

(** C2. While the is-playing flag is set, [play_media_async] only shows the
    busy dialog: no worker thread is started, no timer is queued, and every
    field of the application state other than the trace is unchanged; the
    request is dropped, not kept for later. *)
Theorem play_media_async_busy :
  forall (path : option string) (repeats : Z) (a : App),
    _is_playing a = true ->
    play_media_async path repeats a = emit [busy_dialog] a
    /\ threads (play_media_async path repeats a) = threads a
    /\ _playback_thread (play_media_async path repeats a) = _playback_thread a
    /\ after_queue (play_media_async path repeats a) = after_queue a
    /\ _is_playing (play_media_async path repeats a) = true
    /\ _playback_lock (play_media_async path repeats a) = _playback_lock a
    /\ _saved_sessions (play_media_async path repeats a) = _saved_sessions a
    /\ _duck_active (play_media_async path repeats a) = _duck_active a
    /\ playlists (play_media_async path repeats a) = playlists a.
Proof.
  intros path repeats a Hbusy.
  unfold play_media_async. rewrite Hbusy.
  repeat split; try reflexivity. exact Hbusy.
Qed.

Lemma play_media_async_busy_witness :
  _is_playing app_playing = true
  /\ play_media_async (Some "ad.mp3"%string) 3 app_playing
     = emit [busy_dialog] app_playing.
Proof.
  split.
  - reflexivity.
  - apply (play_media_async_busy (Some "ad.mp3"%string) 3 app_playing). reflexivity.
Defined.

(** ** Repetitions *)

Lemma play_loop_completes :
  forall (mx : Mixer) (polls : nat -> nat),
    (forall k, outcome mx k = Completes (polls k)) ->
    forall n k,
      play_loop mx k n
      = Some (flat_map (fun j => MixerPlay :: repeat Sleep80 (polls j)) (seq k n), true).
Proof.
  intros mx polls Hall n.
  induction n as [|n IH]; intros k; cbn [play_loop seq flat_map].
  - reflexivity.
  - rewrite Hall, IH. cbn [app]. reflexivity.
Qed.



Lemma count_plays_app :
  forall tr1 tr2, count_plays (tr1 ++ tr2) = (count_plays tr1 + count_plays tr2)%nat.
Proof.
  intros tr1 tr2. unfold count_plays.
  rewrite filter_app, length_app. reflexivity.
Qed.

Lemma count_plays_sleeps : forall p, count_plays (repeat Sleep80 p) = 0%nat.
Proof.
  induction p as [|p IH]; [reflexivity|]. exact IH.
Qed.

Lemma count_plays_sequential :
  forall polls n k,
    count_plays (flat_map (fun j => MixerPlay :: repeat Sleep80 (polls j)) (seq k n)) = n.
Proof.
  intros polls n. induction n as [|n IH]; intros k; cbn [seq flat_map].
  - reflexivity.
  - rewrite count_plays_app, IH.
    change (MixerPlay :: repeat Sleep80 (polls k))
      with ([MixerPlay] ++ repeat Sleep80 (polls k)).
    rewrite count_plays_app, count_plays_sleeps. reflexivity.
Qed.

(** [duck_all_sessions] touches the duck state, the timers and the trace only. *)
Lemma duck_all_sessions_frame :
  forall target exclude_pids steps step_ms h a,
    let a' := snd (duck_all_sessions target exclude_pids steps step_ms h a) in
    threads a' = threads a
    /\ _is_playing a' = _is_playing a
    /\ playlists a' = playlists a
    /\ _playback_thread a' = _playback_thread a
    /\ _playback_lock a' = _playback_lock a
    /\ PYCAW_OK a' = PYCAW_OK a
    /\ now_ms a' = now_ms a.
Proof.
  intros target exclude_pids steps step_ms h a. unfold duck_all_sessions.
  destruct (negb (PYCAW_OK a)); [cbn; repeat split; reflexivity|].
  destruct (capture _ _ _ _ _) as [saved to_duck].
  destruct (negb (_duck_active a)), to_duck; cbn; repeat split; reflexivity.
Qed.

(** C5 (amended). On an idle application [play_media_async(path, r)] starts
    one worker for [(path, r)], and when the file loads and every play runs
    to its end that worker performs exactly [max(r, 0)] plays, one after the
    other, each polled until the mixer is idle; [r] is not clamped on this
    path, so the count is [clamp(r, 1, 100)] only for [r] already in
    [[1, 100]].  The one clamp before a play is the manual play action's,
    to [[1, 50]]. *)
Theorem play_media_async_plays_repeats_times :
  forall (mx : Mixer) (polls : nat -> nat) (path : option string) (r : Z) (a : App),
    _is_playing a = false ->
    _playback_lock a = false ->
    load_ok mx path = true ->
    (forall k, outcome mx k = Completes (polls k)) ->
    threads (play_media_async path r a) = threads a ++ [(path, r)]
    /\ (exists a',
          _playback_worker mx path r (play_media_async path r a) = Some a'
          /\ trace a' = trace a ++ MixerLoad path :: sequential_plays polls (Z.to_nat r)
          /\ count_plays (MixerLoad path :: sequential_plays polls (Z.to_nat r))
             = Z.to_nat (Z.max r 0))
    /\ (Z.max r 0 = clamp_int 1 100 r <-> 1 <= r <= 100)
    /\ (forall ui h idx name pl files m p,
          selected_index ui = Some idx ->
          selected_media idx a = Some (name, pl, files, m) ->
          m_path m = Some p -> p <> ""%string -> path_exists h p = true ->
          threads (_play_selected_media ui h a)
          = threads a ++ [(Some p, clamp_int 1 50 (asked_repeats ui))]).
Proof.
  intros mx polls path r a Hidle Hlock Hload Hplays.
  split; [|split; [|split]].
  - unfold play_media_async. rewrite Hidle. reflexivity.
  - unfold play_media_async, _playback_worker, worker_body. rewrite Hidle. app_simpl.
    rewrite Hlock, Hload, (play_loop_completes mx polls Hplays).
    eexists. split; [reflexivity|]. app_simpl. split; [reflexivity|].
    change (MixerLoad path :: sequential_plays polls (Z.to_nat r))
      with ([MixerLoad path] ++ sequential_plays polls (Z.to_nat r)).
    rewrite count_plays_app. unfold sequential_plays.
    rewrite count_plays_sequential. cbn.
    destruct (Z.max_spec r 0) as [[H1 H2]|[H1 H2]]; rewrite H2.
    + destruct r; try reflexivity; lia.
    + reflexivity.
  - unfold clamp_int. lia.
  - intros ui h idx name pl files m p Hsel Hmedia Hpath Hne Hex.
    unfold _play_selected_media. rewrite Hsel, Hmedia, Hpath, Hex.
    apply String.eqb_neq in Hne. rewrite Hne. cbn [orb negb].
    match goal with
    | |- threads (play_media_async _ _ (snd (duck_all_sessions ?t ?e ?s ?ms ?h ?b))) = _ =>
        destruct (duck_all_sessions_frame t e s ms h b) as (Hth & Hpl & _)
    end.
    unfold play_media_async. cbn zeta in Hth, Hpl. rewrite Hpl. app_simpl.
    rewrite Hidle. app_simpl. rewrite Hth. app_simpl. reflexivity.
Qed.

Lemma play_media_async_plays_repeats_times_witness :
  threads (play_media_async (Some "ad.mp3"%string) 3 app_idle)
  = [(Some "ad.mp3"%string, 3)]
  /\ exists a',
      _playback_worker mixer_ok (Some "ad.mp3"%string) 3
                       (play_media_async (Some "ad.mp3"%string) 3 app_idle) = Some a'
      /\ trace a' = trace app_idle
                    ++ MixerLoad (Some "ad.mp3"%string)
                       :: sequential_plays (fun _ => 2%nat) (Z.to_nat 3)
      /\ count_plays (MixerLoad (Some "ad.mp3"%string)
                      :: sequential_plays (fun _ => 2%nat) (Z.to_nat 3))
         = Z.to_nat (Z.max 3 0).
Proof.
  destruct (play_media_async_plays_repeats_times
              mixer_ok (fun _ => 2%nat) (Some "ad.mp3"%string) 3 app_idle)
    as (Hth & Hw & _); try reflexivity.
  split; [exact Hth | exact Hw].
Defined.

(** C5, as stated, fails: a request for 150 repetitions is played 150
    times, not [clamp(150, 1, 100) = 100] times, and a request for 0
    repetitions is not played at all. *)
Lemma play_media_async_does_not_clamp :
  (exists a',
      _playback_worker mixer_ok (Some "ad.mp3"%string) 150
                       (play_media_async (Some "ad.mp3"%string) 150 app_idle) = Some a'
      /\ count_plays (trace a') = 150%nat
      /\ count_plays (trace a') <> Z.to_nat (clamp_int 1 100 150))
  /\ (exists a',
      _playback_worker mixer_ok (Some "ad.mp3"%string) 0
                       (play_media_async (Some "ad.mp3"%string) 0 app_idle) = Some a'
      /\ count_plays (trace a') = 0%nat
      /\ count_plays (trace a') <> Z.to_nat (clamp_int 1 100 0)).
Proof.
  split; eexists; (split; [vm_compute; reflexivity|]); split;
    try (vm_compute; reflexivity); vm_compute; discriminate.
Qed.

(** ** Missing files *)

(** C4 (amended). The existence check is the manual play action's: when
    the selected item has no path, an empty path, or a path that does not
    exist, [_play_selected_media] shows the not-found dialog and returns
    before ducking and before [play_media_async], so no worker is started,
    no ramp is queued and no baseline is recorded.  [play_media_async] itself
    checks nothing: on an idle application it starts a worker for any path. *)
Theorem play_selected_media_missing_file :
  forall (ui : UI) (h : Host) (a : App) idx name pl files m,
    selected_index ui = Some idx ->
    selected_media idx a = Some (name, pl, files, m) ->
    (m_path m = None
     \/ exists p, m_path m = Some p /\ (p = ""%string \/ path_exists h p = false)) ->
    _play_selected_media ui h a = emit [not_found_dialog] a
    /\ threads (_play_selected_media ui h a) = threads a
    /\ after_queue (_play_selected_media ui h a) = after_queue a
    /\ _saved_sessions (_play_selected_media ui h a) = _saved_sessions a
    /\ _duck_active (_play_selected_media ui h a) = _duck_active a
    /\ (forall path r,
          _is_playing a = false ->
          threads (play_media_async path r a) = threads a ++ [(path, r)]).
Proof.
  intros ui h a idx name pl files m Hsel Hmedia Hmissing.
  assert (Hrun : _play_selected_media ui h a = emit [not_found_dialog] a).
  { unfold _play_selected_media. rewrite Hsel, Hmedia.
    destruct Hmissing as [Hnone | (p & Hp & [Hempty | Hgone])].
    - rewrite Hnone. reflexivity.
    - rewrite Hp, Hempty. reflexivity.
    - rewrite Hp, Hgone. cbn [negb]. rewrite orb_true_r. reflexivity. }
  rewrite Hrun. repeat split; try reflexivity.
  intros path r Hidle. unfold play_media_async. rewrite Hidle. reflexivity.
Qed.

Lemma play_selected_media_missing_file_witness :
  _play_selected_media ui_row0 host_demo app_missing_selected
  = emit [not_found_dialog] app_missing_selected
  /\ threads (_play_selected_media ui_row0 host_demo app_missing_selected) = [].
Proof.
  destruct (play_selected_media_missing_file
              ui_row0 host_demo app_missing_selected 0%nat "FM"%string
              (mkPlaylist (Some [mkMedia (Some "missing.mp3"%string) (Some []) (Some 1)])
                          (Some "09:00"%string) (Some 1) (Some true))
              [mkMedia (Some "missing.mp3"%string) (Some []) (Some 1)]
              (mkMedia (Some "missing.mp3"%string) (Some []) (Some 1)))
    as (Hrun & Hth & _).
  - reflexivity.
  - reflexivity.
  - right. exists "missing.mp3"%string. split; [reflexivity|]. right. reflexivity.
  - split; [exact Hrun | exact Hth].
Defined.

(** C4, as stated, fails: at 09:00 the scheduler plays a playlist whose
    file is missing; the tick ducks the other sessions and starts a worker
    for the missing file, and reports nothing. *)
Lemma scheduled_missing_file_starts_worker :
  path_exists host_demo "missing.mp3"%string = false
  /\ threads (_schedule_tick host_demo app_missing_file)
     = [(Some "missing.mp3"%string, 1)]
  /\ after_queue (_schedule_tick host_demo app_missing_file)
     = [(0, DuckStep 1 0.06 6 120 [(7, 1); (102, 3)]); (60000, ScheduleTick)]
  /\ trace (_schedule_tick host_demo app_missing_file) = [].
Proof.
  repeat split; vm_compute; reflexivity.
Qed.

(** ** Scheduler tick *)

Lemma count_info_app :
  forall tr1 tr2, count_info (tr1 ++ tr2) = (count_info tr1 + count_info tr2)%nat.
Proof.
  intros tr1 tr2. unfold count_info. rewrite filter_app, length_app. reflexivity.
Qed.













Lemma dict_get_in :
  forall (d : sdict playlist) name pl,
    NoDup (map fst d) -> In (name, pl) d -> PyDict.get String.eqb name d = Some pl.
Proof.
  induction d as [|[k v] d IH]; intros name pl Hnd Hin; [contradiction|].
  cbn [PyDict.get]. inversion Hnd as [|? ? Hnotin Hnd']; subst.
  destruct Hin as [Heq | Hin].
  - inversion Heq; subst. rewrite String.eqb_refl. reflexivity.
  - destruct (String.eqb name k) eqn:Hk.
    + apply String.eqb_eq in Hk. subst k. exfalso. apply Hnotin.
      apply (in_map fst) in Hin. exact Hin.
    + apply IH; assumption.
Qed.





(** ** Volume writes *)

Lemma try_set_other :
  forall vol v h x,
    x <> vol -> MasterVolume (try_SetMasterVolume vol v h) x = MasterVolume h x.
Proof.
  intros vol v h x Hne. unfold try_SetMasterVolume, SetMasterVolume.
  destruct (MasterVolume h vol); [|reflexivity].
  cbn. apply Z.eqb_neq in Hne. rewrite Hne. reflexivity.
Qed.

Lemma try_set_same :
  forall vol v h,
    MasterVolume h vol <> None ->
    MasterVolume (try_SetMasterVolume vol v h) vol = Some v.
Proof.
  intros vol v h Halive. unfold try_SetMasterVolume, SetMasterVolume.
  destruct (MasterVolume h vol); [|contradiction].
  cbn. rewrite Z.eqb_refl. reflexivity.
Qed.

Lemma try_set_alive :
  forall vol v h x,
    MasterVolume (try_SetMasterVolume vol v h) x = None <-> MasterVolume h x = None.
Proof.
  intros vol v h x. unfold try_SetMasterVolume, SetMasterVolume.
  destruct (MasterVolume h vol) eqn:Hvol; [|tauto].
  cbn. destruct (x =? vol) eqn:Hx; [|tauto].
  apply Z.eqb_eq in Hx. subst x. rewrite Hvol. split; discriminate.
Qed.


Lemma apply_writes_other :
  forall ws h x,
    ~ In x (map fst ws) -> MasterVolume (apply_writes ws h) x = MasterVolume h x.
Proof.
  induction ws as [|[vol v] ws IH]; intros h x Hnotin; cbn [apply_writes fold_left].
  - reflexivity.
  - fold (apply_writes ws (try_SetMasterVolume vol v h)).
    cbn [map fst In] in Hnotin.
    rewrite IH by tauto. apply try_set_other. intros Heq. apply Hnotin. left.
    symmetry. exact Heq.
Qed.

(** With one write per handle, a live handle ends at the value written. *)
Lemma apply_writes_value :
  forall ws h vol v,
    NoDup (map fst ws) -> In (vol, v) ws -> MasterVolume h vol <> None ->
    MasterVolume (apply_writes ws h) vol = Some v.
Proof.
  induction ws as [|[vol0 v0] ws IH]; intros h vol v Hnd Hin Halive; [contradiction|].
  cbn [apply_writes fold_left].
  fold (apply_writes ws (try_SetMasterVolume vol0 v0 h)).
  cbn [map fst] in Hnd. inversion Hnd as [|? ? Hnotin Hnd']; subst.
  destruct Hin as [Heq | Hin].
  - inversion Heq; subst. rewrite apply_writes_other by exact Hnotin.
    apply try_set_same. exact Halive.
  - apply IH; [exact Hnd' | exact Hin |].
    rewrite try_set_alive. exact Halive.
Qed.

Lemma apply_writes_app :
  forall ws1 ws2 h, apply_writes (ws1 ++ ws2) h = apply_writes ws2 (apply_writes ws1 h).
Proof.
  intros ws1 ws2 h. unfold apply_writes. apply fold_left_app.
Qed.

Lemma duck_stage_is_writes :
  forall target t saved to_duck h,
    fold_left
      (fun h '(key, vol) =>
         let orig := PyDict.get_default Z.eqb key 1%Q saved in
         try_SetMasterVolume vol (duck_value target orig t) h)
      to_duck h
    = apply_writes (duck_writes target t saved to_duck) h.
Proof.
  intros target t saved to_duck.
  induction to_duck as [|[key vol] to_duck IH]; intros h; cbn [fold_left duck_writes map].
  - reflexivity.
  - rewrite IH. reflexivity.
Qed.

Lemma restore_force_is_writes :
  forall vol_map items h,
    restore_force_pass vol_map items h = apply_writes (forced_writes vol_map items) h.
Proof.
  intros vol_map items. unfold restore_force_pass.
  induction items as [|[key orig] items IH]; intros h; cbn [fold_left forced_writes flat_map].
  - reflexivity.
  - rewrite apply_writes_app, IH.
    destruct (PyDict.get Z.eqb key vol_map); reflexivity.
Qed.

Lemma restore_ramp_alive :
  forall t vol_map items h x,
    MasterVolume (restore_ramp_pass t vol_map items h) x = None
    <-> MasterVolume h x = None.
Proof.
  intros t vol_map items. unfold restore_ramp_pass.
  induction items as [|[key orig] items IH]; intros h x; cbn [fold_left].
  - tauto.
  - rewrite IH. destruct (PyDict.get Z.eqb key vol_map); [|tauto].
    apply try_set_alive.
Qed.

(** ** Clamping *)


(** ** Dictionary facts *)

Lemma dict_get_set_same :
  forall (V : Type) k (v : V) d, PyDict.get Z.eqb k (PyDict.set Z.eqb k v d) = Some v.
Proof.
  intros V k v d. induction d as [|[k' v'] d IH]; cbn [PyDict.set PyDict.get].
  - rewrite Z.eqb_refl. reflexivity.
  - destruct (k =? k') eqn:Hk; cbn [PyDict.get]; rewrite Hk; [reflexivity | exact IH].
Qed.

Lemma dict_get_set_other :
  forall (V : Type) k k' (v : V) d,
    k <> k' -> PyDict.get Z.eqb k (PyDict.set Z.eqb k' v d) = PyDict.get Z.eqb k d.
Proof.
  intros V k k' v d Hne. induction d as [|[k0 v0] d IH]; cbn [PyDict.set PyDict.get].
  - apply Z.eqb_neq in Hne. rewrite Hne. reflexivity.
  - destruct (k' =? k0) eqn:Hk; cbn [PyDict.get].
    + apply Z.eqb_eq in Hk. subst k0. apply Z.eqb_neq in Hne. rewrite Hne. reflexivity.
    + rewrite IH. reflexivity.
Qed.


(** Every session the capture loop puts on the ramp has a baseline. *)
Lemma capture_tracks_to_duck :
  forall h exclude_pids sessions saved to_duck,
    (forall key vol, In (key, vol) to_duck -> PyDict.get Z.eqb key saved <> None) ->
    forall key vol,
      In (key, vol) (snd (capture h exclude_pids sessions saved to_duck)) ->
      PyDict.get Z.eqb key (fst (capture h exclude_pids sessions saved to_duck)) <> None.
Proof.
  intros h exclude_pids sessions.
  induction sessions as [|s rest IH]; intros saved to_duck Htracked key vol; cbn [capture].
  - apply Htracked.
  - destruct (s_vol s) as [vol0|]; [|apply IH; exact Htracked].
    destruct (excluded h exclude_pids s); [apply IH; exact Htracked|].
    cbv zeta. apply IH. intros key' vol' Hin.
    apply in_app_or in Hin. unfold PyDict.mem.
    destruct (PyDict.get Z.eqb (session_key s) saved) eqn:Hkey.
    + destruct Hin as [Hin | [Heq | []]].
      * apply (Htracked key' vol'). exact Hin.
      * inversion Heq; subst. congruence.
    + destruct Hin as [Hin | [Heq | []]].
      * destruct (Z.eq_dec key' (session_key s)) as [Heq | Hne].
        -- subst key'. rewrite dict_get_set_same. discriminate.
        -- rewrite dict_get_set_other by exact Hne. apply (Htracked key' vol'). exact Hin.
      * inversion Heq; subst. rewrite dict_get_set_same. discriminate.
Qed.

(** Keys stay unique through the capture loop. *)
Lemma dict_set_new_keys :
  forall (V : Type) k (v : V) d,
    PyDict.get Z.eqb k d = None ->
    map fst (PyDict.set Z.eqb k v d) = map fst d ++ [k].
Proof.
  intros V k v d. induction d as [|[k' v'] d IH]; cbn [PyDict.get PyDict.set map fst app].
  - reflexivity.
  - destruct (k =? k'); [discriminate|]. intros Hnone.
    cbn [map fst]. rewrite IH by exact Hnone. reflexivity.
Qed.

Lemma dict_get_none_not_in :
  forall (V : Type) k (d : zdict V),
    PyDict.get Z.eqb k d = None -> ~ In k (map fst d).
Proof.
  intros V k d. induction d as [|[k' v'] d IH]; cbn [PyDict.get map fst In].
  - tauto.
  - destruct (k =? k') eqn:Hk; [discriminate|]. intros Hnone [Heq | Hin].
    + subst k'. rewrite Z.eqb_refl in Hk. discriminate.
    + exact (IH Hnone Hin).
Qed.

Lemma capture_unique_keys :
  forall h exclude_pids sessions saved to_duck,
    NoDup (map fst saved) ->
    NoDup (map fst (fst (capture h exclude_pids sessions saved to_duck))).
Proof.
  intros h exclude_pids sessions.
  induction sessions as [|s rest IH]; intros saved to_duck Hnd; cbn [capture].
  - exact Hnd.
  - destruct (s_vol s) as [vol|]; [|apply IH; exact Hnd].
    destruct (excluded h exclude_pids s); [apply IH; exact Hnd|].
    cbv zeta. apply IH. unfold PyDict.mem.
    destruct (PyDict.get Z.eqb (session_key s) saved) eqn:Hkey; [exact Hnd|].
    rewrite dict_set_new_keys by exact Hkey.
    apply NoDup_app; [exact Hnd | repeat constructor; intros [] |].
    intros x Hx [Heq | []]. subst x.
    exact (dict_get_none_not_in _ _ _ Hkey Hx).
Qed.

(** With pycaw present and a session to duck, [duck_all_sessions] returns
    success and queues stage 1 of a ramp over the sessions captured, each of
    which has a baseline in the map it leaves. *)
Lemma duck_all_sessions_queues_ramp :
  forall target exclude_pids steps step_ms h a,
    PYCAW_OK a = true ->
    let a0 := if negb (_duck_active a) then set_saved_sessions [] a else a in
    let saved := fst (capture h (match exclude_pids with Some e => e | None => [] end)
                              (_get_all_audio_sessions h a) (_saved_sessions a0) []) in
    let to_duck := snd (capture h (match exclude_pids with Some e => e | None => [] end)
                                (_get_all_audio_sessions h a) (_saved_sessions a0) []) in
    to_duck <> [] ->
    duck_all_sessions target exclude_pids steps step_ms h a
    = (true, after 0 (DuckStep 1 target steps step_ms to_duck)
                   (set_saved_sessions saved a0))
    /\ forall key vol, In (key, vol) to_duck -> PyDict.get Z.eqb key saved <> None.
Proof.
  intros target exclude_pids steps step_ms h a Hpycaw a0 saved to_duck Hsome.
  split.
  - unfold duck_all_sessions. rewrite Hpycaw. cbn [negb].
    subst saved to_duck a0.
    destruct (capture _ _ _ _ _) as [sv td]. cbn [fst snd] in *.
    destruct td; [contradiction | reflexivity].
  - subst saved to_duck. apply capture_tracks_to_duck. intros key vol [].
Qed.

(** ** The duck ramp *)




(** One write per handle follows from unique keys and a [vol_map] that
    gives distinct tracked keys distinct interfaces. *)
Lemma forced_writes_one_per_handle :
  forall (vol_map : zdict handle) (items : list (Z * Q)),
    NoDup (map fst items) ->
    (forall k1 k2 vol,
        In k1 (map fst items) -> In k2 (map fst items) ->
        PyDict.get Z.eqb k1 vol_map = Some vol ->
        PyDict.get Z.eqb k2 vol_map = Some vol -> k1 = k2) ->
    NoDup (map fst (forced_writes vol_map items)).
Proof.
  intros vol_map items.
  induction items as [|[key orig] items IH]; intros Hnd Hinj;
    cbn [forced_writes flat_map map fst].
  - constructor.
  - cbn [map fst] in Hnd. inversion Hnd as [|? ? Hnotin Hnd']; subst.
    assert (Htail : NoDup (map fst (forced_writes vol_map items))).
    { apply IH; [exact Hnd'|]. intros k1 k2 vol H1 H2. apply Hinj; right; assumption. }
    destruct (PyDict.get Z.eqb key vol_map) as [vol|] eqn:Hkey; [|exact Htail].
    cbn [app map fst]. constructor; [|exact Htail].
    intros Hin. apply in_map_iff in Hin. destruct Hin as ([vol' orig'] & Hfst & Hin).
    cbn [fst] in Hfst. subst vol'.
    unfold forced_writes in Hin. apply in_flat_map in Hin.
    destruct Hin as ([key2 orig2] & Hin2 & Hone).
    destruct (PyDict.get Z.eqb key2 vol_map) as [vol2|] eqn:Hkey2; [|contradiction].
    destruct Hone as [Heq | []]. inversion Heq; subst.
    assert (key = key2).
    { apply (Hinj key key2 vol); [left; reflexivity | right | exact Hkey | exact Hkey2].
      apply (in_map fst) in Hin2. exact Hin2. }
    subst key2. apply Hnotin. apply (in_map fst) in Hin2. exact Hin2.
Qed.

(** ** Restore *)

Lemma restore_final_stage :
  forall (i steps step_ms : Z) (vol_map : zdict handle) (h : Host) (a : App),
    steps <> 0 ->
    steps <= i ->
    NoDup (map fst (forced_writes vol_map (_saved_sessions a))) ->
    (forall key orig vol,
        In (key, orig) (_saved_sessions a) ->
        PyDict.get Z.eqb key vol_map = Some vol ->
        MasterVolume h vol <> None ->
        MasterVolume (fst (restore_step i steps step_ms vol_map h a)) vol = Some orig)
    /\ snd (restore_step i steps step_ms vol_map h a)
       = set_duck_active false (set_saved_sessions [] a).
Proof.
  intros i steps step_ms vol_map h a Hsteps Hlast Hnd.
  unfold restore_step. apply Z.eqb_neq in Hsteps. rewrite Hsteps.
  assert (Hlt : (i <? steps) = false) by (apply Z.ltb_ge; exact Hlast).
  rewrite Hlt. cbn [fst snd]. split; [|reflexivity].
  intros key orig vol Hin Hmap Halive.
  rewrite restore_force_is_writes. apply apply_writes_value.
  - exact Hnd.
  - unfold forced_writes. apply in_flat_map. exists (key, orig).
    split; [exact Hin|]. rewrite Hmap. left. reflexivity.
  - rewrite restore_ramp_alive. exact Halive.
Qed.

(** *** The timer queue *)

Lemma pop_earliest_none : forall q, pop_earliest q = None -> q = [].
Proof.
  intros [|e r]; [reflexivity|]. cbn [pop_earliest].
  destruct (pop_earliest r) as [[e' r']|]; [|discriminate].
  destruct (fst e <=? fst e'); discriminate.
Qed.

Lemma pop_earliest_in :
  forall q e r, pop_earliest q = Some (e, r) -> In e q.
Proof.
  induction q as [|x q IH]; intros e r; cbn [pop_earliest]; [discriminate|].
  destruct (pop_earliest q) as [[e' r']|] eqn:Hq.
  - destruct (fst x <=? fst e'); intro H; inversion H; subst.
    + left. reflexivity.
    + right. apply (IH e r'). reflexivity.
  - intro H. inversion H. left. reflexivity.
Qed.

(** A timer due before all others is the one the loop runs next, and the
    others keep their order. *)
Lemma pop_earliest_due_first :
  forall q1 q2 d f,
    due_after d (q1 ++ q2) ->
    pop_earliest (q1 ++ (d, f) :: q2) = Some ((d, f), q1 ++ q2).
Proof.
  induction q1 as [|[d1 f1] q1 IH]; intros q2 d f Hlater; cbn [app pop_earliest].
  - destruct (pop_earliest q2) as [[[d' f'] r']|] eqn:Hq.
    + apply pop_earliest_in in Hq. cbn [fst].
      assert (Hlt : d < d') by (apply (Hlater d' f'); exact Hq).
      apply Z.lt_le_incl, Z.leb_le in Hlt. rewrite Hlt. reflexivity.
    + apply pop_earliest_none in Hq. subst q2. reflexivity.
  - rewrite IH by (intros due g Hin; apply (Hlater due g); right; exact Hin).
    cbn [fst].
    assert (Hlt : d < d1) by (apply (Hlater d1 f1); left; reflexivity).
    assert (Hle : (d1 <=? d) = false) by (apply Z.leb_gt; exact Hlt).
    rewrite Hle. reflexivity.
Qed.

Lemma due_after_earlier :
  forall t t' q, t' <= t -> due_after t q -> due_after t' q.
Proof.
  intros t t' q Hle Hlater due f Hin. specialize (Hlater due f Hin). lia.
Qed.

(** The stages of one restore ramp, run as they come due while every other
    timer is due later than its last stage, end in the last stage, on a host
    where the same interfaces are alive; the other timers are still queued. *)
Lemma restore_ramp_runs_to_last_stage :
  forall (steps step_ms : Z) (vol_map : zdict handle),
    steps <> 0 ->
    0 <= step_ms ->
    forall (n : nat) (i due : Z) (h : Host) (a : App) (q1 q2 : list (Z * timer)),
      i + Z.of_nat n = steps ->
      now_ms a <= due ->
      after_queue a = q1 ++ (due, RestoreStep i steps step_ms vol_map) :: q2 ->
      due_after (due + Z.of_nat n * step_ms) (q1 ++ q2) ->
      exists h1 a1,
        run_turns (S n) h a = restore_step steps steps step_ms vol_map h1 a1
        /\ (forall x, MasterVolume h1 x = None <-> MasterVolume h x = None)
        /\ _saved_sessions a1 = _saved_sessions a
        /\ after_queue a1 = q1 ++ q2.
Proof.
  intros steps step_ms vol_map Hsteps Hms n.
  induction n as [|n IH]; intros i due h a q1 q2 Hi Hnow Hq Hlater.
  - assert (i = steps) by lia. subst i.
    exists h, (set_timers (Z.max (now_ms a) due) (q1 ++ q2) a).
    cbn [run_turns]. unfold run_next. rewrite Hq.
    rewrite pop_earliest_due_first
      by (eapply due_after_earlier; [|exact Hlater]; lia).
    cbn [run_timer].
    destruct (restore_step _ _ _ _ _ _) as [h' a']. repeat split; tauto.
  - rewrite Nat2Z.inj_succ in Hi.
    assert (Hlt : (i <? steps) = true) by (apply Z.ltb_lt; lia).
    change (run_turns (S (S n)) h a)
      with (let '(h', a') := run_next h a in run_turns (S n) h' a').
    unfold run_next. rewrite Hq.
    rewrite pop_earliest_due_first
      by (eapply due_after_earlier; [|exact Hlater]; lia).
    cbn [run_timer].
    unfold restore_step at 1. apply Z.eqb_neq in Hsteps. rewrite Hsteps, Hlt.
    apply Z.eqb_neq in Hsteps.
    match goal with
    | |- context [run_turns (S n) ?h2 ?a2] =>
        destruct (IH (i + 1) (Z.max (now_ms a) due + step_ms) h2 a2 (q1 ++ q2) [])
          as (h1 & a1 & Hrun & Halive & Hsaved & Hq1)
    end.
    + lia.
    + app_simpl. lia.
    + reflexivity.
    + rewrite app_nil_r. eapply due_after_earlier; [|exact Hlater].
      rewrite Nat2Z.inj_succ. nia.
    + rewrite app_nil_r in Hq1.
      exists h1, a1. split; [exact Hrun|]. split; [|split].
      * intros x. rewrite Halive. app_simpl. apply restore_ramp_alive.
      * rewrite Hsaved. reflexivity.
      * exact Hq1.
Qed.

(** What restore does achieve.  With no session tracked,
    [restore_all_sessions] is a no-op that returns success.  With sessions
    tracked it returns success and queues its ramp; once the [steps] stages
    have run, no other timer coming due before the last of them, for every
    tracked key the volume interface that restore's own enumeration holds
    for that key (if any, and alive) stands exactly at the recorded baseline,
    the tracked-session map is empty, the episode is marked inactive, and
    the timers that were queued are still queued. *)
Lemma restore_all_sessions_completes :
  forall (steps step_ms : Z) (h : Host) (a : App),
    PYCAW_OK a = true ->
    (_saved_sessions a = [] -> restore_all_sessions steps step_ms h a = (true, a))
    /\ (_saved_sessions a <> [] ->
        1 <= steps ->
        0 <= step_ms ->
        due_after (now_ms a + (steps - 1) * step_ms) (after_queue a) ->
        NoDup (map fst (forced_writes (build_vol_map (_get_all_audio_sessions h a) [])
                                      (_saved_sessions a))) ->
        let w := run_turns (Z.to_nat steps) h
                           (snd (restore_all_sessions steps step_ms h a)) in
        fst (restore_all_sessions steps step_ms h a) = true
        /\ (forall key orig vol,
               In (key, orig) (_saved_sessions a) ->
               PyDict.get Z.eqb key (build_vol_map (_get_all_audio_sessions h a) [])
               = Some vol ->
               MasterVolume h vol <> None ->
               MasterVolume (fst w) vol = Some orig)
        /\ _saved_sessions (snd w) = []
        /\ _duck_active (snd w) = false
        /\ after_queue (snd w) = after_queue a).
Proof.
  intros steps step_ms h a Hpycaw. split.
  - intros Hempty. unfold restore_all_sessions. rewrite Hpycaw, Hempty. reflexivity.
  - intros Hne Hsteps Hms Hlater Hnd w. subst w.
    set (vol_map := build_vol_map (_get_all_audio_sessions h a) []) in *.
    assert (Hcall : restore_all_sessions steps step_ms h a
                    = (true, after 0 (RestoreStep 1 steps step_ms vol_map) a)).
    { unfold restore_all_sessions. rewrite Hpycaw.
      destruct (_saved_sessions a); [contradiction | reflexivity]. }
    rewrite Hcall. cbn [fst snd].
    destruct (restore_ramp_runs_to_last_stage steps step_ms vol_map ltac:(lia) Hms
                (Z.to_nat steps - 1) 1 (now_ms a + 0) h
                (after 0 (RestoreStep 1 steps step_ms vol_map) a) (after_queue a) [])
      as (h1 & a1 & Hrun & Halive & Hsaved1 & Hq1).
    { lia. }
    { app_simpl. lia. }
    { reflexivity. }
    { rewrite app_nil_r. eapply due_after_earlier; [|exact Hlater].
      replace (Z.of_nat (Z.to_nat steps - 1)) with (steps - 1) by lia. lia. }
    rewrite app_nil_r in Hq1.
    replace (S (Z.to_nat steps - 1)) with (Z.to_nat steps) in Hrun by lia.
    app_simpl.
    destruct (restore_final_stage steps steps step_ms vol_map h1 a1)
      as (Hvols & Hfinal); [lia | lia | rewrite Hsaved1; exact Hnd |].
    rewrite Hrun, Hfinal. app_simpl.
    split; [reflexivity|]. split; [|split; [reflexivity|split; [reflexivity|exact Hq1]]].
    intros key orig vol Hin Hmap Hlive. apply (Hvols key orig vol).
    + rewrite Hsaved1. exact Hin.
    + exact Hmap.
    + rewrite Halive. exact Hlive.
Qed.

Example restore_all_sessions_completes_on_office :
  _saved_sessions app_office_ducked = [(7, 1%Q); (8, 1 # 2)]
  /\ MasterVolume host_office_ducked 1 <> Some 1%Q
  /\ MasterVolume
       (fst (run_turns (Z.to_nat 10) host_office_ducked
                       (snd (restore_all_sessions 10 150 host_office_ducked
                                                  app_office_ducked)))) 1
     = Some 1%Q
  /\ _saved_sessions
       (snd (run_turns (Z.to_nat 10) host_office_ducked
                       (snd (restore_all_sessions 10 150 host_office_ducked
                                                  app_office_ducked)))) = []
  /\ _duck_active
       (snd (run_turns (Z.to_nat 10) host_office_ducked
                       (snd (restore_all_sessions 10 150 host_office_ducked
                                                  app_office_ducked)))) = false
  /\ after_queue
       (snd (run_turns (Z.to_nat 10) host_office_ducked
                       (snd (restore_all_sessions 10 150 host_office_ducked
                                                  app_office_ducked))))
     = [(60000, ScheduleTick)].
Proof.
  split; [vm_compute; reflexivity|].
  split; [vm_compute; discriminate|].
  destruct (restore_all_sessions_completes 10 150 host_office_ducked app_office_ducked)
    as (_ & Hfull); [vm_compute; reflexivity|].
  destruct Hfull as (_ & Hvols & Hsaved & Hactive & Hqueue).
  - vm_compute. discriminate.
  - lia.
  - lia.
  - intros due f Hin. vm_compute in Hin.
    destruct Hin as [Heq | []]. inversion Heq. vm_compute. reflexivity.
  - vm_compute. repeat constructor; cbn; intuition discriminate.
  - split; [|split; [exact Hsaved | split; [exact Hactive | rewrite Hqueue; reflexivity]]].
    apply (Hvols 7 1%Q 1).
    + vm_compute. left. reflexivity.
    + vm_compute. reflexivity.
    + vm_compute. discriminate.
Qed.

(** ** A restore ramp among duck stages *)

Lemma duck_step_unfold :
  forall i target steps step_ms to_duck h a,
    steps <> 0 ->
    duck_step i target steps step_ms to_duck h a
    = (apply_writes (duck_writes target (inject_Z i / inject_Z steps) (_saved_sessions a)
                                 to_duck) h,
       if i <? steps
       then after step_ms (DuckStep (i + 1) target steps step_ms to_duck) a
       else set_duck_active true a).
Proof.
  intros i target steps step_ms to_duck h a Hsteps. unfold duck_step.
  apply Z.eqb_neq in Hsteps. rewrite Hsteps, duck_stage_is_writes.
  destruct (i <? steps); reflexivity.
Qed.










Section RestoreAmongDuckStages.

(** The restore ramp: its parameters, the time [T] its last stage is due,
    the map its call builds and the baselines it finds. *)
Variables (T rs rms : Z) (vol_map : zdict handle) (saved : zdict Q) (sessions : option (list session)).
Hypothesis Hrs : 1 <= rs.
Hypothesis Hrms : 0 <= rms.
Hypothesis Hsaved : saved <> [].
Hypothesis Hmap :
  vol_map = build_vol_map (match sessions with Some l => l | None => [] end) [].




End RestoreAmongDuckStages.

(** ** The end of a worker *)







(** C6 fails on the code.  The duck ramp holds every session it captured
    ([to_duck] is a list), but restore looks sessions up by key in a
    dictionary that keeps one volume interface per key, the last enumerated.
    When a process owns two sessions, both are ducked to 0.06 from the
    baseline of the first; restore then sets only the second one (to the
    first one's baseline 1, not its own 4/5), clears the map and marks the
    episode inactive, and the first session, whose volume was the one
    recorded, is left at 0.06. *)
Theorem restore_leaves_same_pid_session_ducked :
  let a1 := snd (duck_all_sessions 0.06 (Some [999]) 6 120 host_twins app_idle) in
  let w2 := run_turns 6 host_twins a1 in
  let w3 := run_turns 10 (fst w2)
                      (snd (restore_all_sessions 10 150 (fst w2) (snd w2))) in
  MasterVolume host_twins 1 = Some 1%Q
  /\ MasterVolume host_twins 4 = Some (4 # 5)
  /\ _saved_sessions a1 = [(7, 1%Q)]
  /\ after_queue a1 = [(0, DuckStep 1 0.06 6 120 [(7, 1); (7, 4)])]
  /\ _duck_active (snd w2) = true
  /\ (exists v, MasterVolume (fst w2) 1 = Some v /\ (v == 0.06)%Q)
  /\ (exists v, MasterVolume (fst w2) 4 = Some v /\ (v == 0.06)%Q)
  /\ fst (restore_all_sessions 10 150 (fst w2) (snd w2)) = true
  /\ _saved_sessions (snd w3) = []
  /\ _duck_active (snd w3) = false
  /\ after_queue (snd w3) = []
  /\ (exists v, MasterVolume (fst w3) 1 = Some v /\ (v == 0.06)%Q /\ ~ (v == 1)%Q)
  /\ MasterVolume (fst w3) 4 = Some 1%Q.
Proof.
  cbv zeta.
  repeat match goal with
         | |- _ /\ _ => split
         | |- exists v, _ => eexists
         | |- _ = _ => vm_compute; reflexivity
         | |- (_ == _)%Q => vm_compute; reflexivity
         | |- ~ _ => vm_compute; discriminate
         end.
Qed.

(** ** Duck episodes *)







(** C1 fails on the code.  The episode is marked active only by the last
    stage of the ramp, so a duck call that arrives while the first ramp is
    still running finds the flag clear and resets the map: session 7, first
    seen at volume 1, is recorded again at the volume the ramp has reached,
    253/300 (as 506/600), and after both ramps and the restore it is left
    there instead of at 1. *)
Theorem reduck_during_ramp_overwrites_baseline :
  let a1 := snd (duck_all_sessions 0.06 (Some [999]) 6 120 host_demo app_idle) in
  let w2 := run_next host_demo a1 in
  let a3 := snd (duck_all_sessions 0.03 (Some [999]) 6 60 (fst w2) (snd w2)) in
  let w4 := run_turns 11 (fst w2) a3 in
  let w5 := run_turns 8 (fst w4) (snd (restore_all_sessions 8 120 (fst w4) (snd w4))) in
  MasterVolume host_demo 1 = Some 1%Q
  /\ PyDict.get Z.eqb 7 (_saved_sessions a1) = Some 1%Q
  /\ _duck_active (snd w2) = false
  /\ MasterVolume (fst w2) 1 = Some (506 # 600)
  /\ PyDict.get Z.eqb 7 (_saved_sessions a3) = Some (506 # 600)
  /\ ~ (506 # 600 == 1)%Q
  /\ after_queue (snd w4) = []
  /\ _duck_active (snd w4) = true
  /\ _saved_sessions (snd w5) = []
  /\ _duck_active (snd w5) = false
  /\ after_queue (snd w5) = []
  /\ MasterVolume (fst w5) 1 = Some (506 # 600).
Proof.
  cbv zeta. repeat split; try (vm_compute; reflexivity).
  vm_compute. discriminate.
Qed.

(** ** Mic passthrough *)

Lemma stereo_rows :
  forall (v : list Q) (out_rows : list (list Q)),
    List.length out_rows = List.length v ->
    Forall (fun r => List.length r = 2%nat) out_rows ->
    map (fun '(r, x) => list_set 1 x r)
        (combine (map (fun '(r, x) => list_set 0 x r) (combine out_rows v)) v)
    = map (fun x => [x; x]) v.
Proof.
  induction v as [|x v IH]; intros out_rows Hlen Hrows.
  - destruct out_rows; [reflexivity | discriminate].
  - destruct out_rows as [|r out_rows]; [discriminate|].
    inversion Hrows as [|? ? Hr Hrows']; subst.
    destruct r as [|y0 [|y1 [|y2 r]]]; try discriminate.
    cbn [combine map list_set]. rewrite IH; [reflexivity | | exact Hrows'].
    cbn [List.length] in Hlen. lia.
Qed.

Lemma fill0_silence :
  forall out, Forall (Forall (fun x => x = 0%Q)) (rows (fill0 out)).
Proof.
  intros out. unfold fill0. cbn [rows].
  induction (rows out) as [|r rs IH]; cbn [map]; constructor; [|exact IH].
  induction r as [|x r IHr]; cbn [map]; constructor; [reflexivity | exact IHr].
Qed.

Lemma callback_mono_block :
  forall (a : App) (xs : list Q) (out_rows : list (list Q)),
    List.length out_rows = List.length xs ->
    Forall (fun r => List.length r = 2%nat) out_rows ->
    callback a (mono_block xs) (mkArray 2 out_rows)
    = mkArray 2 (map (fun x => [(x * _mic_gain a)%Q; (x * _mic_gain a)%Q]) xs).
Proof.
  intros a xs out_rows Hlen Hrows.
  unfold callback, callback_body, mono_block, scale, column0, assign_column.
  cbn [ncols rows Nat.eqb Nat.ltb Nat.leb]. rewrite !map_map. cbn [map nth].
  unfold broadcast at 1. rewrite length_map, Hlen, Nat.eqb_refl.
  cbn [ncols rows Nat.ltb Nat.leb].
  unfold broadcast. rewrite !length_map, length_combine, length_map, Hlen.
  rewrite Nat.min_id, Nat.eqb_refl.
  rewrite stereo_rows; [| rewrite length_map; exact Hlen | exact Hrows].
  rewrite map_map. reflexivity.
Qed.

(** C9. On a mono input block and a stereo output buffer of as many
    frames, the callback writes to both output channels of every frame the
    input sample times the gain read for that block; with the gain set from
    slider value 200 every output sample is twice the one obtained with the
    gain set from slider value 100.  On input and output of one shape with
    more than one channel it writes the input times the gain.  And whenever
    the processing of a block raises, the output block is zero everywhere. *)
Theorem callback_applies_gain :
  forall (a : App) (xs : list Q) (out_rows : list (list Q)),
    List.length out_rows = List.length xs ->
    Forall (fun r => List.length r = 2%nat) out_rows ->
    callback a (mono_block xs) (mkArray 2 out_rows)
    = mkArray 2 (map (fun x => [(x * _mic_gain a)%Q; (x * _mic_gain a)%Q]) xs)
    /\ (forall i j y2 y1,
          sample (callback (_on_mic_vol_change (Some 200%Q) a)
                           (mono_block xs) (mkArray 2 out_rows)) i j = Some y2 ->
          sample (callback (_on_mic_vol_change (Some 100%Q) a)
                           (mono_block xs) (mkArray 2 out_rows)) i j = Some y1 ->
          (y2 == 2 * y1)%Q)
    /\ (forall indata outdata,
          ncols indata = ncols outdata -> ncols indata <> 1%nat ->
          List.length (rows indata) = List.length (rows outdata) ->
          callback a indata outdata = scale (_mic_gain a) indata)
    /\ (forall indata outdata,
          callback_body (_mic_gain a) indata outdata = None ->
          callback a indata outdata = fill0 outdata
          /\ Forall (Forall (fun x => x = 0%Q)) (rows (callback a indata outdata))).
Proof.
  intros a xs out_rows Hlen Hrows.
  split; [apply callback_mono_block; assumption|].
  split; [|split].
  - intros i j y2 y1.
    rewrite !callback_mono_block by assumption.
    unfold sample. cbn [rows]. rewrite !nth_error_map.
    destruct (nth_error xs i) as [x|]; cbn [option_map]; [|discriminate].
    assert (Hg2 : (_mic_gain (_on_mic_vol_change (Some 200%Q) a) == 2)%Q) by reflexivity.
    assert (Hg1 : (_mic_gain (_on_mic_vol_change (Some 100%Q) a) == 1)%Q) by reflexivity.
    destruct j as [|[|j]]; cbn [nth_error]; intros H2 H1;
      try (destruct j; discriminate);
      inversion H2; inversion H1; subst; rewrite Hg2, Hg1; ring.
  - intros indata outdata Hcols Hne Hframes.
    unfold callback, callback_body, assign_all, scale. cbn [ncols rows].
    apply Nat.eqb_neq in Hne. rewrite Hne.
    rewrite (proj2 (Nat.eqb_eq _ _) Hcols). cbn [orb].
    unfold broadcast. rewrite !length_map, Hframes, Nat.eqb_refl.
    rewrite Hcols. reflexivity.
  - intros indata outdata Hraise. unfold callback. rewrite Hraise.
    split; [reflexivity | apply fill0_silence].
Qed.

Lemma callback_applies_gain_witness :
  callback app_idle block_in block_out
  = mkArray 2 (map (fun x => [(x * _mic_gain app_idle)%Q; (x * _mic_gain app_idle)%Q])
                   [1 # 2; - (1 # 4); 0]%Q)
  /\ callback_body (_mic_gain app_idle) block_in block_out_mono = None
  /\ callback app_idle block_in block_out_mono = mkArray 1 [[0]; [0]; [0]]%Q.
Proof.
  destruct (callback_applies_gain app_idle [1 # 2; - (1 # 4); 0]%Q (rows block_out))
    as (Hmono & _ & _ & Hsilent).
  - reflexivity.
  - repeat constructor.
  - split; [exact Hmono|]. split; [reflexivity|].
    destruct (Hsilent block_in block_out_mono) as (Hzero & _); [reflexivity|].
    rewrite Hzero. reflexivity.
Defined.


(* ================================================================== *)
(** * Part III. Further properties of the code                          *)
(* ================================================================== *)

(** ** What a duck call captures *)

Lemma capture_to_duck_spec :
  forall h exclude_pids sessions saved to_duck,
    snd (capture h exclude_pids sessions saved to_duck)
    = to_duck ++ duckable_pairs h exclude_pids sessions.
Proof.
  intros h exclude_pids sessions.
  induction sessions as [|s rest IH]; intros saved to_duck;
    cbn [capture duckable_pairs flat_map].
  - rewrite app_nil_r. reflexivity.
  - fold (duckable_pairs h exclude_pids rest).
    destruct (s_vol s) as [vol|]; [|apply IH].
    destruct (excluded h exclude_pids s); [apply IH|].
    cbv zeta. rewrite IH, <- app_assoc. reflexivity.
Qed.

Lemma capture_saved_spec :
  forall h exclude_pids sessions saved to_duck k,
    PyDict.get Z.eqb k (fst (capture h exclude_pids sessions saved to_duck))
    = match PyDict.get Z.eqb k saved with
      | Some v => Some v
      | None => option_map (read_volume h)
                           (PyDict.get Z.eqb k (duckable_pairs h exclude_pids sessions))
      end.
Proof.
  intros h exclude_pids sessions.
  induction sessions as [|s rest IH]; intros saved to_duck k;
    cbn [capture duckable_pairs flat_map].
  - cbn [fst PyDict.get option_map]. destruct (PyDict.get Z.eqb k saved); reflexivity.
  - fold (duckable_pairs h exclude_pids rest).
    destruct (s_vol s) as [vol|]; [|apply IH].
    destruct (excluded h exclude_pids s); [apply IH|].
    cbv zeta. rewrite IH. cbn [app PyDict.get]. unfold PyDict.mem.
    destruct (PyDict.get Z.eqb (session_key s) saved) as [v0|] eqn:Hkey.
    + destruct (PyDict.get Z.eqb k saved) as [v|] eqn:Hk; [reflexivity|].
      destruct (k =? session_key s) eqn:Heq; [|reflexivity].
      apply Z.eqb_eq in Heq. subst k. congruence.
    + destruct (k =? session_key s) eqn:Heq.
      * apply Z.eqb_eq in Heq. subst k.
        rewrite dict_get_set_same, Hkey. reflexivity.
      * apply Z.eqb_neq in Heq. rewrite dict_get_set_other by exact Heq.
        reflexivity.
Qed.

(** X1. With pycaw present, the baseline a duck call leaves for a key is
    the one already recorded when the episode is marked active; otherwise it
    is the volume read on the first enumerated session with that key that
    has a volume interface and is not excluded ([1.0] when the read raises),
    and the key is untracked when there is no such session. *)
Theorem duck_records_first_session_volume :
  forall target exclude_pids steps step_ms h a k,
    PYCAW_OK a = true ->
    PyDict.get Z.eqb k
      (_saved_sessions (snd (duck_all_sessions target exclude_pids steps step_ms h a)))
    = match (if _duck_active a then PyDict.get Z.eqb k (_saved_sessions a) else None) with
      | Some v => Some v
      | None =>
          option_map (read_volume h)
            (PyDict.get Z.eqb k
               (duckable_pairs h (match exclude_pids with Some e => e | None => [] end)
                               (_get_all_audio_sessions h a)))
      end.
Proof.
  intros target exclude_pids steps step_ms h a k Hpycaw.
  unfold duck_all_sessions. rewrite Hpycaw. cbn [negb].
  pose proof (capture_saved_spec h
                (match exclude_pids with Some e => e | None => [] end)
                (_get_all_audio_sessions h a)
                (_saved_sessions (if negb (_duck_active a)
                                  then set_saved_sessions [] a else a))
                [] k) as Hspec.
  destruct (capture _ _ _ _ _) as [saved to_duck]. cbn [fst] in Hspec.
  assert (Hsaved : _saved_sessions
                     (snd (match to_duck with
                           | [] => (true, set_duck_active true
                                            (set_saved_sessions saved
                                               (if negb (_duck_active a)
                                                then set_saved_sessions [] a else a)))
                           | _ :: _ => (true, after 0 (DuckStep 1 target steps step_ms to_duck)
                                                (set_saved_sessions saved
                                                   (if negb (_duck_active a)
                                                    then set_saved_sessions [] a else a)))
                           end)) = saved)
    by (destruct to_duck; reflexivity).
  rewrite Hsaved, Hspec. destruct (_duck_active a); reflexivity.
Qed.

Lemma duck_records_first_session_volume_witness :
  PyDict.get Z.eqb 7
    (_saved_sessions (snd (duck_all_sessions 0.06 (Some [999]) 6 120 host_twins app_idle)))
  = Some 1%Q
  /\ PyDict.get Z.eqb 999
       (_saved_sessions (snd (duck_all_sessions 0.06 (Some [999]) 6 120 host_demo app_idle)))
     = None.
Proof.
  split.
  - rewrite (duck_records_first_session_volume 0.06 (Some [999]) 6 120 host_twins app_idle 7)
      by reflexivity.
    reflexivity.
  - rewrite (duck_records_first_session_volume 0.06 (Some [999]) 6 120 host_demo app_idle 999)
      by reflexivity.
    reflexivity.
Defined.

(** ** Hosts that differ only in some volumes *)

Lemma agrees_off_refl : forall H h, agrees_off H h h.
Proof.
  intros H h. unfold agrees_off. repeat split; auto.
Qed.

Lemma agrees_off_trans :
  forall H h1 h2 h3, agrees_off H h1 h2 -> agrees_off H h2 h3 -> agrees_off H h1 h3.
Proof.
  intros H h1 h2 h3 (Ho1 & Ha1 & Hs1 & Hp1) (Ho2 & Ha2 & Hs2 & Hp2).
  unfold agrees_off. repeat split.
  - intros x Hx. rewrite Ho2, Ho1 by exact Hx. reflexivity.
  - intros Hn. apply Ha1, Ha2, Hn.
  - intros Hn. apply Ha2, Ha1, Hn.
  - congruence.
  - congruence.
Qed.

Lemma try_set_agrees :
  forall H vol v h, In vol H -> agrees_off H h (try_SetMasterVolume vol v h).
Proof.
  intros H vol v h Hin. unfold agrees_off. repeat split.
  - intros x Hx. apply try_set_other. intros Heq. subst x. exact (Hx Hin).
  - apply try_set_alive.
  - apply try_set_alive.
  - unfold try_SetMasterVolume, SetMasterVolume.
    destruct (MasterVolume h vol); reflexivity.
  - unfold try_SetMasterVolume, SetMasterVolume.
    destruct (MasterVolume h vol); reflexivity.
Qed.

Lemma apply_writes_agrees :
  forall H ws h, incl (map fst ws) H -> agrees_off H h (apply_writes ws h).
Proof.
  intros H ws. induction ws as [|[vol v] ws IH]; intros h Hincl;
    cbn [apply_writes fold_left].
  - apply agrees_off_refl.
  - fold (apply_writes ws (try_SetMasterVolume vol v h)).
    apply agrees_off_trans with (h2 := try_SetMasterVolume vol v h).
    + apply try_set_agrees. apply Hincl. left. reflexivity.
    + apply IH. intros x Hx. apply Hincl. right. exact Hx.
Qed.

Lemma restore_ramp_pass_agrees :
  forall H t vol_map items h,
    incl (map fst (forced_writes vol_map items)) H ->
    agrees_off H h (restore_ramp_pass t vol_map items h).
Proof.
  intros H t vol_map items. unfold restore_ramp_pass.
  induction items as [|[key orig] items IH]; intros h Hincl;
    cbn [fold_left forced_writes flat_map] in *.
  - apply agrees_off_refl.
  - fold (forced_writes vol_map items) in Hincl.
    destruct (PyDict.get Z.eqb key vol_map) as [vol|].
    + eapply agrees_off_trans; [|apply IH].
      * apply try_set_agrees. apply Hincl. left. reflexivity.
      * intros x Hx. apply Hincl. right. exact Hx.
    + apply IH. exact Hincl.
Qed.

Lemma duck_writes_handles :
  forall target t saved to_duck,
    map fst (duck_writes target t saved to_duck) = map snd to_duck.
Proof.
  intros target t saved to_duck. unfold duck_writes. rewrite map_map.
  apply map_ext. intros [k v]. reflexivity.
Qed.

(** ** The duck ramp, stage after stage *)

(** The stages of one duck ramp, run as they come due from stage [i] while
    every other timer is due later than its last stage, end with the writes
    of the last stage; the other timers are still queued. *)
Lemma duck_ramp_runs_to_last_stage :
  forall (target : Q) (steps step_ms : Z) (to_duck : list (Z * handle)),
    steps <> 0 ->
    0 <= step_ms ->
    forall (n : nat) (i due : Z) (h : Host) (a : App) (q1 q2 : list (Z * timer)),
      i + Z.of_nat n = steps ->
      now_ms a <= due ->
      after_queue a = q1 ++ (due, DuckStep i target steps step_ms to_duck) :: q2 ->
      due_after (due + Z.of_nat n * step_ms) (q1 ++ q2) ->
      exists h1 a1,
        run_turns (S n) h a
        = (apply_writes (duck_writes target (inject_Z steps / inject_Z steps)
                                     (_saved_sessions a) to_duck) h1,
           set_duck_active true a1)
        /\ agrees_off (map snd to_duck) h h1
        /\ _saved_sessions a1 = _saved_sessions a
        /\ after_queue a1 = q1 ++ q2
        /\ PYCAW_OK a1 = PYCAW_OK a
        /\ _is_playing a1 = _is_playing a
        /\ now_ms a1 = due + Z.of_nat n * step_ms.
Proof.
  intros target steps step_ms to_duck Hsteps Hms n.
  induction n as [|n IH]; intros i due h a q1 q2 Hi Hnow Hq Hlater.
  - assert (i = steps) by lia. subst i.
    exists h, (set_timers (Z.max (now_ms a) due) (q1 ++ q2) a).
    cbn [run_turns]. unfold run_next. rewrite Hq.
    rewrite pop_earliest_due_first
      by (eapply due_after_earlier; [|exact Hlater]; lia).
    cbn [run_timer].
    rewrite duck_step_unfold by exact Hsteps. rewrite Z.ltb_irrefl.
    split; [reflexivity|]. split; [apply agrees_off_refl|].
    repeat split. app_simpl. lia.
  - rewrite Nat2Z.inj_succ in Hi.
    assert (Hlt : (i <? steps) = true) by (apply Z.ltb_lt; lia).
    change (run_turns (S (S n)) h a)
      with (let '(h', a') := run_next h a in run_turns (S n) h' a').
    unfold run_next. rewrite Hq.
    rewrite pop_earliest_due_first
      by (eapply due_after_earlier; [|exact Hlater]; lia).
    cbn [run_timer].
    rewrite duck_step_unfold by exact Hsteps. rewrite Hlt.
    match goal with
    | |- context [run_turns (S n) ?h2 ?a2] =>
        destruct (IH (i + 1) (Z.max (now_ms a) due + step_ms) h2 a2 (q1 ++ q2) [])
          as (h1 & a1 & Hrun & Hagree & Hsaved & Hq1 & Hpy & Hpl & Hnow1)
    end.
    + lia.
    + app_simpl. lia.
    + reflexivity.
    + rewrite app_nil_r. eapply due_after_earlier; [|exact Hlater].
      rewrite Nat2Z.inj_succ. nia.
    + exists h1, a1. split; [exact Hrun|].
      rewrite app_nil_r in Hq1.
      split; [|repeat split; try assumption].
      * eapply agrees_off_trans; [|exact Hagree].
        apply apply_writes_agrees. rewrite duck_writes_handles. apply incl_refl.
      * rewrite Hnow1, Nat2Z.inj_succ. nia.
Qed.

Lemma duck_all_sessions_unfold :
  forall target exclude_pids steps step_ms h a,
    PYCAW_OK a = true ->
    let excl := match exclude_pids with Some e => e | None => [] end in
    let a0 := if negb (_duck_active a) then set_saved_sessions [] a else a in
    let saved := fst (capture h excl (_get_all_audio_sessions h a) (_saved_sessions a0) []) in
    let to_duck := duckable_pairs h excl (_get_all_audio_sessions h a) in
    duck_all_sessions target exclude_pids steps step_ms h a
    = (true,
       match to_duck with
       | [] => set_duck_active true (set_saved_sessions saved a0)
       | _ :: _ => after 0 (DuckStep 1 target steps step_ms to_duck)
                         (set_saved_sessions saved a0)
       end).
Proof.
  intros target exclude_pids steps step_ms h a Hpycaw excl a0 saved to_duck.
  unfold duck_all_sessions. rewrite Hpycaw. cbn [negb].
  pose proof (capture_to_duck_spec h excl (_get_all_audio_sessions h a)
                                   (_saved_sessions a0) []) as Htd.
  subst saved to_duck. fold excl. fold a0.
  destruct (capture h excl (_get_all_audio_sessions h a) (_saved_sessions a0) [])
    as [sv td].
  cbn [fst snd app] in *. subst td.
  destruct (duckable_pairs h excl (_get_all_audio_sessions h a)); reflexivity.
Qed.


(** A duck call that finds sessions to duck, and the turns of its ramp. *)
Lemma duck_run_summary :
  forall target exclude_pids steps step_ms h a,
    PYCAW_OK a = true ->
    1 <= steps ->
    0 <= step_ms ->
    due_after (now_ms a + (steps - 1) * step_ms) (after_queue a) ->
    duckable_pairs h (match exclude_pids with Some e => e | None => [] end)
                   (_get_all_audio_sessions h a) <> [] ->
    let to_duck := duckable_pairs h (match exclude_pids with Some e => e | None => [] end)
                                  (_get_all_audio_sessions h a) in
    let a1 := snd (duck_all_sessions target exclude_pids steps step_ms h a) in
    let w := run_turns (Z.to_nat steps) h a1 in
    (exists h1,
        fst w = apply_writes (duck_writes target (inject_Z steps / inject_Z steps)
                                          (_saved_sessions a1) to_duck) h1
        /\ agrees_off (map snd to_duck) h h1)
    /\ _duck_active (snd w) = true
    /\ after_queue (snd w) = after_queue a
    /\ _saved_sessions (snd w) = _saved_sessions a1
    /\ PYCAW_OK (snd w) = true
    /\ _is_playing (snd w) = _is_playing a
    /\ now_ms (snd w) = now_ms a + (steps - 1) * step_ms
    /\ agrees_off (map snd to_duck) h (fst w).
Proof.
  intros target exclude_pids steps step_ms h a Hpycaw Hsteps Hms Hlater Hsome to_duck a1 w.
  pose proof (duck_all_sessions_unfold target exclude_pids steps step_ms h a Hpycaw)
    as Hcall.
  cbv zeta in Hcall.
  set (excl := match exclude_pids with Some e => e | None => [] end) in *.
  change (to_duck <> []) in Hsome. fold to_duck in Hcall.
  set (a0 := if negb (_duck_active a) then set_saved_sessions [] a else a) in *.
  set (saved := fst (capture h excl (_get_all_audio_sessions h a) (_saved_sessions a0) []))
    in *.
  assert (Ha1 : a1 = after 0 (DuckStep 1 target steps step_ms to_duck)
                           (set_saved_sessions saved a0)).
  { subst a1. rewrite Hcall. destruct to_duck; [contradiction | reflexivity]. }
  assert (Ha0 : after_queue a0 = after_queue a /\ PYCAW_OK a0 = true
                /\ _is_playing a0 = _is_playing a /\ now_ms a0 = now_ms a)
    by (subst a0; destruct (negb (_duck_active a)); repeat split; assumption).
  destruct Ha0 as (Hq0 & Hpy0 & Hpl0 & Hnow0).
  destruct (duck_ramp_runs_to_last_stage target steps step_ms to_duck ltac:(lia) Hms
              (Z.to_nat steps - 1) 1 (now_ms a + 0) h a1 (after_queue a) [])
    as (h1 & b1 & Hrun & Hagree & Hsaved & Hq1 & Hpy1 & Hpl1 & Hnow1).
  { lia. }
  { rewrite Ha1. app_simpl. rewrite Hnow0. lia. }
  { rewrite Ha1. app_simpl. rewrite Hq0, Hnow0. reflexivity. }
  { rewrite app_nil_r. eapply due_after_earlier; [|exact Hlater].
    replace (Z.of_nat (Z.to_nat steps - 1)) with (steps - 1) by lia. lia. }
  replace (S (Z.to_nat steps - 1)) with (Z.to_nat steps) in Hrun by lia.
  rewrite app_nil_r in Hq1.
  subst w. rewrite Hrun. cbn [fst snd]. app_simpl.
  split; [exists h1; split; [reflexivity | exact Hagree]|].
  split; [reflexivity|]. split; [exact Hq1|]. split; [exact Hsaved|].
  split; [rewrite Hpy1, Ha1; app_simpl; exact Hpy0|].
  split; [rewrite Hpl1, Ha1; app_simpl; exact Hpl0|].
  split.
  - rewrite Hnow1. replace (Z.of_nat (Z.to_nat steps - 1)) with (steps - 1) by lia. lia.
  - eapply agrees_off_trans; [exact Hagree|].
    apply apply_writes_agrees. rewrite duck_writes_handles. apply incl_refl.
Qed.



(** ** What a duck ramp never touches *)

Lemma duckable_pairs_in :
  forall h exclude_pids sessions key vol,
    In (key, vol) (duckable_pairs h exclude_pids sessions) <->
    exists s, In s sessions /\ s_vol s = Some vol
              /\ excluded h exclude_pids s = false /\ session_key s = key.
Proof.
  intros h exclude_pids sessions key vol. unfold duckable_pairs.
  rewrite in_flat_map. split.
  - intros (s & Hin & Hs). exists s.
    destruct (s_vol s) as [v|]; [|contradiction].
    destruct (excluded h exclude_pids s); [contradiction|].
    destruct Hs as [Heq | []]. inversion Heq; subst. auto.
  - intros (s & Hin & Hvol & Hex & Hkey). exists s. split; [exact Hin|].
    rewrite Hvol, Hex, Hkey. left. reflexivity.
Qed.

Lemma duck_step_queue :
  forall i target steps step_ms to_duck h a,
    after_queue (snd (duck_step i target steps step_ms to_duck h a)) = after_queue a
    \/ after_queue (snd (duck_step i target steps step_ms to_duck h a))
       = after_queue a ++ [(now_ms a + step_ms,
                            DuckStep (i + 1) target steps step_ms to_duck)].
Proof.
  intros i target steps step_ms to_duck h a. unfold duck_step.
  destruct (steps =? 0); [left; reflexivity|].
  destruct (i <? steps); [right | left]; reflexivity.
Qed.

(** X3. A duck call never writes the volume of an interface that only
    excluded sessions hold, in particular the program's own sessions: the
    only timer it queues is stage 1 of a ramp over the sessions it did not
    skip, a stage queues at most the next stage over the same sessions, and
    no stage changes such a volume. *)
Theorem duck_never_writes_excluded_session :
  forall target exclude_pids steps step_ms h a x,
    PYCAW_OK a = true ->
    (forall s, In s (_get_all_audio_sessions h a) -> s_vol s = Some x ->
               excluded h (match exclude_pids with Some e => e | None => [] end) s = true) ->
    let to_duck := duckable_pairs h (match exclude_pids with Some e => e | None => [] end)
                                  (_get_all_audio_sessions h a) in
    (after_queue (snd (duck_all_sessions target exclude_pids steps step_ms h a))
     = after_queue a
     \/ after_queue (snd (duck_all_sessions target exclude_pids steps step_ms h a))
        = after_queue a ++ [(now_ms a + 0, DuckStep 1 target steps step_ms to_duck)])
    /\ forall i h' a',
         MasterVolume (fst (run_timer (DuckStep i target steps step_ms to_duck) h' a')) x
         = MasterVolume h' x
         /\ (after_queue (snd (run_timer (DuckStep i target steps step_ms to_duck) h' a'))
             = after_queue a'
             \/ after_queue (snd (run_timer (DuckStep i target steps step_ms to_duck) h' a'))
                = after_queue a' ++ [(now_ms a' + step_ms,
                                      DuckStep (i + 1) target steps step_ms to_duck)]).
Proof.
  intros target exclude_pids steps step_ms h a x Hpycaw Hexcl to_duck.
  split.
  - rewrite (duck_all_sessions_unfold target exclude_pids steps step_ms h a Hpycaw).
    cbv zeta. fold to_duck. cbn [snd].
    destruct to_duck; [left | right];
      destruct (negb (_duck_active a)); reflexivity.
  - intros i h' a'. cbn [run_timer]. split; [|apply duck_step_queue].
    assert (Hnotin : ~ In x (map snd to_duck)).
    { intros Hin. apply in_map_iff in Hin. destruct Hin as ([key vol] & Hx & Hin).
      cbn [snd] in Hx. subst vol. apply duckable_pairs_in in Hin.
      destruct Hin as (s & Hs & Hvol & Hex & _).
      rewrite (Hexcl s Hs Hvol) in Hex. discriminate. }
    unfold duck_step. destruct (steps =? 0); [reflexivity|].
    assert (Hfst : forall (u : Host) (y z : App) (c : bool),
               fst (if c then (u, y) else (u, z)) = u) by (intros u y z []; reflexivity).
    rewrite Hfst, duck_stage_is_writes. apply apply_writes_other.
    rewrite duck_writes_handles. exact Hnotin.
Qed.

Lemma duck_never_writes_excluded_session_witness :
  MasterVolume
    (fst (run_timer (DuckStep 3 0.06 6 120
                       (duckable_pairs host_demo [999]
                                       (_get_all_audio_sessions host_demo app_idle)))
                    host_demo app_ducking)) 2
  = MasterVolume host_demo 2
  /\ MasterVolume
       (fst (run_timer (DuckStep 3 0.06 6 120
                          (duckable_pairs host_demo [999]
                                          (_get_all_audio_sessions host_demo app_idle)))
                       host_demo app_ducking)) 1
     <> MasterVolume host_demo 1.
Proof.
  destruct (duck_never_writes_excluded_session 0.06 (Some [999]) 6 120 host_demo app_idle 2)
    as (_ & Hstage).
  - reflexivity.
  - intros s [Hs | [Hs | [Hs | []]]] Hvol; subst s; try discriminate. reflexivity.
  - split; [apply Hstage | vm_compute; discriminate].
Defined.

(** ** Duck, then restore *)

Lemma zdict_get_in :
  forall (V : Type) k (v : V) (d : zdict V),
    PyDict.get Z.eqb k d = Some v -> In (k, v) d.
Proof.
  intros V k v d. induction d as [|[k' v'] d IH]; cbn [PyDict.get]; [discriminate|].
  destruct (k =? k') eqn:Hk.
  - apply Z.eqb_eq in Hk. subst k'. intros Heq. inversion Heq; subst. left. reflexivity.
  - intros Hget. right. apply IH. exact Hget.
Qed.

Lemma zdict_in_get :
  forall (V : Type) k (v : V) (d : zdict V),
    NoDup (map fst d) -> In (k, v) d -> PyDict.get Z.eqb k d = Some v.
Proof.
  intros V k v d. induction d as [|[k' v'] d IH]; intros Hnd Hin; [contradiction|].
  cbn [PyDict.get]. cbn [map fst] in Hnd. inversion Hnd as [|? ? Hnotin Hnd']; subst.
  destruct Hin as [Heq | Hin].
  - inversion Heq; subst. rewrite Z.eqb_refl. reflexivity.
  - destruct (k =? k') eqn:Hk.
    + apply Z.eqb_eq in Hk. subst k'. exfalso. apply Hnotin.
      apply (in_map fst) in Hin. exact Hin.
    + apply IH; assumption.
Qed.

Lemma unique_value_of_key :
  forall (V : Type) k (v1 v2 : V) (d : zdict V),
    NoDup (map fst d) -> In (k, v1) d -> In (k, v2) d -> v1 = v2.
Proof.
  intros V k v1 v2 d Hnd H1 H2.
  apply (zdict_in_get _ _ _ _ Hnd) in H1. apply (zdict_in_get _ _ _ _ Hnd) in H2.
  congruence.
Qed.

Lemma unique_key_of_handle :
  forall k1 k2 (vol : handle) (l : list (Z * handle)),
    NoDup (map snd l) -> In (k1, vol) l -> In (k2, vol) l -> k1 = k2.
Proof.
  intros k1 k2 vol l. induction l as [|[k v] l IH]; intros Hnd H1 H2; [contradiction|].
  cbn [map snd] in Hnd. inversion Hnd as [|? ? Hnotin Hnd']; subst.
  destruct H1 as [E1 | H1], H2 as [E2 | H2].
  - congruence.
  - inversion E1; subst. exfalso. apply Hnotin. apply (in_map snd) in H2. exact H2.
  - inversion E2; subst. exfalso. apply Hnotin. apply (in_map snd) in H1. exact H1.
  - apply IH; assumption.
Qed.

Lemma duckable_in_volume_pairs :
  forall h exclude_pids sessions p,
    In p (duckable_pairs h exclude_pids sessions) -> In p (volume_pairs sessions).
Proof.
  intros h exclude_pids sessions p. unfold duckable_pairs, volume_pairs.
  rewrite !in_flat_map. intros (s & Hs & Hp). exists s. split; [exact Hs|].
  destruct (s_vol s); [|contradiction].
  destruct (excluded h exclude_pids s); [contradiction | exact Hp].
Qed.

(** With one session per key, [vol_map] holds each session's own interface. *)
Lemma build_vol_map_spec :
  forall sessions vol_map k,
    NoDup (map fst (volume_pairs sessions)) ->
    PyDict.get Z.eqb k (build_vol_map sessions vol_map)
    = match PyDict.get Z.eqb k (volume_pairs sessions) with
      | Some v => Some v
      | None => PyDict.get Z.eqb k vol_map
      end.
Proof.
  induction sessions as [|s rest IH]; intros vol_map k Hnd;
    cbn [build_vol_map volume_pairs flat_map] in *.
  - reflexivity.
  - fold (volume_pairs rest) in *.
    destruct (s_vol s) as [vol|]; [|apply IH; exact Hnd].
    cbn [app map fst] in Hnd. inversion Hnd as [|? ? Hnotin Hnd']; subst.
    rewrite IH by exact Hnd'. cbn [app PyDict.get].
    destruct (k =? session_key s) eqn:Hk.
    + apply Z.eqb_eq in Hk. subst k.
      destruct (PyDict.get Z.eqb (session_key s) (volume_pairs rest)) as [v|] eqn:Hget.
      * exfalso. apply Hnotin. apply zdict_get_in in Hget.
        apply (in_map fst) in Hget. exact Hget.
      * apply dict_get_set_same.
    + apply Z.eqb_neq in Hk. rewrite dict_get_set_other by exact Hk. reflexivity.
Qed.

Lemma restore_all_sessions_unfold :
  forall steps step_ms h a,
    PYCAW_OK a = true ->
    _saved_sessions a <> [] ->
    restore_all_sessions steps step_ms h a
    = (true, after 0 (RestoreStep 1 steps step_ms
                                  (build_vol_map (_get_all_audio_sessions h a) [])) a).
Proof.
  intros steps step_ms h a Hpycaw Hne. unfold restore_all_sessions. rewrite Hpycaw.
  destruct (_saved_sessions a); [contradiction | reflexivity].
Qed.

Lemma restore_step_agrees :
  forall (H : list handle) (i steps step_ms : Z) (vol_map : zdict handle) h a,
    incl (map fst (forced_writes vol_map (_saved_sessions a))) H ->
    agrees_off H h (fst (restore_step i steps step_ms vol_map h a)).
Proof.
  intros H i steps step_ms vol_map h a Hincl. unfold restore_step.
  destruct (steps =? 0); [apply agrees_off_refl|].
  destruct (i <? steps); cbn [fst].
  - apply restore_ramp_pass_agrees. exact Hincl.
  - eapply agrees_off_trans.
    + apply restore_ramp_pass_agrees. exact Hincl.
    + rewrite restore_force_is_writes. apply apply_writes_agrees. exact Hincl.
Qed.

(** The stages of one restore ramp only write the interfaces [vol_map]
    holds for the tracked keys. *)
Lemma restore_ramp_run_agrees :
  forall (H : list handle) (steps step_ms : Z) (vol_map : zdict handle),
    steps <> 0 ->
    0 <= step_ms ->
    forall (n : nat) (i due : Z) (h : Host) (a : App) (q1 q2 : list (Z * timer)),
      i + Z.of_nat n = steps ->
      now_ms a <= due ->
      after_queue a = q1 ++ (due, RestoreStep i steps step_ms vol_map) :: q2 ->
      due_after (due + Z.of_nat n * step_ms) (q1 ++ q2) ->
      incl (map fst (forced_writes vol_map (_saved_sessions a))) H ->
      agrees_off H h (fst (run_turns (S n) h a)).
Proof.
  intros H steps step_ms vol_map Hsteps Hms n.
  induction n as [|n IH]; intros i due h a q1 q2 Hi Hnow Hq Hlater Hincl.
  - cbn [run_turns]. unfold run_next. rewrite Hq.
    rewrite pop_earliest_due_first
      by (eapply due_after_earlier; [|exact Hlater]; lia).
    cbn [run_timer].
    match goal with
    | |- context [restore_step ?i1 ?s1 ?m1 ?v1 ?h1 ?a1] =>
        pose proof (restore_step_agrees H i1 s1 m1 v1 h1 a1 Hincl) as Hst;
        destruct (restore_step i1 s1 m1 v1 h1 a1) as [h' a']
    end.
    exact Hst.
  - rewrite Nat2Z.inj_succ in Hi.
    assert (Hlt : (i <? steps) = true) by (apply Z.ltb_lt; lia).
    change (run_turns (S (S n)) h a)
      with (let '(h', a') := run_next h a in run_turns (S n) h' a').
    unfold run_next. rewrite Hq.
    rewrite pop_earliest_due_first
      by (eapply due_after_earlier; [|exact Hlater]; lia).
    cbn [run_timer].
    unfold restore_step at 1. apply Z.eqb_neq in Hsteps. rewrite Hsteps, Hlt.
    apply Z.eqb_neq in Hsteps.
    eapply agrees_off_trans.
    + apply (restore_ramp_pass_agrees H). exact Hincl.
    + apply (IH (i + 1) (Z.max (now_ms a) due + step_ms) _ _ (q1 ++ q2) []).
      * lia.
      * app_simpl. lia.
      * reflexivity.
      * rewrite app_nil_r. eapply due_after_earlier; [|exact Hlater].
        rewrite Nat2Z.inj_succ. nia.
      * exact Hincl.
Qed.

(** The round trip of a duck ramp and a restore ramp, for any parameters. *)
Lemma duck_restore_gives_volumes_back :
  forall target exclude_pids dsteps dstep_ms rsteps rstep_ms h a,
    PYCAW_OK a = true ->
    _duck_active a = false ->
    1 <= dsteps ->
    0 <= dstep_ms ->
    1 <= rsteps ->
    0 <= rstep_ms ->
    due_after (now_ms a + (dsteps - 1) * dstep_ms + (rsteps - 1) * rstep_ms)
              (after_queue a) ->
    duckable_pairs h (match exclude_pids with Some e => e | None => [] end)
                   (_get_all_audio_sessions h a) <> [] ->
    NoDup (map fst (volume_pairs (_get_all_audio_sessions h a))) ->
    NoDup (map snd (volume_pairs (_get_all_audio_sessions h a))) ->
    (forall key vol,
        In (key, vol) (duckable_pairs h (match exclude_pids with Some e => e | None => [] end)
                                      (_get_all_audio_sessions h a)) ->
        MasterVolume h vol <> None) ->
    let w2 := run_turns (Z.to_nat dsteps) h
                        (snd (duck_all_sessions target exclude_pids dsteps dstep_ms h a)) in
    let w3 := run_turns (Z.to_nat rsteps) (fst w2)
                        (snd (restore_all_sessions rsteps rstep_ms (fst w2) (snd w2))) in
    (forall x, MasterVolume (fst w3) x = MasterVolume h x)
    /\ _saved_sessions (snd w3) = []
    /\ _duck_active (snd w3) = false
    /\ after_queue (snd w3) = after_queue a.
Proof.
  intros target exclude_pids dsteps dstep_ms rsteps rstep_ms h a
         Hpycaw Hinactive Hd Hdms Hr Hrms Hlater Hsome Hkeys Hhandles Hlive w2 w3.
  set (excl := match exclude_pids with Some e => e | None => [] end) in *.
  set (sessions := _get_all_audio_sessions h a) in *.
  set (to_duck := duckable_pairs h excl sessions) in *.
  (* the state after the duck ramp *)
  assert (Hlater2 : due_after (now_ms a + (dsteps - 1) * dstep_ms) (after_queue a))
    by (eapply due_after_earlier; [|exact Hlater]; nia).
  destruct (duck_run_summary target exclude_pids dsteps dstep_ms h a
              Hpycaw Hd Hdms Hlater2 Hsome)
    as (_ & Hact2 & Hq2 & Hsaved2 & Hpy2 & _ & Hnow2 & Hagree2).
  fold excl sessions to_duck w2 in Hact2, Hq2, Hsaved2, Hpy2, Hnow2, Hagree2.
  (* the baselines it recorded *)
  assert (Hbase : forall k,
             PyDict.get Z.eqb k (_saved_sessions (snd w2))
             = option_map (read_volume h) (PyDict.get Z.eqb k to_duck)).
  { intros k. rewrite Hsaved2.
    rewrite (duck_all_sessions_unfold target exclude_pids dsteps dstep_ms h a Hpycaw).
    cbv zeta. fold excl sessions to_duck. rewrite Hinactive. cbn [negb snd].
    assert (Hs : forall b c : App,
               _saved_sessions (match to_duck with
                                | [] => set_duck_active true
                                          (set_saved_sessions
                                             (fst (capture h excl sessions [] [])) b)
                                | _ :: _ => after 0 (DuckStep 1 target dsteps dstep_ms to_duck)
                                              (set_saved_sessions
                                                 (fst (capture h excl sessions [] [])) c)
                                end) = fst (capture h excl sessions [] []))
      by (intros; destruct to_duck; reflexivity).
    app_simpl. rewrite Hs. rewrite capture_saved_spec. reflexivity. }
  assert (Hsaved_keys : NoDup (map fst (_saved_sessions (snd w2)))).
  { rewrite Hsaved2.
    rewrite (duck_all_sessions_unfold target exclude_pids dsteps dstep_ms h a Hpycaw).
    cbv zeta. fold excl sessions to_duck. rewrite Hinactive. cbn [negb snd]. app_simpl.
    destruct to_duck; app_simpl; apply capture_unique_keys; constructor. }
  assert (Htracked : forall key vol,
             In (key, vol) to_duck ->
             In (key, read_volume h vol) (_saved_sessions (snd w2))).
  { intros key vol Hin. apply zdict_get_in. rewrite Hbase.
    destruct (PyDict.get Z.eqb key to_duck) as [vol'|] eqn:Hget.
    - apply zdict_get_in in Hget.
      assert (vol' = vol).
      { apply (unique_value_of_key _ key vol' vol (volume_pairs sessions) Hkeys);
          apply (duckable_in_volume_pairs h excl); assumption. }
      subst vol'. reflexivity.
    - exfalso. clear - Hin Hget. induction to_duck as [|[k v] l IH]; [contradiction|].
      cbn [PyDict.get] in Hget. destruct (key =? k) eqn:Hk; [discriminate|].
      destruct Hin as [Heq | Hin]; [|exact (IH Hin Hget)].
      inversion Heq; subst. rewrite Z.eqb_refl in Hk. discriminate. }
  assert (Hne : _saved_sessions (snd w2) <> []).
  { destruct to_duck as [|[key vol] rest] eqn:Htd; [contradiction|].
    intros Hnil. pose proof (Htracked key vol (or_introl eq_refl)) as Hin.
    rewrite Hnil in Hin. contradiction. }
  (* restore sees the same sessions *)
  assert (Hsess : _get_all_audio_sessions (fst w2) (snd w2) = sessions).
  { unfold _get_all_audio_sessions in *. subst sessions.
    destruct Hagree2 as (_ & _ & Henum & _). rewrite Hpy2, Hpycaw, Henum. reflexivity. }
  set (vol_map := build_vol_map sessions []).
  assert (Hmap : forall key vol, In (key, vol) (volume_pairs sessions) ->
                                 PyDict.get Z.eqb key vol_map = Some vol).
  { intros key vol Hin. subst vol_map. rewrite build_vol_map_spec by exact Hkeys.
    rewrite (zdict_in_get _ _ _ _ Hkeys Hin). reflexivity. }
  assert (Hwrites : forall vol orig,
             In (vol, orig) (forced_writes vol_map (_saved_sessions (snd w2))) ->
             In (vol : handle) (map snd to_duck)).
  { intros vol orig Hin. unfold forced_writes in Hin. apply in_flat_map in Hin.
    destruct Hin as ([key orig'] & Hsaved & Hone).
    destruct (PyDict.get Z.eqb key vol_map) as [vol'|] eqn:Hget; [|contradiction].
    destruct Hone as [Heq | []]. inversion Heq; subst.
    apply (zdict_in_get _ _ _ _ Hsaved_keys) in Hsaved. rewrite Hbase in Hsaved.
    destruct (PyDict.get Z.eqb key to_duck) as [vol2|] eqn:Hget2; [|discriminate].
    apply zdict_get_in in Hget2.
    rewrite (Hmap key vol2 (duckable_in_volume_pairs h excl sessions _ Hget2)) in Hget.
    inversion Hget; subst. apply (in_map snd) in Hget2. exact Hget2. }
  assert (Hone : NoDup (map fst (forced_writes vol_map (_saved_sessions (snd w2))))).
  { apply forced_writes_one_per_handle; [exact Hsaved_keys|].
    intros k1 k2 vol Hk1 Hk2 H1 H2. subst vol_map.
    rewrite build_vol_map_spec in H1, H2 by exact Hkeys. cbn [PyDict.get] in H1, H2.
    destruct (PyDict.get Z.eqb k1 (volume_pairs sessions)) eqn:E1; [|discriminate].
    destruct (PyDict.get Z.eqb k2 (volume_pairs sessions)) eqn:E2; [|discriminate].
    inversion H1; inversion H2; subst.
    apply zdict_get_in in E1. apply zdict_get_in in E2.
    exact (unique_key_of_handle k1 k2 vol _ Hhandles E1 E2). }
  (* the restore ramp *)
  destruct (restore_all_sessions_completes rsteps rstep_ms (fst w2) (snd w2) Hpy2)
    as (_ & Hfull).
  rewrite Hsess in Hfull. fold vol_map in Hfull.
  assert (Hlater3 : due_after (now_ms (snd w2) + (rsteps - 1) * rstep_ms)
                              (after_queue (snd w2)))
    by (rewrite Hnow2, Hq2; exact Hlater).
  destruct (Hfull Hne Hr Hrms Hlater3 Hone) as (_ & Hvols & Hcleared & Hoff & Hq3).
  fold w3 in Hvols, Hcleared, Hoff, Hq3.
  assert (Hagree3 : agrees_off (map snd to_duck) (fst w2) (fst w3)).
  { subst w3.
    rewrite (restore_all_sessions_unfold rsteps rstep_ms (fst w2) (snd w2) Hpy2 Hne).
    rewrite Hsess. fold vol_map. cbn [snd].
    replace (Z.to_nat rsteps) with (S (Z.to_nat rsteps - 1)) by lia.
    apply (restore_ramp_run_agrees (map snd to_duck) rsteps rstep_ms vol_map ltac:(lia) Hrms
             (Z.to_nat rsteps - 1) 1 (now_ms (snd w2) + 0) _ _ (after_queue (snd w2)) []).
    - lia.
    - app_simpl. lia.
    - reflexivity.
    - rewrite app_nil_r. eapply due_after_earlier; [|exact Hlater3].
      replace (Z.of_nat (Z.to_nat rsteps - 1)) with (rsteps - 1) by lia. lia.
    - app_simpl. intros vol Hin. apply in_map_iff in Hin.
      destruct Hin as ([vol' orig] & Hfst & Hin). cbn [fst] in Hfst. subst vol'.
      exact (Hwrites vol orig Hin). }
  split; [|split; [exact Hcleared | split; [exact Hoff | rewrite Hq3; exact Hq2]]].
  intros x.
  destruct (in_dec Z.eq_dec x (map snd to_duck)) as [Hin | Hout].
  - apply in_map_iff in Hin. destruct Hin as ([key vol] & Hx & Hin).
    cbn [snd] in Hx. subst vol.
    pose proof (Hlive key x Hin) as Hread.
    rewrite (Hvols key (read_volume h x) x).
    + unfold read_volume, GetMasterVolume.
      destruct (MasterVolume h x); [reflexivity | contradiction].
    + apply Htracked. exact Hin.
    + apply Hmap. apply (duckable_in_volume_pairs h excl). exact Hin.
    + destruct Hagree2 as (_ & Halive & _). rewrite Halive. exact Hread.
  - destruct Hagree3 as (Hother3 & _). destruct Hagree2 as (Hother2 & _).
    rewrite Hother3, Hother2 by exact Hout. reflexivity.
Qed.

(** X4. Duck, then restore, gives every volume back.  With pycaw present,
    an inactive episode, every other timer due later than the last stage of
    the second ramp, at least one session to duck, every session enumerated
    owned by a process (so that its key is its pid at both enumerations), one
    session per key and one interface per session, and every ducked session's
    volume readable: after the duck call and the turns of its ramp, then the
    restore call and the turns of its ramp, every volume of the host is what
    it was before the duck call, no session is tracked, the episode is
    inactive and the other timers are still queued. *)
Theorem duck_then_restore_round_trip :
  forall target exclude_pids dsteps dstep_ms rsteps rstep_ms h a,
    PYCAW_OK a = true ->
    _duck_active a = false ->
    1 <= dsteps ->
    0 <= dstep_ms ->
    1 <= rsteps ->
    0 <= rstep_ms ->
    due_after (now_ms a + (dsteps - 1) * dstep_ms + (rsteps - 1) * rstep_ms)
              (after_queue a) ->
    duckable_pairs h (match exclude_pids with Some e => e | None => [] end)
                   (_get_all_audio_sessions h a) <> [] ->
    (forall s, In s (_get_all_audio_sessions h a) -> s_pid s <> None) ->
    NoDup (map fst (volume_pairs (_get_all_audio_sessions h a))) ->
    NoDup (map snd (volume_pairs (_get_all_audio_sessions h a))) ->
    (forall key vol,
        In (key, vol) (duckable_pairs h (match exclude_pids with Some e => e | None => [] end)
                                      (_get_all_audio_sessions h a)) ->
        MasterVolume h vol <> None) ->
    let w2 := run_turns (Z.to_nat dsteps) h
                        (snd (duck_all_sessions target exclude_pids dsteps dstep_ms h a)) in
    let w3 := run_turns (Z.to_nat rsteps) (fst w2)
                        (snd (restore_all_sessions rsteps rstep_ms (fst w2) (snd w2))) in
    (forall x, MasterVolume (fst w3) x = MasterVolume h x)
    /\ _saved_sessions (snd w3) = []
    /\ _duck_active (snd w3) = false
    /\ after_queue (snd w3) = after_queue a.
Proof.
  intros target exclude_pids dsteps dstep_ms rsteps rstep_ms h a
         Hpycaw Hinactive Hd Hdms Hr Hrms Hlater Hsome Hpids Hkeys Hhandles Hlive.
  apply duck_restore_gives_volumes_back; assumption.
Qed.

Lemma duck_then_restore_round_trip_witness :
  (forall x,
      MasterVolume
        (fst (run_turns (Z.to_nat 10)
                (fst (run_turns (Z.to_nat 6) host_office
                        (snd (duck_all_sessions 0.06 (Some [999]) 6 120
                                                host_office app_armed))))
                (snd (restore_all_sessions 10 150
                        (fst (run_turns (Z.to_nat 6) host_office
                                (snd (duck_all_sessions 0.06 (Some [999]) 6 120
                                                        host_office app_armed))))
                        (snd (run_turns (Z.to_nat 6) host_office
                                (snd (duck_all_sessions 0.06 (Some [999]) 6 120
                                                        host_office app_armed)))))))) x
      = MasterVolume host_office x)
  /\ MasterVolume
       (fst (run_turns (Z.to_nat 6) host_office
               (snd (duck_all_sessions 0.06 (Some [999]) 6 120 host_office app_armed)))) 1
     <> MasterVolume host_office 1.
Proof.
  destruct (duck_then_restore_round_trip 0.06 (Some [999]) 6 120 10 150 host_office app_armed)
    as (Hback & _).
  - reflexivity.
  - reflexivity.
  - lia.
  - lia.
  - lia.
  - lia.
  - intros due f Hin. vm_compute in Hin.
    destruct Hin as [Heq | []]. inversion Heq. vm_compute. reflexivity.
  - vm_compute. discriminate.
  - intros s [Hs | [Hs | [Hs | []]]]; subst s; discriminate.
  - vm_compute. repeat constructor; cbn; intuition discriminate.
  - vm_compute. repeat constructor; cbn; intuition discriminate.
  - intros key vol Hin. vm_compute in Hin.
    destruct Hin as [Heq | [Heq | []]]; inversion Heq; subst; vm_compute; discriminate.
  - split; [exact Hback | vm_compute; discriminate].
Defined.

(** ** The shape of the ramps *)

Lemma ramp_fraction_bounds :
  forall i j steps : Z,
    0 <= i -> i <= j -> j <= steps -> 0 < steps ->
    (0 <= inject_Z i / inject_Z steps)%Q
    /\ (inject_Z i / inject_Z steps <= inject_Z j / inject_Z steps)%Q
    /\ (inject_Z j / inject_Z steps <= 1)%Q.
Proof.
  intros i j steps Hi Hij Hj Hs.
  assert (Hinv : (0 <= / inject_Z steps)%Q).
  { apply Qinv_le_0_compat. change 0%Q with (inject_Z 0). rewrite <- Zle_Qle. lia. }
  assert (Hmono : forall x y : Z, x <= y ->
                    (inject_Z x / inject_Z steps <= inject_Z y / inject_Z steps)%Q).
  { intros x y Hxy. unfold Qdiv. apply Qmult_le_compat_r; [|exact Hinv].
    rewrite <- Zle_Qle. exact Hxy. }
  assert (Hone : (inject_Z steps / inject_Z steps == 1)%Q).
  { field. unfold Qeq, inject_Z. cbn. lia. }
  split; [|split].
  - assert (H0 : (inject_Z 0 / inject_Z steps == 0)%Q) by (unfold Qdiv; ring).
    rewrite <- H0. apply Hmono. exact Hi.
  - apply Hmono. exact Hij.
  - rewrite <- Hone. apply Hmono. exact Hj.
Qed.

Lemma clamp01_id : forall x, (0 <= x <= 1)%Q -> (clamp01 x == x)%Q.
Proof.
  intros x [H0 H1]. unfold clamp01, py_max, py_min.
  destruct (Qle_bool 1 x) eqn:E1.
  - apply Qle_bool_iff in E1. cbn. lra.
  - destruct (Qle_bool x 0) eqn:E0; [|reflexivity].
    apply Qle_bool_iff in E0. lra.
Qed.

(** X5. For a baseline and a target in [[0, 1]] and a stage [i] with
    [0 <= i < steps], the clamp changes nothing and the duck ramp is
    monotone from the baseline: going down ([target <= b]) stage [i + 1] is
    at or below stage [i], which is at or below the baseline; going up, the
    mirror image. *)
Theorem duck_ramp_monotone :
  forall (target b : Q) (steps i : Z),
    0 < steps -> 0 <= i -> i < steps ->
    (0 <= target <= 1)%Q -> (0 <= b <= 1)%Q ->
    (duck_value target b (inject_Z i / inject_Z steps)
     == b + (target - b) * (inject_Z i / inject_Z steps))%Q
    /\ (target <= b ->
        duck_value target b (inject_Z (i + 1) / inject_Z steps)
        <= duck_value target b (inject_Z i / inject_Z steps)
        /\ duck_value target b (inject_Z i / inject_Z steps) <= b)%Q
    /\ (b <= target ->
        b <= duck_value target b (inject_Z i / inject_Z steps)
        /\ duck_value target b (inject_Z i / inject_Z steps)
           <= duck_value target b (inject_Z (i + 1) / inject_Z steps))%Q.
Proof.
  intros target b steps i Hs Hi Hlt Ht Hb.
  destruct (ramp_fraction_bounds i (i + 1) steps Hi ltac:(lia) ltac:(lia) Hs)
    as (H0 & H12 & H1).
  set (t1 := (inject_Z i / inject_Z steps)%Q) in *.
  set (t2 := (inject_Z (i + 1) / inject_Z steps)%Q) in *.
  assert (Hid1 : (duck_value target b t1 == b + (target - b) * t1)%Q).
  { unfold duck_value. apply clamp01_id. split; nra. }
  assert (Hid2 : (duck_value target b t2 == b + (target - b) * t2)%Q).
  { unfold duck_value. apply clamp01_id. split; nra. }
  split; [exact Hid1|]. split; intros Hdir; rewrite Hid1, Hid2; repeat split; nra.
Qed.

Lemma duck_ramp_monotone_witness :
  (duck_value 0.06 1 (inject_Z (2 + 1) / inject_Z 6)
   <= duck_value 0.06 1 (inject_Z 2 / inject_Z 6)
   /\ duck_value 0.06 1 (inject_Z 2 / inject_Z 6) <= 1)%Q.
Proof.
  destruct (duck_ramp_monotone 0.06 1 6 2) as (_ & Hdown & _); try lia.
  - split; discriminate.
  - split; discriminate.
  - apply Hdown. discriminate.
Defined.

Lemma restore_ramp_pass_value :
  forall t vol_map items h key orig vol,
    NoDup (map fst (forced_writes vol_map items)) ->
    In (key, orig) items ->
    PyDict.get Z.eqb key vol_map = Some vol ->
    MasterVolume h vol <> None ->
    MasterVolume (restore_ramp_pass t vol_map items h) vol
    = Some (restore_value (match MasterVolume h vol with Some c => c | None => orig end)
                          orig t).
Proof.
  intros t vol_map items. unfold restore_ramp_pass.
  induction items as [|[k o] items IH]; intros h key orig vol Hnd Hin Hmap Hlive;
    [contradiction|].
  cbn [fold_left forced_writes flat_map] in *. fold (forced_writes vol_map items) in Hnd.
  destruct Hin as [Heq | Hin].
  - inversion Heq; subst. rewrite Hmap in *. cbn [app map fst] in Hnd.
    inversion Hnd as [|? ? Hnotin Hnd']; subst.
    fold (restore_ramp_pass t vol_map items
            (try_SetMasterVolume vol
               (clamp01 (match GetMasterVolume h vol with Some c => c | None => orig end
                         + (orig - match GetMasterVolume h vol with
                                   | Some c => c | None => orig end) * t)) h)).
    destruct (restore_ramp_pass_agrees (map fst (forced_writes vol_map items)) t vol_map
                items
                (try_SetMasterVolume vol
                   (clamp01 (match GetMasterVolume h vol with Some c => c | None => orig end
                             + (orig - match GetMasterVolume h vol with
                                       | Some c => c | None => orig end) * t)) h)
                (incl_refl _)) as (Hother & _).
    rewrite Hother by exact Hnotin. rewrite try_set_same by exact Hlive. reflexivity.
  - destruct (PyDict.get Z.eqb k vol_map) as [vol0|] eqn:Hk.
    + cbn [app map fst] in Hnd. inversion Hnd as [|? ? Hnotin Hnd']; subst.
      assert (Hne : vol <> vol0).
      { intros Heq. subst vol0. apply Hnotin. apply in_map_iff.
        exists (vol, orig). split; [reflexivity|]. unfold forced_writes.
        apply in_flat_map. exists (key, orig). split; [exact Hin|].
        rewrite Hmap. left. reflexivity. }
      rewrite (IH _ key orig vol Hnd' Hin Hmap).
      * rewrite try_set_other by exact Hne. reflexivity.
      * rewrite try_set_alive. exact Hlive.
    + apply (IH h key orig vol); assumption.
Qed.

(** X6. A stage [i] of the restore ramp before the last sets every tracked
    session that restore found (its interface alive and its own) to
    [cur + (orig - cur) * (i / steps)] clamped to [[0, 1]], where [cur] is
    the session's volume when the stage runs and [orig] its baseline, and
    queues the next stage; for volumes in [[0, 1]] and [0 <= i <= steps] the
    value lies between [cur] and [orig]: the ramp never overshoots. *)
Theorem restore_stage_moves_toward_baseline :
  forall (i steps step_ms : Z) (vol_map : zdict handle) (h : Host) (a : App)
         (key : Z) (orig cur : Q) (vol : handle),
    0 < steps -> i < steps ->
    NoDup (map fst (forced_writes vol_map (_saved_sessions a))) ->
    In (key, orig) (_saved_sessions a) ->
    PyDict.get Z.eqb key vol_map = Some vol ->
    MasterVolume h vol = Some cur ->
    MasterVolume (fst (restore_step i steps step_ms vol_map h a)) vol
    = Some (clamp01 (cur + (orig - cur) * (inject_Z i / inject_Z steps))%Q)
    /\ snd (restore_step i steps step_ms vol_map h a)
       = after step_ms (RestoreStep (i + 1) steps step_ms vol_map) a
    /\ (0 <= i -> (0 <= cur <= 1)%Q -> (0 <= orig <= 1)%Q ->
        (cur <= orig ->
         cur <= clamp01 (cur + (orig - cur) * (inject_Z i / inject_Z steps)) <= orig)%Q
        /\ (orig <= cur ->
            orig <= clamp01 (cur + (orig - cur) * (inject_Z i / inject_Z steps)) <= cur)%Q).
Proof.
  intros i steps step_ms vol_map h a key orig cur vol Hs Hlt Hnd Hin Hmap Hcur.
  unfold restore_step.
  assert (Hs0 : (steps =? 0) = false) by (apply Z.eqb_neq; lia).
  assert (Hlt' : (i <? steps) = true) by (apply Z.ltb_lt; exact Hlt).
  rewrite Hs0, Hlt'. cbn [fst snd]. split; [|split; [reflexivity|]].
  - rewrite (restore_ramp_pass_value _ vol_map _ h key orig vol Hnd Hin Hmap)
      by (rewrite Hcur; discriminate).
    rewrite Hcur. reflexivity.
  - intros Hi Hc Ho.
    destruct (ramp_fraction_bounds i i steps Hi ltac:(lia) ltac:(lia) Hs) as (H0 & _ & H1).
    set (t := (inject_Z i / inject_Z steps)%Q) in *.
    assert (Hid : (clamp01 (cur + (orig - cur) * t) == cur + (orig - cur) * t)%Q).
    { apply clamp01_id. split; nra. }
    split; intros Hdir; rewrite Hid; split; nra.
Qed.

Lemma restore_stage_moves_toward_baseline_witness :
  MasterVolume (fst (restore_step 3 10 150 [(7, 1); (999, 2); (102, 3)]
                                  host_quiet app_ducking)) 3
  = Some (clamp01 ((1 # 4) + ((1 # 2) - (1 # 4)) * (inject_Z 3 / inject_Z 10))%Q)
  /\ snd (restore_step 3 10 150 [(7, 1); (999, 2); (102, 3)] host_quiet app_ducking)
     = after 150 (RestoreStep (3 + 1) 10 150 [(7, 1); (999, 2); (102, 3)]) app_ducking.
Proof.
  destruct (restore_stage_moves_toward_baseline
              3 10 150 [(7, 1); (999, 2); (102, 3)] host_quiet app_ducking
              102 (1 # 2) (1 # 4) 3) as (Hval & Hnext & _).
  - lia.
  - lia.
  - vm_compute. repeat constructor; cbn; intuition discriminate.
  - vm_compute. right. left. reflexivity.
  - reflexivity.
  - reflexivity.
  - split; [exact Hval | exact Hnext].
Defined.

(** ** A tick while a playback is in progress *)

Lemma rejected_refl : forall a, rejected 0 a a.
Proof.
  intros a. unfold rejected. rewrite Nat.add_0_r. repeat split.
Qed.

Lemma rejected_trans :
  forall n m a b c, rejected n a b -> rejected m b c -> rejected (n + m) a c.
Proof.
  intros n m a b c (Ht1 & Hp1 & Hl1 & Hc1) (Ht2 & Hp2 & Hl2 & Hc2).
  unfold rejected. rewrite Ht2, Ht1, Hp2, Hp1, Hl2, Hl1, Hc2, Hc1.
  repeat split. lia.
Qed.

Lemma play_media_async_rejected :
  forall path r a, _is_playing a = true -> rejected 1 a (play_media_async path r a).
Proof.
  intros path r a Hbusy. unfold play_media_async. rewrite Hbusy.
  unfold rejected. app_simpl. rewrite count_info_app. repeat split.
Qed.

Lemma duck_all_sessions_rejected :
  forall target exclude_pids steps step_ms h a,
    rejected 0 a (snd (duck_all_sessions target exclude_pids steps step_ms h a)).
Proof.
  intros target exclude_pids steps step_ms h a. unfold rejected, duck_all_sessions.
  destruct (negb (PYCAW_OK a)).
  - cbn [snd]. app_simpl. rewrite count_info_app. repeat split.
  - destruct (capture _ _ _ _ _) as [saved to_duck].
    destruct (negb (_duck_active a)), to_duck; cbn; rewrite Nat.add_0_r; repeat split.
Qed.

Lemma play_media_times_rejected :
  forall now m a,
    _is_playing a = true ->
    rejected (List.length (item_requests now m)) a (play_media_times now m a).
Proof.
  intros now m. unfold play_media_times, item_requests.
  induction (match m_times m with Some ts => ts | None => [] end) as [|t ts IH];
    intros a Hbusy; cbn [fold_left filter map List.length].
  - apply rejected_refl.
  - destruct (String.eqb t now); cbn [map List.length].
    + pose proof (play_media_async_rejected (m_path m) (media_repeats m) a Hbusy) as H1.
      assert (H2 := H1). destruct H2 as (_ & Hp & _).
      change (S ?n) with (1 + n)%nat.
      eapply rejected_trans; [exact H1|]. apply IH. rewrite Hp. exact Hbusy.
    + apply IH. exact Hbusy.
Qed.

Lemma files_times_rejected :
  forall now files a,
    _is_playing a = true ->
    rejected (List.length (flat_map (item_requests now) files)) a
             (fold_left (fun a m => play_media_times now m a) files a).
Proof.
  intros now files. induction files as [|m files IH]; intros a Hbusy;
    cbn [fold_left flat_map].
  - apply rejected_refl.
  - rewrite length_app.
    pose proof (play_media_times_rejected now m a Hbusy) as H1.
    assert (H2 := H1). destruct H2 as (_ & Hp & _).
    eapply rejected_trans; [exact H1|]. apply IH. rewrite Hp. exact Hbusy.
Qed.

Lemma play_playlist_files_rejected :
  forall h files a,
    _is_playing a = true ->
    rejected (List.length (map media_request files)) a
             (fold_left
                (fun a m =>
                   let a := snd (duck_all_sessions 0.06 (Some [getpid h]) 6 120 h a) in
                   play_media_async (m_path m) (media_repeats m) a)
                files a).
Proof.
  intros h files. induction files as [|m files IH]; intros a Hbusy;
    cbn [fold_left map List.length].
  - apply rejected_refl.
  - pose proof (duck_all_sessions_rejected 0.06 (Some [getpid h]) 6 120 h a) as H0.
    assert (Hbusy0 : _is_playing (snd (duck_all_sessions 0.06 (Some [getpid h]) 6 120 h a))
                     = true).
    { destruct H0 as (_ & Hp & _). rewrite Hp. exact Hbusy. }
    pose proof (play_media_async_rejected (m_path m) (media_repeats m) _ Hbusy0) as H1.
    pose proof (rejected_trans _ _ _ _ _ H0 H1) as H2. cbn [Nat.add] in H2.
    assert (H3 := H2). destruct H3 as (_ & Hp & _).
    change (S ?n) with (1 + n)%nat.
    eapply rejected_trans; [exact H2|]. apply IH. rewrite Hp. exact Hbusy.
Qed.

Lemma tick_loop_rejected :
  forall h now items a,
    _is_playing a = true ->
    (forall name pl, In (name, pl) items ->
                     PyDict.get String.eqb name (playlists a) = Some pl) ->
    (forall name pl, In (name, pl) items -> pl_files pl <> None) ->
    exists a', tick_loop h now items a = (a', true)
               /\ rejected (List.length (tick_requests now items)) a a'.
Proof.
  intros h now items. induction items as [|[name pl] items IH];
    intros a Hbusy Hget Hfiles; cbn [tick_loop tick_requests flat_map].
  - exists a. split; [reflexivity | apply rejected_refl].
  - assert (Hget' : forall n p, In (n, p) items ->
                                PyDict.get String.eqb n (playlists a) = Some p)
      by (intros; apply Hget; right; assumption).
    assert (Hfiles' : forall n p, In (n, p) items -> pl_files p <> None)
      by (intros n p Hin; apply (Hfiles n p); right; assumption).
    fold (tick_requests now items). rewrite length_app.
    unfold playlist_requests at 1.
    destruct (playlist_active pl) eqn:Hact; cbn [negb].
    2:{ destruct (IH a Hbusy Hget' Hfiles') as (a' & Hrun & Hrej).
        exists a'. split; [exact Hrun | exact Hrej]. }
    destruct (pl_files pl) as [files|] eqn:Hf;
      [|exfalso; apply (Hfiles name pl); [left; reflexivity | exact Hf]].
    rewrite length_app.
    assert (Hplay : exists a1,
               (if playlist_due now pl then _play_playlist h name a else (a, true))
               = (a1, true)
               /\ rejected (List.length (if playlist_due now pl
                                         then map media_request files else [])) a a1).
    { destruct (playlist_due now pl).
      - unfold _play_playlist. rewrite (Hget name pl (or_introl eq_refl)), Hf.
        eexists. split; [reflexivity|]. apply play_playlist_files_rejected. exact Hbusy.
      - exists a. split; [reflexivity | apply rejected_refl]. }
    destruct Hplay as (a1 & Hrun1 & Hrej1). rewrite Hrun1.
    assert (Hbusy1 : _is_playing a1 = true)
      by (destruct Hrej1 as (_ & Hp & _); rewrite Hp; exact Hbusy).
    pose proof (files_times_rejected now files a1 Hbusy1) as Hrej2.
    set (a2 := fold_left (fun a m => play_media_times now m a) files a1) in *.
    pose proof (rejected_trans _ _ _ _ _ Hrej1 Hrej2) as Hrej12.
    assert (Hbusy2 : _is_playing a2 = true)
      by (destruct Hrej12 as (_ & Hp & _); rewrite Hp; exact Hbusy).
    assert (Hpl2 : playlists a2 = playlists a) by apply Hrej12.
    destruct (IH a2 Hbusy2) as (a' & Hrun & Hrej).
    + intros n p Hin. rewrite Hpl2. apply Hget'. exact Hin.
    + exact Hfiles'.
    + exists a'. split; [exact Hrun|].
      eapply rejected_trans; [exact Hrej12 | exact Hrej].
Qed.

(** X7. A tick that comes while a playback is in progress starts no worker:
    every request it makes (as many as [tick_requests] lists) is answered by
    the busy dialog, the playback flag stays set, and the tick still re-arms
    itself. *)
Theorem schedule_tick_while_playing :
  forall (h : Host) (a : App),
    _is_playing a = true ->
    NoDup (map fst (playlists a)) ->
    (forall name pl, In (name, pl) (playlists a) -> pl_files pl <> None) ->
    threads (_schedule_tick h a) = threads a
    /\ _is_playing (_schedule_tick h a) = true
    /\ count_info (trace (_schedule_tick h a))
       = (count_info (trace a)
          + List.length (tick_requests (strftime_HM h) (playlists a)))%nat
    /\ exists due, In (due, ScheduleTick) (after_queue (_schedule_tick h a)).
Proof.
  intros h a Hbusy Hnodup Hfiles.
  destruct (tick_loop_rejected h (strftime_HM h) (playlists a) a Hbusy)
    as (a1 & Hrun & Hth & Hp & _ & Hcount).
  { intros name pl Hin. apply dict_get_in; assumption. }
  { exact Hfiles. }
  unfold _schedule_tick. rewrite Hrun. app_simpl.
  split; [exact Hth|]. split; [rewrite Hp; exact Hbusy|]. split; [exact Hcount|].
  eexists. apply in_or_app. right. left. reflexivity.
Qed.

Lemma schedule_tick_while_playing_witness :
  threads (_schedule_tick host_demo app_two_playlists_playing) = []
  /\ count_info (trace (_schedule_tick host_demo app_two_playlists_playing)) = 3%nat.
Proof.
  destruct (schedule_tick_while_playing host_demo app_two_playlists_playing)
    as (Hth & _ & Hcount & _).
  - reflexivity.
  - repeat constructor; cbn; intuition discriminate.
  - intros name pl [Heq | [Heq | []]]; inversion Heq; subst; discriminate.
  - split; [exact Hth | exact Hcount].
Defined.

(** ** A repetition that fails *)

Lemma play_loop_fails_at :
  forall (mx : Mixer) (polls : nat -> nat) (o : play_outcome) (k n k0 : nat),
    (forall j, (j < k)%nat -> outcome mx (k0 + j) = Completes (polls (k0 + j)%nat)) ->
    outcome mx (k0 + k) = o ->
    (forall p, o <> Completes p) ->
    o <> StaysBusy ->
    (k < n)%nat ->
    play_loop mx k0 n
    = Some (flat_map (fun j => MixerPlay :: repeat Sleep80 (polls j)) (seq k0 k)
            ++ failure_events o, false).
Proof.
  intros mx polls o k. induction k as [|k IH]; intros n k0 Hok Hfail Hbad Hends Hlt.
  - destruct n as [|n]; [lia|]. cbn [play_loop seq flat_map app].
    rewrite Nat.add_0_r in Hfail. rewrite Hfail.
    destruct o as [p| |p|];
      [exfalso; exact (Hbad p eq_refl) | reflexivity | reflexivity
       | exfalso; exact (Hends eq_refl)].
  - destruct n as [|n]; [lia|]. cbn [play_loop seq flat_map].
    pose proof (Hok 0%nat ltac:(lia)) as H0. rewrite Nat.add_0_r in H0. rewrite H0.
    rewrite (IH n (S k0)).
    + rewrite <- app_assoc. reflexivity.
    + intros j Hj. replace (S k0 + j)%nat with (k0 + S j)%nat by lia.
      apply Hok. lia.
    + replace (S k0 + k)%nat with (k0 + S k)%nat by lia. exact Hfail.
    + exact Hbad.
    + exact Hends.
    + lia.
Qed.

(** X8. When the file loads and repetition [k] (counted from 0, below the
    number asked) is the first whose [play()] or busy poll raises, the worker
    performs exactly the [k] full plays before it, starts none of the
    repetitions after it, prints the error, and ends with the playback flag
    cleared and the restore queued. *)
Theorem playback_worker_stops_at_first_error :
  forall (mx : Mixer) (polls : nat -> nat) (path : option string) (r : Z) (a : App)
         (k : nat) (o : play_outcome),
    _playback_lock a = false ->
    load_ok mx path = true ->
    (k < Z.to_nat r)%nat ->
    (forall j, (j < k)%nat -> outcome mx j = Completes (polls j)) ->
    outcome mx k = o ->
    (forall p, o <> Completes p) ->
    o <> StaysBusy ->
    exists a',
      _playback_worker mx path r a = Some a'
      /\ trace a' = trace a ++ (MixerLoad path :: sequential_plays polls k
                                ++ failure_events o)
                            ++ [PyPrint "Playback error:"]
      /\ _is_playing a' = false
      /\ after_queue a' = after_queue a ++ [(now_ms a + 150, RestoreCall 10 150)].
Proof.
  intros mx polls path r a k o Hlock Hload Hlt Hok Hfail Hbad Hends.
  unfold _playback_worker, worker_body. app_simpl. rewrite Hlock, Hload.
  rewrite (play_loop_fails_at mx polls o k (Z.to_nat r) 0 Hok Hfail Hbad Hends Hlt).
  eexists. split; [reflexivity|]. app_simpl.
  split; [rewrite <- app_assoc; reflexivity|]. split; reflexivity.
Qed.

Lemma playback_worker_stops_at_first_error_witness :
  exists a',
    _playback_worker mixer_breaks_at_2 (Some "ad.mp3"%string) 5 app_idle = Some a'
    /\ trace a' = trace app_idle
                  ++ (MixerLoad (Some "ad.mp3"%string)
                      :: sequential_plays (fun _ => 2%nat) 2
                      ++ failure_events (BusyRaises 1))
                  ++ [PyPrint "Playback error:"]
    /\ _is_playing a' = false
    /\ after_queue a' = after_queue app_idle ++ [(now_ms app_idle + 150, RestoreCall 10 150)].
Proof.
  apply (playback_worker_stops_at_first_error
           mixer_breaks_at_2 (fun _ => 2%nat) (Some "ad.mp3"%string) 5 app_idle
           2%nat (BusyRaises 1)).
  - reflexivity.
  - reflexivity.
  - cbn. lia.
  - intros j Hj. destruct j as [|[|j]]; [reflexivity | reflexivity | lia].
  - reflexivity.
  - intros p. discriminate.
  - discriminate.
Defined.

(** ** A playlist without files *)









(** ** Microphone *)






(** X12. The microphone gain is never negative: a slider position at or
    below zero mutes the passthrough (every sample the callback writes for a
    mono block is zero), a position [v >= 0] gives the gain [v / 100], and
    an unreadable slider gives the gain 1. *)
Theorem mic_gain_never_negative :
  forall (v : option Q) (a : App),
    (0 <= _mic_gain (_on_mic_vol_change v a))%Q
    /\ (forall q, v = Some q -> (0 <= q)%Q ->
                  (_mic_gain (_on_mic_vol_change v a) == q / 100)%Q)
    /\ (v = None -> _mic_gain (_on_mic_vol_change v a) = 1%Q)
    /\ (forall q (xs : list Q) (out_rows : list (list Q)),
          v = Some q -> (q <= 0)%Q ->
          List.length out_rows = List.length xs ->
          Forall (fun r => List.length r = 2%nat) out_rows ->
          forall i j y,
            sample (callback (_on_mic_vol_change v a) (mono_block xs) (mkArray 2 out_rows))
                   i j = Some y ->
            (y == 0)%Q).
Proof.
  intros v a.
  assert (Hmax : forall q : Q,
             (0 <= py_max 0 (q / 100))%Q
             /\ ((0 <= q)%Q -> (py_max 0 (q / 100) == q / 100)%Q)
             /\ ((q <= 0)%Q -> py_max 0 (q / 100) = 0%Q)).
  { intro q. unfold py_max.
    destruct (Qle_bool (q / 100) 0) eqn:Hle.
    - apply Qle_bool_iff in Hle.
      split; [apply Qle_refl|]. split; [|reflexivity].
      intro Hq. apply Qle_antisym; [|exact Hle].
      apply Qle_shift_div_l; [reflexivity | ring_simplify; exact Hq].
    - assert (Hlt : ~ (q / 100 <= 0)%Q)
        by (intro H; apply Qle_bool_iff in H; congruence).
      apply Qnot_le_lt in Hlt.
      split; [apply Qlt_le_weak; exact Hlt|]. split; [reflexivity|].
      intro Hq. exfalso. apply (Qlt_irrefl 0).
      eapply Qlt_le_trans; [exact Hlt|].
      apply Qle_shift_div_r; [reflexivity | ring_simplify; exact Hq]. }
  destruct v as [q|]; cbn [_on_mic_vol_change]; app_simpl.
  - destruct (Hmax q) as (Hpos & Hid & Hzero).
    split; [exact Hpos|]. split; [|split].
    + intros q' Hq' Hle. inversion Hq'; subst q'. apply Hid. exact Hle.
    + discriminate.
    + intros q' xs out_rows Hq' Hle Hlen Hrows i j y.
      inversion Hq'; subst q'.
      rewrite callback_mono_block by assumption.
      app_simpl. rewrite (Hzero Hle).
      unfold sample. cbn [rows]. rewrite nth_error_map.
      destruct (nth_error xs i) as [x|]; cbn [option_map]; [|discriminate].
      destruct j as [|[|j]]; cbn [nth_error]; intro Hy;
        try (destruct j; discriminate);
        inversion Hy; subst; ring.
  - split; [discriminate|]. split; [discriminate|]. split; [reflexivity|].
    discriminate.
Qed.

Lemma mic_gain_never_negative_witness :
  (_mic_gain (_on_mic_vol_change (Some 50%Q) app_idle) == 50 / 100)%Q
  /\ forall y,
       sample (callback (_on_mic_vol_change (Some (-20)%Q) app_idle)
                        (mono_block [1 # 2; - (1 # 4)]%Q)
                        (mkArray 2 [[1; 1]; [1; 1]]%Q)) 1 0 = Some y ->
       (y == 0)%Q.
Proof.
  destruct (mic_gain_never_negative (Some 50%Q) app_idle) as (_ & Hgain & _ & _).
  destruct (mic_gain_never_negative (Some (-20)%Q) app_idle) as (_ & _ & _ & Hmute).
  split.
  - apply (Hgain 50%Q); [reflexivity | vm_compute; discriminate].
  - intro y.
    apply (Hmute (-20)%Q [1 # 2; - (1 # 4)]%Q [[1; 1]; [1; 1]]%Q);
      [reflexivity | vm_compute; discriminate | reflexivity | repeat constructor].
Defined.

(** ** Playlist editing *)

Ltac edit_simpl :=
  cbn [PYCAW_OK playlists current_playlist _is_playing _playback_lock
       _playback_thread _saved_sessions _duck_active _mic_gain now_ms
       after_queue threads trace
       set_playlists set_is_playing set_current_playlist set_timers emit after] in *.

Lemma sdict_get_set_same :
  forall (V : Type) k (v : V) (d : sdict V),
    PyDict.get String.eqb k (PyDict.set String.eqb k v d) = Some v.
Proof.
  intros V k v d. induction d as [|[k' v'] r IH]; cbn [PyDict.set PyDict.get].
  - rewrite String.eqb_refl. reflexivity.
  - destruct (String.eqb k k') eqn:E; cbn [PyDict.get]; rewrite E; [reflexivity | exact IH].
Qed.

Lemma sdict_get_set_other :
  forall (V : Type) k k' (v : V) (d : sdict V),
    k <> k' ->
    PyDict.get String.eqb k (PyDict.set String.eqb k' v d) = PyDict.get String.eqb k d.
Proof.
  intros V k k' v d Hne. induction d as [|[k2 v2] r IH]; cbn [PyDict.set PyDict.get].
  - apply String.eqb_neq in Hne. rewrite Hne. reflexivity.
  - destruct (String.eqb k' k2) eqn:E; cbn [PyDict.get].
    + apply String.eqb_eq in E. subst k2.
      apply String.eqb_neq in Hne. rewrite Hne. reflexivity.
    + rewrite IH. reflexivity.
Qed.

Lemma sdict_get_none_not_in :
  forall (V : Type) k (d : sdict V),
    PyDict.get String.eqb k d = None <-> ~ In k (map fst d).
Proof.
  intros V k d. induction d as [|[k' v'] r IH]; cbn [PyDict.get map fst In].
  - tauto.
  - destruct (String.eqb k k') eqn:E.
    + apply String.eqb_eq in E. subst k'. split; [discriminate | tauto].
    + apply String.eqb_neq in E. rewrite IH. split.
      * intros Hr [Heq | Hin]; [congruence | tauto].
      * tauto.
Qed.

Lemma sdict_mem_in :
  forall (V : Type) k (d : sdict V),
    PyDict.mem String.eqb k d = true <-> In k (map fst d).
Proof.
  intros V k d. unfold PyDict.mem.
  pose proof (sdict_get_none_not_in V k d) as Hnone.
  destruct (PyDict.get String.eqb k d) eqn:E.
  - split; [|reflexivity]. intros _.
    destruct (in_dec string_dec k (map fst d)) as [Hin | Hout]; [exact Hin|].
    apply Hnone in Hout. discriminate.
  - split; [discriminate|]. intro Hin. exfalso. apply (proj1 Hnone); [reflexivity | exact Hin].
Qed.

Lemma sdict_set_keys :
  forall (V : Type) k (v : V) (d : sdict V),
    map fst (PyDict.set String.eqb k v d)
    = if PyDict.mem String.eqb k d then map fst d else map fst d ++ [k].
Proof.
  intros V k v d. unfold PyDict.mem.
  induction d as [|[k' v'] r IH]; cbn [PyDict.set PyDict.get map fst app].
  - reflexivity.
  - destruct (String.eqb k k') eqn:E; cbn [map fst].
    + reflexivity.
    + rewrite IH. destruct (PyDict.get String.eqb k r); reflexivity.
Qed.

Lemma sdict_set_fresh :
  forall (V : Type) k (v : V) (d : sdict V),
    PyDict.get String.eqb k d = None -> PyDict.set String.eqb k v d = d ++ [(k, v)].
Proof.
  intros V k v d. induction d as [|[k' v'] r IH]; cbn [PyDict.set PyDict.get app].
  - reflexivity.
  - destruct (String.eqb k k'); [discriminate|]. intro H. rewrite IH by exact H. reflexivity.
Qed.

Lemma sdict_set_nodup :
  forall (V : Type) k (v : V) (d : sdict V),
    NoDup (map fst d) -> NoDup (map fst (PyDict.set String.eqb k v d)).
Proof.
  intros V k v d Hnd. rewrite sdict_set_keys.
  destruct (PyDict.mem String.eqb k d) eqn:E; [exact Hnd|].
  assert (Hout : ~ In k (map fst d)).
  { intro Hin. apply sdict_mem_in in Hin. congruence. }
  clear E. induction (map fst d) as [|x l IH]; cbn [app].
  - constructor; [tauto | constructor].
  - inversion Hnd as [|? ? Hx Hl]; subst. constructor.
    + rewrite in_app_iff. cbn [In]. intros [Hin | [Heq | []]]; [tauto|].
      subst x. apply Hout. left. reflexivity.
    + apply IH; [exact Hl|]. intro Hin. apply Hout. right. exact Hin.
Qed.

Lemma sdict_set_length_known :
  forall (V : Type) k (v : V) (d : sdict V),
    PyDict.mem String.eqb k d = true ->
    List.length (PyDict.set String.eqb k v d) = List.length d.
Proof.
  intros V k v d Hmem.
  rewrite <- (length_map fst (PyDict.set String.eqb k v d)), sdict_set_keys, Hmem.
  apply length_map.
Qed.

Lemma dict_pop_keys_incl :
  forall (V : Type) k k' (d : sdict V),
    In k (map fst (dict_pop k' d)) -> In k (map fst d).
Proof.
  intros V k k' d. induction d as [|[k2 v2] r IH]; cbn [dict_pop map fst In].
  - tauto.
  - destruct (String.eqb k' k2); cbn [map fst In]; tauto.
Qed.

Lemma dict_pop_nodup :
  forall (V : Type) k (d : sdict V), NoDup (map fst d) -> NoDup (map fst (dict_pop k d)).
Proof.
  intros V k d. induction d as [|[k2 v2] r IH]; cbn [dict_pop map fst]; intro Hnd.
  - constructor.
  - inversion Hnd as [|? ? Hx Hl]; subst.
    destruct (String.eqb k k2); cbn [map fst]; [exact Hl|].
    constructor; [|apply IH; exact Hl].
    intro Hin. apply Hx. eapply dict_pop_keys_incl. exact Hin.
Qed.

Lemma dict_pop_get_same :
  forall (V : Type) k (d : sdict V),
    NoDup (map fst d) -> PyDict.get String.eqb k (dict_pop k d) = None.
Proof.
  intros V k d. induction d as [|[k2 v2] r IH]; cbn [dict_pop map fst]; intro Hnd.
  - reflexivity.
  - inversion Hnd as [|? ? Hx Hl]; subst.
    destruct (String.eqb k k2) eqn:E.
    + apply String.eqb_eq in E. subst k2. apply sdict_get_none_not_in. exact Hx.
    + cbn [PyDict.get]. rewrite E. apply IH. exact Hl.
Qed.

Lemma dict_pop_get_other :
  forall (V : Type) k k' (d : sdict V),
    k <> k' -> PyDict.get String.eqb k (dict_pop k' d) = PyDict.get String.eqb k d.
Proof.
  intros V k k' d Hne. induction d as [|[k2 v2] r IH]; cbn [dict_pop PyDict.get].
  - reflexivity.
  - destruct (String.eqb k' k2) eqn:E; cbn [PyDict.get].
    + apply String.eqb_eq in E. subst k2.
      apply String.eqb_neq in Hne. rewrite Hne. reflexivity.
    + rewrite IH. reflexivity.
Qed.

Lemma dict_pop_length :
  forall (V : Type) k (d : sdict V),
    PyDict.mem String.eqb k d = true ->
    S (List.length (dict_pop k d)) = List.length d.
Proof.
  intros V k d. unfold PyDict.mem.
  induction d as [|[k2 v2] r IH]; cbn [dict_pop PyDict.get List.length].
  - discriminate.
  - destruct (String.eqb k k2); cbn [List.length]; [reflexivity|].
    intro H. rewrite IH by exact H. reflexivity.
Qed.

Lemma sdict_get_mem :
  forall (V : Type) k (v : V) (d : sdict V),
    PyDict.get String.eqb k d = Some v -> PyDict.mem String.eqb k d = true.
Proof. intros V k v d H. unfold PyDict.mem. rewrite H. reflexivity. Qed.

(** [_refresh_playlist_list] keeps a current playlist that exists. *)
Lemma refresh_keeps_known :
  forall a c,
    current_playlist a = Some c ->
    PyDict.mem String.eqb c (playlists a) = true ->
    _refresh_playlist_list a = a.
Proof.
  intros a c Hc Hmem. unfold _refresh_playlist_list. rewrite Hc, Hmem.
  destruct (playlists a) as [|[first pl] r]; [discriminate | reflexivity].
Qed.

(** X13. Renaming the current playlist to the name of another playlist
    replaces that playlist without a warning: afterwards the name holds the
    renamed playlist, the old name is gone, there is one playlist fewer, and
    every other playlist is as before. *)
Theorem rename_onto_existing_name_replaces_it :
  forall (new c : string) (pl other : playlist) (a : App),
    current_playlist a = Some c ->
    c <> ""%string ->
    new <> ""%string ->
    new <> c ->
    NoDup (map fst (playlists a)) ->
    PyDict.get String.eqb c (playlists a) = Some pl ->
    PyDict.get String.eqb new (playlists a) = Some other ->
    let a' := _rename_playlist (Some new) a in
    PyDict.get String.eqb new (playlists a') = Some pl
    /\ PyDict.get String.eqb c (playlists a') = None
    /\ S (List.length (playlists a')) = List.length (playlists a)
    /\ (forall k, k <> c -> k <> new ->
                  PyDict.get String.eqb k (playlists a') = PyDict.get String.eqb k (playlists a))
    /\ current_playlist a' = Some new
    /\ trace a' = trace a ++ [SavePlaylists].
Proof.
  intros new c pl other a Hcur Hc Hnew Hne Hnd Hpl Hother a'.
  assert (Hmem : PyDict.mem String.eqb new (dict_pop c (playlists a)) = true).
  { unfold PyDict.mem. rewrite dict_pop_get_other by exact Hne. rewrite Hother. reflexivity. }
  assert (Ha' : a' = emit [SavePlaylists]
                          (set_current_playlist (Some new)
                             (set_playlists (PyDict.set String.eqb new pl
                                               (dict_pop c (playlists a))) a))).
  { subst a'. unfold _rename_playlist. rewrite Hcur.
    apply String.eqb_neq in Hc, Hnew, Hne. rewrite Hc, Hnew, Hne. cbn [orb].
    rewrite Hpl.
    erewrite refresh_keeps_known; [reflexivity | reflexivity |].
    edit_simpl. unfold PyDict.mem. rewrite sdict_get_set_same. reflexivity. }
  rewrite Ha'. edit_simpl.
  split; [apply sdict_get_set_same|].
  split.
  { rewrite sdict_get_set_other by congruence. apply dict_pop_get_same. exact Hnd. }
  split.
  { rewrite sdict_set_length_known by exact Hmem.
    apply dict_pop_length. eapply sdict_get_mem. exact Hpl. }
  split.
  { intros k Hkc Hkn. rewrite sdict_get_set_other by exact Hkn.
    apply dict_pop_get_other. exact Hkc. }
  split; reflexivity.
Qed.

Lemma rename_onto_existing_name_replaces_it_witness :
  PyDict.get String.eqb "Off"%string
             (playlists (_rename_playlist (Some "Off"%string) app_fm_selected))
  = PyDict.get String.eqb "FM"%string (playlists app_fm_selected)
  /\ List.length (playlists (_rename_playlist (Some "Off"%string) app_fm_selected)) = 1%nat.
Proof.
  destruct (rename_onto_existing_name_replaces_it
              "Off"%string "FM"%string
              (mkPlaylist (Some [mkMedia (Some "a.mp3"%string) (Some []) (Some 2);
                                 mkMedia (Some "b.mp3"%string)
                                         (Some ["14:30"%string; "09:00"%string]) (Some 5)])
                          (Some "09:00"%string) (Some 1) (Some true))
              (mkPlaylist (Some [mkMedia (Some "c.mp3"%string) (Some ["09:00"%string])
                                         (Some 1)])
                          (Some "09:00"%string) (Some 1) (Some false))
              app_fm_selected)
    as (Hnew & _ & Hlen & _).
  - reflexivity.
  - discriminate.
  - discriminate.
  - discriminate.
  - vm_compute. repeat constructor; cbn; intuition discriminate.
  - reflexivity.
  - reflexivity.
  - split; [rewrite Hnew; reflexivity|].
    vm_compute in Hlen. vm_compute. congruence.
Defined.

Lemma tick_requests_app :
  forall now (l1 l2 : sdict playlist),
    tick_requests now (l1 ++ l2) = tick_requests now l1 ++ tick_requests now l2.
Proof. intros now l1 l2. unfold tick_requests. apply flat_map_app. Qed.

(** X14. Renaming the current playlist to an unused name keeps its content
    and every other playlist, and moves it behind all others: from then on
    the scheduler serves it last. *)
Theorem rename_to_fresh_name_keeps_content :
  forall (new c : string) (pl : playlist) (a : App) (now : string),
    current_playlist a = Some c ->
    c <> ""%string ->
    new <> ""%string ->
    new <> c ->
    NoDup (map fst (playlists a)) ->
    PyDict.get String.eqb c (playlists a) = Some pl ->
    PyDict.get String.eqb new (playlists a) = None ->
    let a' := _rename_playlist (Some new) a in
    PyDict.get String.eqb new (playlists a') = Some pl
    /\ PyDict.get String.eqb c (playlists a') = None
    /\ (forall k, k <> c -> k <> new ->
                  PyDict.get String.eqb k (playlists a') = PyDict.get String.eqb k (playlists a))
    /\ List.length (playlists a') = List.length (playlists a)
    /\ NoDup (map fst (playlists a'))
    /\ current_playlist a' = Some new
    /\ tick_requests now (playlists a')
       = tick_requests now (dict_pop c (playlists a)) ++ playlist_requests now pl.
Proof.
  intros new c pl a now Hcur Hc Hnew Hne Hnd Hpl Hfresh a'.
  assert (Hfresh' : PyDict.get String.eqb new (dict_pop c (playlists a)) = None).
  { rewrite dict_pop_get_other by exact Hne. exact Hfresh. }
  assert (Ha' : a' = emit [SavePlaylists]
                          (set_current_playlist (Some new)
                             (set_playlists (dict_pop c (playlists a) ++ [(new, pl)]) a))).
  { subst a'. unfold _rename_playlist. rewrite Hcur.
    apply String.eqb_neq in Hc, Hnew, Hne. rewrite Hc, Hnew, Hne. cbn [orb].
    rewrite Hpl.
    erewrite refresh_keeps_known.
    - rewrite sdict_set_fresh by exact Hfresh'. reflexivity.
    - reflexivity.
    - edit_simpl. unfold PyDict.mem. rewrite sdict_get_set_same. reflexivity. }
  rewrite Ha'. edit_simpl.
  rewrite <- (sdict_set_fresh _ new pl _ Hfresh').
  split; [apply sdict_get_set_same|].
  split.
  { rewrite sdict_get_set_other by congruence. apply dict_pop_get_same. exact Hnd. }
  split.
  { intros k Hkc Hkn. rewrite sdict_get_set_other by exact Hkn.
    apply dict_pop_get_other. exact Hkc. }
  split.
  { rewrite (sdict_set_fresh _ new pl _ Hfresh'), length_app. cbn [List.length].
    pose proof (dict_pop_length _ c (playlists a) (sdict_get_mem _ _ _ _ Hpl)). lia. }
  split.
  { apply sdict_set_nodup. apply dict_pop_nodup. exact Hnd. }
  split; [reflexivity|].
  rewrite (sdict_set_fresh _ new pl _ Hfresh'), tick_requests_app.
  unfold tick_requests at 2. cbn [flat_map]. rewrite app_nil_r. reflexivity.
Qed.

Lemma rename_to_fresh_name_keeps_content_witness :
  map fst (playlists (_rename_playlist (Some "Radio"%string) app_fm_selected))
  = ["Off"%string; "Radio"%string]
  /\ PyDict.get String.eqb "Radio"%string
                (playlists (_rename_playlist (Some "Radio"%string) app_fm_selected))
     = PyDict.get String.eqb "FM"%string (playlists app_fm_selected).
Proof.
  destruct (rename_to_fresh_name_keeps_content
              "Radio"%string "FM"%string
              (mkPlaylist (Some [mkMedia (Some "a.mp3"%string) (Some []) (Some 2);
                                 mkMedia (Some "b.mp3"%string)
                                         (Some ["14:30"%string; "09:00"%string]) (Some 5)])
                          (Some "09:00"%string) (Some 1) (Some true))
              app_fm_selected "09:00"%string)
    as (Hnew & _).
  - reflexivity.
  - discriminate.
  - discriminate.
  - discriminate.
  - vm_compute. repeat constructor; cbn; intuition discriminate.
  - reflexivity.
  - reflexivity.
  - split; [reflexivity | rewrite Hnew; reflexivity].
Defined.









(** ** Edit lock and item edits *)

Lemma selected_media_inv :
  forall idx a name pl files m,
    selected_media idx a = Some (name, pl, files, m) ->
    current_playlist a = Some name
    /\ PyDict.get String.eqb name (playlists a) = Some pl
    /\ pl_files pl = Some files
    /\ nth_error files idx = Some m.
Proof.
  intros idx a name pl files m. unfold selected_media.
  destruct (current_playlist a) as [c|]; [|discriminate].
  destruct (PyDict.get String.eqb c (playlists a)) as [p|] eqn:Hp; [|discriminate].
  destruct (pl_files p) as [fs|] eqn:Hfs; [|discriminate].
  destruct (nth_error fs idx) as [x|] eqn:Hx; [|discriminate].
  intro H. inversion H; subst. repeat split; assumption.
Qed.

Lemma list_set_nth_same :
  forall (A : Type) (l : list A) idx x y,
    nth_error l idx = Some y -> nth_error (list_set idx x l) idx = Some x.
Proof.
  intros A l. induction l as [|z r IH]; intros [|i] x y; cbn [nth_error list_set];
    try discriminate.
  - reflexivity.
  - apply IH.
Qed.

Lemma list_set_nth_other :
  forall (A : Type) (l : list A) idx j x,
    j <> idx -> nth_error (list_set idx x l) j = nth_error l j.
Proof.
  intros A l. induction l as [|z r IH]; intros [|i] [|j] x Hne;
    cbn [nth_error list_set]; try reflexivity.
  - contradiction.
  - apply IH. congruence.
Qed.

Lemma list_set_length :
  forall (A : Type) (l : list A) idx x, List.length (list_set idx x l) = List.length l.
Proof.
  intros A l. induction l as [|z r IH]; intros [|i] x; cbn [list_set List.length];
    try reflexivity.
  rewrite IH. reflexivity.
Qed.

(** The PIN prompt lets the action through when the lock is open or the
    PIN is right, and the lock is then open. *)
Lemma ask_pin_passes :
  forall pin title msg a s,
    _global_locked s = false \/ pin = Some SCHEDULE_PIN ->
    exists s', ask_pin pin title msg (a, s) = (true, (a, s'))
               /\ _global_locked s' = false.
Proof.
  intros pin title msg a s Hpass. unfold ask_pin.
  destruct (_global_locked s) eqn:Hlock.
  - destruct Hpass as [Hopen | Hpin]; [discriminate|]. subst pin.
    rewrite String.eqb_refl. eexists. split; reflexivity.
  - exists s. split; [reflexivity | exact Hlock].
Qed.

(** A worker on a mixer that plays every repetition to its end. *)
Lemma playback_worker_counts :
  forall (mx : Mixer) (polls : nat -> nat) (path : option string) (r : Z) (b : App),
    _playback_lock b = false ->
    load_ok mx path = true ->
    (forall k, outcome mx k = Completes (polls k)) ->
    exists b',
      _playback_worker mx path r b = Some b'
      /\ count_plays (trace b') = (count_plays (trace b) + Z.to_nat r)%nat.
Proof.
  intros mx polls path r b Hlock Hload Hplays.
  unfold _playback_worker, worker_body. app_simpl.
  rewrite Hlock, Hload, (play_loop_completes mx polls Hplays).
  eexists. split; [reflexivity|]. app_simpl.
  change (MixerLoad path :: flat_map (fun j => MixerPlay :: repeat Sleep80 (polls j))
                                     (seq 0 (Z.to_nat r)))
    with ([MixerLoad path] ++ flat_map (fun j => MixerPlay :: repeat Sleep80 (polls j))
                                       (seq 0 (Z.to_nat r))).
  rewrite !count_plays_app, count_plays_sequential. cbn. lia.
Qed.

(** X16. The repeats set from the context menu are what gets played: when
    the lock is open or the PIN is right, [_ctx_set_repeat] stores the typed
    number clamped to 1..100 on the selected item and on no other, leaves
    the lock open, and a worker for the item's request then plays the file
    exactly that many times. *)
Theorem ctx_set_repeat_is_what_gets_played :
  forall (pin : option string) (ui : UI) (a : App) (s : Shell) (idx : nat)
         (name : string) (pl : playlist) (files : list media) (m : media) (r : Z),
    _global_locked s = false \/ pin = Some SCHEDULE_PIN ->
    selected_index ui = Some idx ->
    selected_media idx a = Some (name, pl, files, m) ->
    asked_int ui = Some r ->
    let w := _ctx_set_repeat pin ui (a, s) in
    let m' := mkMedia (m_path m) (m_times m) (Some (clamp_int 1 100 r)) in
    _global_locked (snd w) = false
    /\ selected_media idx (fst w)
       = Some (name,
               mkPlaylist (Some (list_set idx m' files)) (pl_time pl) (pl_repeats pl)
                          (pl_active pl),
               list_set idx m' files, m')
    /\ (forall j, j <> idx -> nth_error (list_set idx m' files) j = nth_error files j)
    /\ media_request m' = (m_path m, clamp_int 1 100 r)
    /\ 1 <= clamp_int 1 100 r <= 100
    /\ (forall (mx : Mixer) (polls : nat -> nat) (b : App),
          _playback_lock b = false ->
          load_ok mx (m_path m) = true ->
          (forall k, outcome mx k = Completes (polls k)) ->
          exists b',
            _playback_worker mx (fst (media_request m')) (snd (media_request m')) b
            = Some b'
            /\ count_plays (trace b')
               = (count_plays (trace b) + Z.to_nat (clamp_int 1 100 r))%nat)
    /\ trace (fst w) = trace a ++ [SavePlaylists].
Proof.
  intros pin ui a s idx name pl files m r Hpass Hsel Hmedia Hint w m'.
  destruct (ask_pin_passes pin "Senha" "PIN incorreto." a s Hpass) as (s' & Hask & Hopen).
  destruct (selected_media_inv _ _ _ _ _ _ Hmedia) as (Hcur & Hget & Hfiles & Hnth).
  assert (Hw : w = (emit [SavePlaylists] (store_media name pl files idx m' a), s')).
  { subst w. unfold _ctx_set_repeat. rewrite Hask, Hsel, Hmedia, Hint. reflexivity. }
  rewrite Hw. cbn [fst snd].
  split; [exact Hopen|].
  split.
  { unfold selected_media, store_media. edit_simpl.
    rewrite Hcur, sdict_get_set_same. cbn [pl_files].
    rewrite (list_set_nth_same _ files idx m' m Hnth). reflexivity. }
  split; [intros j Hj; apply list_set_nth_other; exact Hj|].
  split; [reflexivity|].
  split; [unfold clamp_int; lia|].
  split; [|reflexivity].
  intros mx polls b Hlock Hload Hplays.
  apply (playback_worker_counts mx polls); assumption.
Qed.

Lemma ctx_set_repeat_is_what_gets_played_witness :
  _global_locked (snd (_ctx_set_repeat (Some "4510"%string) ui_types_250
                                       (app_fm_selected, shell_idle))) = false
  /\ option_map (fun x => media_repeats (snd x))
                (selected_media 0 (fst (_ctx_set_repeat (Some "4510"%string) ui_types_250
                                                        (app_fm_selected, shell_idle))))
     = Some 100.
Proof.
  destruct (ctx_set_repeat_is_what_gets_played
              (Some "4510"%string) ui_types_250 app_fm_selected shell_idle 0%nat
              "FM"%string
              (mkPlaylist (Some [mkMedia (Some "a.mp3"%string) (Some []) (Some 2);
                                 mkMedia (Some "b.mp3"%string)
                                         (Some ["14:30"%string; "09:00"%string]) (Some 5)])
                          (Some "09:00"%string) (Some 1) (Some true))
              [mkMedia (Some "a.mp3"%string) (Some []) (Some 2);
               mkMedia (Some "b.mp3"%string) (Some ["14:30"%string; "09:00"%string]) (Some 5)]
              (mkMedia (Some "a.mp3"%string) (Some []) (Some 2)) 250)
    as (Hopen & Hstored & _).
  - right. reflexivity.
  - reflexivity.
  - reflexivity.
  - reflexivity.
  - split; [exact Hopen|]. rewrite Hstored. reflexivity.
Defined.

(** X17. The edit lock: while it is set, a wrong or cancelled PIN makes
    the guarded actions change nothing but show an error; the right PIN
    opens the lock for every later edit, whatever becomes of the edit it was
    asked for; and the item edits never set the lock. *)
Theorem wrong_pin_changes_nothing :
  forall (pin : option string) (ui : UI) (yes : bool) (a : App) (s : Shell),
    (_global_locked s = true ->
     pin <> Some SCHEDULE_PIN ->
     forall w',
       In w' [_toggle_global_lock pin (a, s); _ctx_set_repeat pin ui (a, s);
              _ctx_remove_item pin ui yes (a, s)] ->
       snd w' = s
       /\ playlists (fst w') = playlists a
       /\ exists title msg, trace (fst w') = trace a ++ [ShowError title msg])
    /\ (_global_locked s = true ->
        pin = Some SCHEDULE_PIN ->
        forall w',
          In w' [_toggle_global_lock pin (a, s); _ctx_set_repeat pin ui (a, s);
                 _ctx_remove_item pin ui yes (a, s)] ->
          _global_locked (snd w') = false
          /\ effects (snd w') = effects s ++ [SaveConfig])
    /\ (_global_locked s = false ->
        forall w',
          In w' [_ctx_set_repeat pin ui (a, s); _ctx_remove_item pin ui yes (a, s)] ->
          snd w' = s).
Proof.
  intros pin ui yes a s.
  split; [|split].
  - intros Hlock Hpin w' Hin.
    assert (Hwrong : match pin with
                     | Some p => String.eqb p SCHEDULE_PIN
                     | None => false
                     end = false).
    { destruct pin as [p|]; [|reflexivity].
      apply String.eqb_neq. intro Heq. apply Hpin. rewrite Heq. reflexivity. }
    cbn [In] in Hin.
    destruct Hin as [Hw | [Hw | [Hw | []]]]; subst w';
      unfold _toggle_global_lock, _ctx_set_repeat, _ctx_remove_item, ask_pin;
      rewrite Hlock, Hwrong; cbn [fst snd]; edit_simpl;
      (split; [reflexivity|]; split; [reflexivity|]; eexists; eexists; reflexivity).
  - intros Hlock Hpin w' Hin. subst pin.
    cbn [In] in Hin.
    destruct Hin as [Hw | [Hw | [Hw | []]]]; subst w';
      unfold _toggle_global_lock, _ctx_set_repeat, _ctx_remove_item, ask_pin;
      rewrite Hlock, String.eqb_refl.
    + split; reflexivity.
    + destruct (selected_index ui) as [idx|]; [|split; reflexivity].
      destruct (selected_media idx a) as [[[[name pl] files] m]|]; [|split; reflexivity].
      destruct (asked_int ui); split; reflexivity.
    + destruct (selected_index ui) as [idx|]; [|split; reflexivity].
      destruct (negb yes); [split; reflexivity|].
      destruct (selected_media idx a) as [[[[name pl] files] m]|]; split; reflexivity.
  - intros Hlock w' Hin.
    cbn [In] in Hin.
    destruct Hin as [Hw | [Hw | []]]; subst w';
      unfold _ctx_set_repeat, _ctx_remove_item, ask_pin; rewrite Hlock.
    + destruct (selected_index ui) as [idx|]; [|reflexivity].
      destruct (selected_media idx a) as [[[[name pl] files] m]|]; [|reflexivity].
      destruct (asked_int ui); reflexivity.
    + destruct (selected_index ui) as [idx|]; [|reflexivity].
      destruct (negb yes); [reflexivity|].
      destruct (selected_media idx a) as [[[[name pl] files] m]|]; reflexivity.
Qed.

Lemma wrong_pin_changes_nothing_witness :
  playlists (fst (_ctx_set_repeat (Some "0000"%string) ui_types_250
                                  (app_fm_selected, shell_idle)))
  = playlists app_fm_selected
  /\ _global_locked (snd (_ctx_remove_item (Some "4510"%string) ui_types_250 false
                                           (app_fm_selected, shell_idle))) = false.
Proof.
  destruct (wrong_pin_changes_nothing (Some "0000"%string) ui_types_250 false
                                      app_fm_selected shell_idle) as (Hwrong & _ & _).
  destruct (wrong_pin_changes_nothing (Some "4510"%string) ui_types_250 false
                                      app_fm_selected shell_idle) as (_ & Hright & _).
  split.
  - apply (Hwrong eq_refl ltac:(discriminate)
                  (_ctx_set_repeat (Some "0000"%string) ui_types_250
                                   (app_fm_selected, shell_idle))).
    right. left. reflexivity.
  - apply (Hright eq_refl eq_refl
                  (_ctx_remove_item (Some "4510"%string) ui_types_250 false
                                    (app_fm_selected, shell_idle))).
    right. right. left. reflexivity.
Defined.

(** ** Import *)

Lemma append_inj_l :
  forall s a b : string, (s ++ a)%string = (s ++ b)%string -> a = b.
Proof.
  intros s a b. induction s as [|ch s IH]; cbn [String.append]; intro H.
  - exact H.
  - inversion H. apply IH. assumption.
Qed.

Lemma py_str_inj : forall i j, py_str i = py_str j -> i = j.
Proof.
  intros i j H. unfold py_str in H.
  apply DecimalNat.Unsigned.to_uint_inj.
  pose proof (DecimalString.NilEmpty.usu (Nat.to_uint i)) as Hi.
  pose proof (DecimalString.NilEmpty.usu (Nat.to_uint j)) as Hj.
  rewrite H in Hi. rewrite Hi in Hj. inversion Hj. reflexivity.
Qed.

Lemma numbered_inj : forall base i j, numbered base i = numbered base j -> i = j.
Proof.
  intros base i j H. unfold numbered in H.
  apply append_inj_l in H. apply (append_inj_l "_"%string) in H.
  apply py_str_inj. exact H.
Qed.

(** Among the first [length d + 1] numbered names one is not a key. *)
Lemma numbered_name_free :
  forall base (d : sdict playlist),
    exists n, (n <= List.length d)%nat
              /\ PyDict.mem String.eqb (numbered base (1 + n)) d = false.
Proof.
  intros base d.
  set (cands := map (fun n => numbered base (1 + n)) (seq 0 (S (List.length d)))).
  destruct (existsb (fun c => negb (PyDict.mem String.eqb c d)) cands) eqn:E.
  - apply existsb_exists in E. destruct E as (x & Hin & Hx).
    apply in_map_iff in Hin. destruct Hin as (n & Hn & Hseq).
    apply in_seq in Hseq. exists n. split; [lia|].
    rewrite Hn. apply negb_true_iff. exact Hx.
  - exfalso.
    assert (Hall : incl cands (map fst d)).
    { intros x Hin. apply sdict_mem_in.
      destruct (PyDict.mem String.eqb x d) eqn:Hm; [reflexivity|].
      assert (Hex : existsb (fun c => negb (PyDict.mem String.eqb c d)) cands = true).
      { apply existsb_exists. exists x. split; [exact Hin | rewrite Hm; reflexivity]. }
      congruence. }
    assert (Hnd : NoDup cands).
    { subst cands. apply Finite.Injective_map_NoDup; [|apply seq_NoDup].
      intros i j Hij. apply numbered_inj in Hij. lia. }
    pose proof (NoDup_incl_length Hnd Hall) as Hlen.
    subst cands. rewrite !length_map, length_seq in Hlen. lia.
Qed.

(** The renaming loop ends as soon as a name is free. *)
Lemma import_name_finds :
  forall base (d : sdict playlist) n fuel i name,
    PyDict.mem String.eqb (numbered base (i + n)) d = false ->
    (n + 2 <= fuel)%nat ->
    exists r, import_name fuel base i name d = Some r
              /\ PyDict.mem String.eqb r d = false
              /\ (PyDict.mem String.eqb name d = false -> r = name)
              /\ (PyDict.mem String.eqb name d = true ->
                  exists j, (i <= j)%nat /\ r = numbered base j).
Proof.
  intros base d n. induction n as [|n IH]; intros fuel i name Hfree Hfuel.
  - destruct fuel as [|[|fuel]]; [lia | lia |].
    cbn [import_name]. rewrite Nat.add_0_r in Hfree.
    destruct (PyDict.mem String.eqb name d) eqn:Hname.
    + rewrite Hfree. exists (numbered base i).
      split; [reflexivity|]. split; [exact Hfree|]. split; [discriminate|].
      intros _. exists i. split; [lia | reflexivity].
    + exists name. split; [reflexivity|]. split; [exact Hname|].
      split; [reflexivity | discriminate].
  - destruct fuel as [|fuel]; [lia|].
    cbn [import_name].
    destruct (PyDict.mem String.eqb name d) eqn:Hname.
    + destruct (IH fuel (S i) (numbered base i)) as (r & Hrun & Hr & Hsame & Hlater).
      { replace (S i + n)%nat with (i + S n)%nat by lia. exact Hfree. }
      { lia. }
      exists r. split; [exact Hrun|]. split; [exact Hr|]. split; [discriminate|].
      intros _.
      destruct (PyDict.mem String.eqb (numbered base i) d) eqn:Hi.
      * destruct (Hlater eq_refl) as (j & Hj & Hrj). exists j. split; [lia | exact Hrj].
      * exists i. split; [lia | apply Hsame; reflexivity].
    + exists name. split; [reflexivity|]. split; [exact Hname|].
      split; [reflexivity | discriminate].
Qed.

Lemma import_name_fresh :
  forall base (d : sdict playlist),
    exists name,
      import_name (S (S (List.length d))) base 1 base d = Some name
      /\ PyDict.mem String.eqb name d = false
      /\ (PyDict.mem String.eqb base d = false -> name = base)
      /\ (PyDict.mem String.eqb base d = true ->
          exists j, (1 <= j)%nat /\ name = numbered base j).
Proof.
  intros base d.
  destruct (numbered_name_free base d) as (n & Hn & Hfree).
  apply (import_name_finds base d n); [exact Hfree | lia].
Qed.

(** What the loop over the entries keeps: files that exist, each with its
    times and repeats filled in. *)
Lemma import_entries_spec :
  forall dk h folder entries imported,
    import_entries dk h folder entries = Some imported ->
    forall m, In m imported ->
              exists entry fname,
                In entry entries
                /\ m_path entry = Some fname
                /\ m_path m = Some (path_join dk folder fname)
                /\ path_exists h (path_join dk folder fname) = true
                /\ m_times m = Some (match m_times entry with Some ts => ts | None => [] end)
                /\ m_repeats m = Some (media_repeats entry).
Proof.
  intros dk h folder entries.
  induction entries as [|e rest IH]; cbn [import_entries]; intros imported Hrun m Hin.
  - inversion Hrun; subst. destruct Hin.
  - destruct (m_path e) as [fname|] eqn:Hpath; [|discriminate].
    destruct (import_entries dk h folder rest) as [r|]; [|discriminate].
    destruct (path_exists h (path_join dk folder fname)) eqn:Hex;
      inversion Hrun; subst imported.
    + destruct Hin as [Hm | Hin].
      * subst m. exists e, fname. cbn [m_path m_times m_repeats].
        repeat split; try reflexivity; [left; reflexivity | exact Hpath | exact Hex].
      * destruct (IH r eq_refl m Hin) as (entry & fn & He & Hrest).
        exists entry, fn. split; [right; exact He | exact Hrest].
    + destruct (IH r eq_refl m Hin) as (entry & fn & He & Hrest).
      exists entry, fn. split; [right; exact He | exact Hrest].
Qed.

(** X18. An import never replaces a playlist: the renaming loop always
    ends, on a name that no playlist has (the file's own name when that is
    free, a numbered one otherwise); the import then either changes no
    playlist, or appends one playlist under that name, active, made of the
    listed files that exist in the folder, selects it and saves. *)
Theorem import_never_replaces_a_playlist :
  forall (dk : Disk) (h : Host) (folder : option string) (a : App),
    (forall base,
        exists name,
          import_name (S (S (List.length (playlists a)))) base 1 base (playlists a)
          = Some name
          /\ PyDict.mem String.eqb name (playlists a) = false
          /\ (PyDict.mem String.eqb base (playlists a) = false -> name = base)
          /\ (PyDict.mem String.eqb base (playlists a) = true ->
              exists j, (1 <= j)%nat /\ name = numbered base j))
    /\ ((playlists (_import_playlist dk h folder a) = playlists a
         /\ current_playlist (_import_playlist dk h folder a) = current_playlist a)
        \/ exists name pl files dir,
             folder = Some dir
             /\ PyDict.get String.eqb name (playlists a) = None
             /\ playlists (_import_playlist dk h folder a) = playlists a ++ [(name, pl)]
             /\ current_playlist (_import_playlist dk h folder a) = Some name
             /\ pl_files pl = Some files
             /\ files <> []
             /\ pl_active pl = Some true
             /\ (forall m, In m files ->
                           exists fname,
                             m_path m = Some (path_join dk dir fname)
                             /\ path_exists h (path_join dk dir fname) = true
                             /\ m_times m <> None
                             /\ m_repeats m <> None)
             /\ trace (_import_playlist dk h folder a) = trace a ++ [SavePlaylists]).
Proof.
  intros dk h folder a.
  split; [intro base; apply import_name_fresh|].
  unfold _import_playlist.
  destruct folder as [dir|]; [|left; split; reflexivity].
  destruct (String.eqb dir ""); [left; split; reflexivity|].
  destruct (negb (path_exists h (path_join dk dir "playlist_config.json")));
    [left; split; reflexivity|].
  destruct (json_load dk (path_join dk dir "playlist_config.json")) as [data|];
    [|left; split; reflexivity].
  set (base := match x_playlist_name data with
               | Some n => n
               | None => ("import_" ++ timestamp dk)%string
               end).
  destruct (import_name_fresh base (playlists a)) as (name & Hrun & Hfresh & _).
  rewrite Hrun.
  destruct (import_entries dk h dir (match x_files data with Some fs => fs | None => [] end))
    as [[|m imported]|] eqn:Hentries; [left; split; reflexivity | | left; split; reflexivity].
  right.
  set (pl := mkPlaylist (Some (m :: imported))
                        (Some (match x_time data with Some t => t | None => "00:00"%string end))
                        (Some (match x_repeats data with Some r => r | None => 1 end))
                        (Some true)).
  assert (Hnone : PyDict.get String.eqb name (playlists a) = None).
  { unfold PyDict.mem in Hfresh.
    destruct (PyDict.get String.eqb name (playlists a)); [discriminate | reflexivity]. }
  set (a1 := set_current_playlist (Some name)
               (set_playlists (PyDict.set String.eqb name pl (playlists a)) a)).
  assert (Hrefresh : _refresh_playlist_list a1 = a1).
  { apply (refresh_keeps_known a1 name); [reflexivity|].
    subst a1. edit_simpl. unfold PyDict.mem. rewrite sdict_get_set_same. reflexivity. }
  rewrite Hrefresh.
  assert (Htable : _refresh_media_table a1 = true).
  { unfold _refresh_media_table. subst a1. edit_simpl.
    destruct (String.eqb name ""); [reflexivity|].
    rewrite sdict_get_set_same. reflexivity. }
  rewrite Htable.
  exists name, pl, (m :: imported), dir.
  subst a1. edit_simpl.
  split; [reflexivity|]. split; [exact Hnone|].
  split; [apply sdict_set_fresh; exact Hnone|].
  split; [reflexivity|]. split; [reflexivity|]. split; [discriminate|].
  split; [reflexivity|]. split; [|reflexivity].
  intros x Hx.
  destruct (import_entries_spec dk h dir _ _ Hentries x Hx)
    as (entry & fname & _ & _ & Hpath & Hex & Htimes & Hreps).
  exists fname. split; [exact Hpath|]. split; [exact Hex|].
  split; [rewrite Htimes | rewrite Hreps]; discriminate.
Qed.

Lemma import_never_replaces_a_playlist_witness :
  map fst (playlists (_import_playlist disk_demo host_with_export (Some "in"%string)
                                       app_fm_selected))
  = ["FM"%string; "Off"%string; "FM_1"%string]
  /\ option_map (fun pl => option_map (map m_path) (pl_files pl))
                (PyDict.get String.eqb "FM_1"%string
                   (playlists (_import_playlist disk_demo host_with_export
                                                (Some "in"%string) app_fm_selected)))
     = Some (Some [Some "in/a.mp3"%string]).
Proof.
  destruct (import_never_replaces_a_playlist disk_demo host_with_export (Some "in"%string)
                                             app_fm_selected)
    as (_ & [(Hsame & _) | (name & pl & files & dir & _ & _ & Hpls & _)]).
  - vm_compute in Hsame. discriminate.
  - split; reflexivity.
Defined.

(** ** Deleting a playlist, adding media *)

(** X19. Deleting the current playlist removes it and nothing else, and
    selects the first playlist that is left, or none when none is left.
    The change is saved, except when the playlist selected next has no
    ["files"] key: the table refresh then raises before the save. *)
Theorem delete_playlist_selects_first_remaining :
  forall (a : App) (c : string),
    current_playlist a = Some c ->
    c <> ""%string ->
    NoDup (map fst (playlists a)) ->
    let a' := _delete_playlist true a in
    _delete_playlist false a = a
    /\ playlists a' = dict_pop c (playlists a)
    /\ PyDict.get String.eqb c (playlists a') = None
    /\ (forall k, k <> c ->
                  PyDict.get String.eqb k (playlists a') = PyDict.get String.eqb k (playlists a))
    /\ current_playlist a' = option_map fst (hd_error (playlists a'))
    /\ (playlists a' = [] -> trace a' = trace a ++ [SavePlaylists])
    /\ (forall first p rest,
          playlists a' = (first, p) :: rest ->
          pl_files p <> None ->
          trace a' = trace a ++ [SavePlaylists])
    /\ (forall first p rest,
          playlists a' = (first, p) :: rest ->
          first <> ""%string ->
          pl_files p = None ->
          trace a' = trace a).
Proof.
  intros a c Hcur Hc Hnd a'.
  assert (Hcne : String.eqb c "" = false) by (apply String.eqb_neq; exact Hc).
  split.
  { unfold _delete_playlist. rewrite Hcur, Hcne. reflexivity. }
  set (b := _refresh_playlist_list
              (set_current_playlist None (set_playlists (dict_pop c (playlists a)) a))).
  assert (Ha' : a' = if _refresh_media_table b then emit [SavePlaylists] b else b).
  { subst a' b. unfold _delete_playlist. rewrite Hcur, Hcne. reflexivity. }
  assert (Hpls : playlists b = dict_pop c (playlists a)).
  { subst b. unfold _refresh_playlist_list. edit_simpl.
    destruct (dict_pop c (playlists a)) as [|[first p] r]; reflexivity. }
  assert (Hcurb : current_playlist b = option_map fst (hd_error (dict_pop c (playlists a)))).
  { subst b. unfold _refresh_playlist_list. edit_simpl.
    destruct (dict_pop c (playlists a)) as [|[first p] r]; reflexivity. }
  assert (Htrb : trace b = trace a).
  { subst b. unfold _refresh_playlist_list. edit_simpl.
    destruct (dict_pop c (playlists a)) as [|[first p] r]; reflexivity. }
  assert (Hpls' : playlists a' = dict_pop c (playlists a)).
  { rewrite Ha'. destruct (_refresh_media_table b); edit_simpl; exact Hpls. }
  split; [exact Hpls'|].
  split; [rewrite Hpls'; apply dict_pop_get_same; exact Hnd|].
  split; [intros k Hk; rewrite Hpls'; apply dict_pop_get_other; exact Hk|].
  split.
  { rewrite Hpls'. rewrite Ha'. destruct (_refresh_media_table b); edit_simpl; exact Hcurb. }
  rewrite Hpls'.
  split; [|split].
  - intro Hempty. rewrite Ha'. unfold _refresh_media_table.
    rewrite Hcurb, Hempty. cbn [hd_error option_map]. edit_simpl. rewrite Htrb. reflexivity.
  - intros first p rest Hhead Hfiles. rewrite Ha'. unfold _refresh_media_table.
    rewrite Hcurb, Hpls, Hhead. cbn [hd_error option_map fst PyDict.get].
    rewrite String.eqb_refl.
    destruct (String.eqb first ""); [edit_simpl; rewrite Htrb; reflexivity|].
    destruct (pl_files p); [edit_simpl; rewrite Htrb; reflexivity | contradiction].
  - intros first p rest Hhead Hfirst Hfiles. rewrite Ha'. unfold _refresh_media_table.
    rewrite Hcurb, Hpls, Hhead. cbn [hd_error option_map fst PyDict.get].
    rewrite String.eqb_refl.
    apply String.eqb_neq in Hfirst. rewrite Hfirst, Hfiles. exact Htrb.
Qed.

Lemma delete_playlist_selects_first_remaining_witness :
  map fst (playlists (_delete_playlist true app_fm_selected)) = ["Off"%string]
  /\ current_playlist (_delete_playlist true app_fm_selected) = Some "Off"%string.
Proof.
  destruct (delete_playlist_selects_first_remaining app_fm_selected "FM"%string)
    as (_ & Hpls & _ & _ & Hcur & _).
  - reflexivity.
  - discriminate.
  - vm_compute. repeat constructor; cbn; intuition discriminate.
  - split; [rewrite Hpls; reflexivity | rewrite Hcur, Hpls; reflexivity].
Defined.

(** X20. Files added to the current playlist go behind its items with no
    time of their own and one repetition: they are requested when the
    playlist's own time comes, each once, and at no other minute; no other
    playlist changes. *)
Theorem added_media_play_with_the_playlist :
  forall (files : list string) (a : App) (c : string) (pl : playlist)
         (fs : list media) (now : string),
    current_playlist a = Some c ->
    c <> ""%string ->
    files <> [] ->
    PyDict.get String.eqb c (playlists a) = Some pl ->
    pl_files pl = Some fs ->
    let a' := _add_media files a in
    exists pl',
      PyDict.get String.eqb c (playlists a') = Some pl'
      /\ pl_files pl' = Some (fs ++ map new_media files)
      /\ (forall k, k <> c ->
                    PyDict.get String.eqb k (playlists a') = PyDict.get String.eqb k (playlists a))
      /\ map fst (playlists a') = map fst (playlists a)
      /\ (playlist_due now pl = false ->
          playlist_requests now pl' = playlist_requests now pl)
      /\ (playlist_active pl = true ->
          playlist_due now pl = true ->
          playlist_requests now pl'
          = map media_request fs ++ map (fun p => (Some p, 1)) files
            ++ flat_map (item_requests now) fs)
      /\ trace a' = trace a ++ [SavePlaylists].
Proof.
  intros files a c pl fs now Hcur Hc Hfiles Hpl Hfs a'.
  assert (Hcne : String.eqb c "" = false) by (apply String.eqb_neq; exact Hc).
  set (pl' := mkPlaylist (Some (fs ++ map new_media files)) (pl_time pl)
                         (pl_repeats pl) (pl_active pl)).
  assert (Ha' : a' = emit [SavePlaylists]
                          (set_playlists (PyDict.set String.eqb c pl' (playlists a)) a)).
  { subst a'. unfold _add_media. rewrite Hcur, Hcne, Hpl, Hfs.
    destruct files; [contradiction | reflexivity]. }
  assert (Hquiet : flat_map (item_requests now) (map new_media files) = []).
  { clear. induction files as [|p r IH]; [reflexivity|].
    cbn [map flat_map]. rewrite IH. reflexivity. }
  exists pl'. rewrite Ha'. edit_simpl.
  split; [apply sdict_get_set_same|].
  split; [reflexivity|].
  split; [intros k Hk; apply sdict_get_set_other; exact Hk|].
  split.
  { rewrite sdict_set_keys, (sdict_get_mem _ _ _ _ Hpl). reflexivity. }
  split; [|split; [|reflexivity]].
  - intro Hdue. unfold playlist_requests, playlist_active, playlist_due in *.
    cbn [pl' pl_files pl_active pl_time]. rewrite Hfs.
    destruct (match pl_active pl with Some b => b | None => true end); [|reflexivity].
    rewrite Hdue. cbn [app]. rewrite flat_map_app, Hquiet, app_nil_r. reflexivity.
  - intros Hact Hdue. unfold playlist_requests, playlist_active, playlist_due in *.
    cbn [pl' pl_files pl_active pl_time]. rewrite Hact, Hdue.
    rewrite map_app, flat_map_app, Hquiet, app_nil_r, map_map, <- app_assoc.
    reflexivity.
Qed.

Lemma added_media_play_with_the_playlist_witness :
  option_map (playlist_requests "09:00"%string)
             (PyDict.get String.eqb "FM"%string
                (playlists (_add_media ["x.mp3"%string] app_fm_selected)))
  = Some [(Some "a.mp3"%string, 2); (Some "b.mp3"%string, 5); (Some "x.mp3"%string, 1);
          (Some "b.mp3"%string, 5)].
Proof.
  destruct (added_media_play_with_the_playlist
              ["x.mp3"%string] app_fm_selected "FM"%string
              (mkPlaylist (Some [mkMedia (Some "a.mp3"%string) (Some []) (Some 2);
                                 mkMedia (Some "b.mp3"%string)
                                         (Some ["14:30"%string; "09:00"%string]) (Some 5)])
                          (Some "09:00"%string) (Some 1) (Some true))
              [mkMedia (Some "a.mp3"%string) (Some []) (Some 2);
               mkMedia (Some "b.mp3"%string) (Some ["14:30"%string; "09:00"%string]) (Some 5)]
              "09:00"%string)
    as (pl' & Hget & _ & _ & _ & _ & Hdue & _).
  - reflexivity.
  - discriminate.
  - discriminate.
  - reflexivity.
  - reflexivity.
  - rewrite Hget. cbn [option_map]. rewrite Hdue; reflexivity.
Defined.

(** ** The selection stays valid *)

Lemma same_selection_refl : forall a, same_selection a a.
Proof. intro a. split; reflexivity. Qed.

Lemma same_selection_trans :
  forall a b c, same_selection a b -> same_selection b c -> same_selection a c.
Proof.
  intros a b c (H1 & H2) (H3 & H4). split; [rewrite H3, H1 | rewrite H4, H2]; reflexivity.
Qed.

Lemma current_ok_known :
  forall a c,
    current_playlist a = Some c ->
    PyDict.mem String.eqb c (playlists a) = true ->
    current_ok a.
Proof.
  intros a c Hcur Hmem. unfold current_ok.
  destruct (playlists a) as [|x r] eqn:Hpl; [discriminate|].
  exists c. split; assumption.
Qed.

Lemma well_formed_frame :
  forall a a', same_selection a a' -> well_formed a -> well_formed a'.
Proof.
  intros a a' (Hkeys & Hcur) (Hnd & Hok). split; [rewrite Hkeys; exact Hnd|].
  unfold current_ok in *.
  destruct (playlists a) as [|x r] eqn:Hpl; destruct (playlists a') as [|x' r'] eqn:Hpl';
    cbn [map] in Hkeys; try discriminate.
  - rewrite Hcur. exact Hok.
  - destruct Hok as (c & Hc & Hmem). exists c. split; [rewrite Hcur; exact Hc|].
    apply sdict_mem_in. change (In c (map fst (x' :: r'))). cbn [map]. rewrite Hkeys.
    apply sdict_mem_in in Hmem. exact Hmem.
Qed.

Lemma refresh_playlist_list_ok :
  forall a,
    playlists (_refresh_playlist_list a) = playlists a
    /\ current_ok (_refresh_playlist_list a).
Proof.
  intro a. unfold _refresh_playlist_list, current_ok.
  destruct (playlists a) as [|[first p] r] eqn:Hpl; edit_simpl.
  - split; [exact Hpl | rewrite Hpl; reflexivity].
  - destruct (current_playlist a) as [c|] eqn:Hcur.
    + destruct (PyDict.mem String.eqb c ((first, p) :: r)) eqn:Hmem.
      * split; [exact Hpl|]. rewrite Hpl. exists c. split; assumption.
      * split; [exact Hpl|]. edit_simpl. rewrite Hpl. exists first.
        split; [reflexivity|]. unfold PyDict.mem. cbn [PyDict.get].
        rewrite String.eqb_refl. reflexivity.
    + split; [exact Hpl|]. edit_simpl. rewrite Hpl. exists first.
      split; [reflexivity|]. unfold PyDict.mem. cbn [PyDict.get].
      rewrite String.eqb_refl. reflexivity.
Qed.

Lemma well_formed_refresh :
  forall a, NoDup (map fst (playlists a)) -> well_formed (_refresh_playlist_list a).
Proof.
  intros a Hnd. destruct (refresh_playlist_list_ok a) as (Hpl & Hok).
  split; [rewrite Hpl; exact Hnd | exact Hok].
Qed.

Lemma well_formed_emit :
  forall evs a, well_formed a -> well_formed (emit evs a).
Proof. intros evs a. apply well_formed_frame. split; reflexivity. Qed.

Lemma well_formed_saved :
  forall a, well_formed a ->
            well_formed (if _refresh_media_table a then emit [SavePlaylists] a else a).
Proof.
  intros a H. destruct (_refresh_media_table a); [apply well_formed_emit|]; exact H.
Qed.

Lemma duck_all_sessions_selection :
  forall target exclude_pids steps step_ms h a,
    same_selection a (snd (duck_all_sessions target exclude_pids steps step_ms h a)).
Proof.
  intros target exclude_pids steps step_ms h a. unfold duck_all_sessions.
  destruct (negb (PYCAW_OK a)); [split; reflexivity|].
  destruct (negb (_duck_active a));
    match goal with
    | |- context [capture ?h ?e ?s ?sv ?td] => destruct (capture h e s sv td) as [saved to_duck]
    end;
    destruct to_duck; split; reflexivity.
Qed.

Lemma play_media_async_selection :
  forall path r a, same_selection a (play_media_async path r a).
Proof.
  intros path r a. unfold play_media_async. destruct (_is_playing a); split; reflexivity.
Qed.

Lemma fold_left_selection :
  forall (A : Type) (f : App -> A -> App) (l : list A),
    (forall a x, same_selection a (f a x)) ->
    forall a, same_selection a (fold_left f l a).
Proof.
  intros A f l Hf. induction l as [|x r IH]; intro a; cbn [fold_left].
  - apply same_selection_refl.
  - eapply same_selection_trans; [apply Hf | apply IH].
Qed.

Lemma play_playlist_selection :
  forall h name a, same_selection a (fst (_play_playlist h name a)).
Proof.
  intros h name a. unfold _play_playlist.
  destruct (PyDict.get String.eqb name (playlists a)) as [pl|];
    [|apply same_selection_refl].
  destruct (pl_files pl) as [files|]; [|apply same_selection_refl].
  cbn [fst]. apply fold_left_selection. intros b m.
  eapply same_selection_trans;
    [apply duck_all_sessions_selection | apply play_media_async_selection].
Qed.

Lemma tick_loop_selection :
  forall h now items a, same_selection a (fst (tick_loop h now items a)).
Proof.
  intros h now items. induction items as [|[name pl] rest IH]; intro a; cbn [tick_loop].
  - apply same_selection_refl.
  - destruct (negb (playlist_active pl)); [apply IH|].
    assert (Hfirst : same_selection a
                       (fst (if playlist_due now pl then _play_playlist h name a
                             else (a, true)))).
    { destruct (playlist_due now pl);
        [apply play_playlist_selection | apply same_selection_refl]. }
    destruct (if playlist_due now pl then _play_playlist h name a else (a, true))
      as [a1 ok].
    cbn [fst] in Hfirst. destruct ok; [|exact Hfirst].
    eapply same_selection_trans; [exact Hfirst|].
    eapply same_selection_trans; [|apply IH].
    apply fold_left_selection. intros b m. unfold play_media_times.
    apply fold_left_selection. intros b' t.
    destruct (String.eqb t now);
      [apply play_media_async_selection | apply same_selection_refl].
Qed.

Lemma schedule_tick_selection :
  forall h a, same_selection a (_schedule_tick h a).
Proof.
  intros h a. unfold _schedule_tick.
  pose proof (tick_loop_selection h (strftime_HM h) (playlists a) a) as H.
  destruct (tick_loop h (strftime_HM h) (playlists a) a) as [a1 ok].
  cbn [fst] in H. destruct ok; exact H.
Qed.

(** Overwriting the playlist stored under an existing name keeps the names. *)
Lemma store_playlist_selection :
  forall a name pl pl',
    PyDict.get String.eqb name (playlists a) = Some pl ->
    same_selection a (set_playlists (PyDict.set String.eqb name pl' (playlists a)) a).
Proof.
  intros a name pl pl' Hget. split; [|reflexivity]. edit_simpl.
  rewrite sdict_set_keys, (sdict_get_mem _ _ _ _ Hget). reflexivity.
Qed.

Lemma play_selected_media_selection :
  forall ui h a, same_selection a (_play_selected_media ui h a).
Proof.
  intros ui h a. unfold _play_selected_media.
  destruct (selected_index ui) as [idx|]; [|split; reflexivity].
  destruct (selected_media idx a) as [[[[name pl] files] m]|] eqn:Hmedia;
    [|apply same_selection_refl].
  destruct (selected_media_inv _ _ _ _ _ _ Hmedia) as (_ & Hget & _ & _).
  match goal with
  | |- same_selection _ (if ?c then _ else _) => destruct c
  end; [split; reflexivity|].
  eapply same_selection_trans; [|apply play_media_async_selection].
  eapply same_selection_trans; [|apply duck_all_sessions_selection].
  eapply same_selection_trans; [apply (store_playlist_selection a name pl); exact Hget|].
  split; reflexivity.
Qed.

Lemma ask_pin_app :
  forall pin title msg a s ok a1 s1,
    ask_pin pin title msg (a, s) = (ok, (a1, s1)) ->
    if ok then a1 = a else a1 = emit [ShowError title msg] a.
Proof.
  intros pin title msg a s ok a1 s1. unfold ask_pin.
  destruct (_global_locked s).
  - destruct (match pin with Some p => String.eqb p SCHEDULE_PIN | None => false end);
      intro H; inversion H; reflexivity.
  - intro H. inversion H. reflexivity.
Qed.

Lemma ctx_set_repeat_selection :
  forall pin ui a s, same_selection a (fst (_ctx_set_repeat pin ui (a, s))).
Proof.
  intros pin ui a s. unfold _ctx_set_repeat.
  destruct (ask_pin pin "Senha" "PIN incorreto." (a, s)) as [ok [a1 s1]] eqn:Hask.
  apply ask_pin_app in Hask.
  destruct ok; subst a1; [|split; reflexivity].
  destruct (selected_index ui) as [idx|]; [|apply same_selection_refl].
  destruct (selected_media idx a) as [[[[name pl] files] m]|] eqn:Hmedia;
    [|apply same_selection_refl].
  destruct (selected_media_inv _ _ _ _ _ _ Hmedia) as (_ & Hget & _ & _).
  destruct (asked_int ui); [|apply same_selection_refl].
  cbn [fst]. unfold store_media.
  eapply same_selection_trans; [apply (store_playlist_selection a name pl); exact Hget|].
  split; reflexivity.
Qed.

Lemma ctx_remove_item_selection :
  forall pin ui yes a s, same_selection a (fst (_ctx_remove_item pin ui yes (a, s))).
Proof.
  intros pin ui yes a s. unfold _ctx_remove_item.
  destruct (ask_pin pin "Senha" "PIN incorreto." (a, s)) as [ok [a1 s1]] eqn:Hask.
  apply ask_pin_app in Hask.
  destruct ok; subst a1; [|split; reflexivity].
  destruct (selected_index ui) as [idx|]; [|apply same_selection_refl].
  destruct (negb yes); [apply same_selection_refl|].
  destruct (selected_media idx a) as [[[[name pl] files] m]|] eqn:Hmedia;
    [|apply same_selection_refl].
  destruct (selected_media_inv _ _ _ _ _ _ Hmedia) as (_ & Hget & _ & _).
  cbn [fst].
  eapply same_selection_trans; [apply (store_playlist_selection a name pl); exact Hget|].
  split; reflexivity.
Qed.

Lemma run_action_well_formed :
  forall act w, well_formed (fst w) -> well_formed (fst (run_action act w)).
Proof.
  intros act [a s] Hwf. cbn [fst] in Hwf. pose proof Hwf as (Hnd & Hok).
  destruct act as [name | files | | new | yes | sel | dk h folder | ui h | pin ui
                   | pin ui yes | pin | h];
    cbn [run_action fst snd].
  - (* create *)
    unfold _create_playlist.
    destruct name as [name|]; [|exact Hwf].
    destruct (String.eqb name ""); [exact Hwf|].
    destruct (PyDict.mem String.eqb name (playlists a)); [apply well_formed_emit; exact Hwf|].
    apply well_formed_saved. apply well_formed_refresh. edit_simpl.
    apply sdict_set_nodup. exact Hnd.
  - (* add media *)
    unfold _add_media.
    destruct (current_playlist a) as [c|]; [|apply well_formed_emit; exact Hwf].
    destruct (String.eqb c ""); [apply well_formed_emit; exact Hwf|].
    destruct files as [|f files]; [exact Hwf|].
    destruct (PyDict.get String.eqb c (playlists a)) as [pl|] eqn:Hget; [|exact Hwf].
    destruct (pl_files pl); [|exact Hwf].
    apply well_formed_emit.
    eapply well_formed_frame; [apply (store_playlist_selection a c pl); exact Hget | exact Hwf].
  - (* toggle *)
    unfold _toggle_current_playlist.
    destruct (current_playlist a) as [c|]; [|apply well_formed_emit; exact Hwf].
    destruct (String.eqb c ""); [apply well_formed_emit; exact Hwf|].
    destruct (PyDict.get String.eqb c (playlists a)) as [pl|]; [|exact Hwf].
    apply well_formed_emit. apply well_formed_refresh. edit_simpl.
    apply sdict_set_nodup. exact Hnd.
  - (* rename *)
    unfold _rename_playlist.
    destruct (current_playlist a) as [c|]; [|apply well_formed_emit; exact Hwf].
    destruct (String.eqb c ""); [apply well_formed_emit; exact Hwf|].
    destruct new as [new|]; [|exact Hwf].
    destruct (String.eqb new "" || String.eqb new c); [exact Hwf|].
    destruct (PyDict.get String.eqb c (playlists a)) as [pl|]; [|exact Hwf].
    apply well_formed_emit. apply well_formed_refresh. edit_simpl.
    apply sdict_set_nodup. apply dict_pop_nodup. exact Hnd.
  - (* delete *)
    unfold _delete_playlist.
    destruct (current_playlist a) as [c|]; [|apply well_formed_emit; exact Hwf].
    destruct (String.eqb c ""); [apply well_formed_emit; exact Hwf|].
    destruct (negb yes); [exact Hwf|].
    apply well_formed_saved. apply well_formed_refresh. edit_simpl.
    apply dict_pop_nodup. exact Hnd.
  - (* select *)
    unfold _on_select_playlist.
    destruct sel as [i|]; [|exact Hwf].
    destruct (nth_error (map fst (playlists a)) i) as [name|] eqn:Hnth; [|exact Hwf].
    split; [exact Hnd|].
    apply (current_ok_known _ name); [reflexivity|]. edit_simpl.
    apply sdict_mem_in. eapply nth_error_In. exact Hnth.
  - (* import *)
    unfold _import_playlist.
    destruct folder as [dir|]; [|exact Hwf].
    destruct (String.eqb dir ""); [exact Hwf|].
    destruct (negb (path_exists h (path_join dk dir "playlist_config.json")));
      [apply well_formed_emit; exact Hwf|].
    destruct (json_load dk (path_join dk dir "playlist_config.json")) as [data|];
      [|apply well_formed_emit; exact Hwf].
    match goal with
    | |- context [import_name ?f ?b ?i ?n ?d] => destruct (import_name f b i n d) as [name|]
    end; [|exact Hwf].
    match goal with
    | |- context [import_entries ?dk ?h ?dir ?es] =>
        destruct (import_entries dk h dir es) as [[|m imported]|]
    end; [apply well_formed_emit; exact Hwf | | exact Hwf].
    apply well_formed_saved. apply well_formed_refresh. edit_simpl.
    apply sdict_set_nodup. exact Hnd.
  - (* manual play *)
    eapply well_formed_frame; [apply play_selected_media_selection | exact Hwf].
  - eapply well_formed_frame; [apply ctx_set_repeat_selection | exact Hwf].
  - eapply well_formed_frame; [apply ctx_remove_item_selection | exact Hwf].
  - (* lock *)
    unfold _toggle_global_lock.
    destruct (_global_locked s); [|apply well_formed_emit; exact Hwf].
    destruct (match pin with Some p => String.eqb p SCHEDULE_PIN | None => false end);
      apply well_formed_emit; exact Hwf.
  - eapply well_formed_frame; [apply schedule_tick_selection | exact Hwf].
Qed.

(** X21. The selection stays valid: once the playlist list has been
    refreshed, as it is at start-up, every sequence of window actions
    (create, add media, switch on or off, rename, delete, select, import,
    manual play, set repeats, remove item, lock, scheduler tick) leaves the
    playlist names distinct and [current_playlist] on an existing playlist,
    or on none when there is no playlist. *)
Theorem window_actions_keep_selection_valid :
  forall (acts : list action) (a : App) (s : Shell),
    NoDup (map fst (playlists a)) ->
    let w := run_actions acts (_refresh_playlist_list a, s) in
    NoDup (map fst (playlists (fst w)))
    /\ match playlists (fst w) with
       | [] => current_playlist (fst w) = None
       | _ :: _ =>
           exists c pl, current_playlist (fst w) = Some c
                        /\ PyDict.get String.eqb c (playlists (fst w)) = Some pl
       end.
Proof.
  intros acts a s Hnd w.
  assert (Hwf : well_formed (fst w)).
  { subst w. unfold run_actions.
    assert (Hstart : well_formed (fst (_refresh_playlist_list a, s)))
      by (apply well_formed_refresh; exact Hnd).
    revert Hstart. generalize (_refresh_playlist_list a, s).
    induction acts as [|act rest IH]; intros w0 Hw0; cbn [fold_left]; [exact Hw0|].
    apply IH. apply run_action_well_formed. exact Hw0. }
  destruct Hwf as (Hnd' & Hok). split; [exact Hnd'|].
  unfold current_ok in Hok.
  destruct (playlists (fst w)) as [|x r]; [exact Hok|].
  destruct Hok as (c & Hcur & Hmem). exists c.
  unfold PyDict.mem in Hmem.
  destruct (PyDict.get String.eqb c (x :: r)) as [pl|]; [|discriminate].
  exists pl. split; [exact Hcur | reflexivity].
Qed.

Lemma window_actions_keep_selection_valid_witness :
  current_playlist
    (fst (run_actions [DeletePlaylist true; RenamePlaylist (Some "Night"%string);
                       CreatePlaylist (Some "Day"%string); SelectPlaylist (Some 0%nat)]
                      (_refresh_playlist_list app_two_playlists, shell_idle)))
  = Some "Night"%string
  /\ NoDup (map fst (playlists
                       (fst (run_actions
                               [DeletePlaylist true; RenamePlaylist (Some "Night"%string);
                                CreatePlaylist (Some "Day"%string);
                                SelectPlaylist (Some 0%nat)]
                               (_refresh_playlist_list app_two_playlists, shell_idle))))).
Proof.
  destruct (window_actions_keep_selection_valid
              [DeletePlaylist true; RenamePlaylist (Some "Night"%string);
               CreatePlaylist (Some "Day"%string); SelectPlaylist (Some 0%nat)]
              app_two_playlists shell_idle)
    as (Hnd & _).
  - vm_compute. repeat constructor; cbn; intuition discriminate.
  - split; [reflexivity | exact Hnd].
Defined.

(** ** Start-up *)







(** A plain path among the items: in an active playlist it ends the
    constructor at the first tick; in an inactive one it stays. *)
Example startup_with_plain_path :
  _after_ui_setup
    [("FM"%string,
      mkStoredPlaylist (Some [StoredPath "a.mp3"]) (Some "08:00"%string) (Some 1) (Some true))]
    host_demo (app_idle, shell_idle) = StartupRaises
  /\ _after_ui_setup
       [("FM"%string,
         mkStoredPlaylist (Some [StoredPath "a.mp3"]) (Some "08:00"%string) (Some 1)
                          (Some false))]
       host_demo (app_idle, shell_idle) = PlainPathKept.
Proof.
  split; reflexivity.
Qed.

(** ** Schedule editor *)







